(** * mybible-get: the module cache and the installation state machine

    A shallow embedding of [mybible_get.py]:
    - the two catalog parsers ([parse_extra_registry], [parse_zipped_registry]);
    - the module cache store ([CachedModule], insert-or-ignore, latest version);
    - the installed inventory store ([InstalledModule], [InstalledFile], atomic
      blocks);
    - filename reconciliation ([_reconstruct_sqlite_name] and the dot-prefix rule);
    - the install / remove / upgrade commands.

    Python [str] values are modelled as [string], i.e. as the sequence of bytes
    of their UTF-8 encoding.  Bytewise lexicographic order on UTF-8 coincides
    with Python's code-point order, so [String.compare] is Python's [<] on
    [str].  Case mapping is the ASCII one; Unicode case mapping of non-ASCII
    characters is outside this model. *)

From Stdlib Require Import String Ascii ZArith Lia Bool.
From stdpp Require Import base option list strings gmap.

Set Warnings "-register-all".
Local Open Scope Z_scope.
Local Open Scope nat_scope.

(** ** Python string methods *)

Module Py.

Definition ascii_lower (c : ascii) : ascii :=
  let n := nat_of_ascii c in
  if (65 <=? n) && (n <=? 90) then ascii_of_nat (n + 32) else c.

(** [s.lower()] *)
Fixpoint lower (s : string) : string :=
  match s with
  | EmptyString => EmptyString
  | String c s' => String (ascii_lower c) (lower s')
  end.

(** [s.startswith(p)] *)
Fixpoint startswith (s p : string) {struct p} : bool :=
  match p with
  | EmptyString => true
  | String a p' =>
      match s with
      | EmptyString => false
      | String b s' => Ascii.eqb a b && startswith s' p'
      end
  end.

Fixpoint drop (n : nat) (s : string) : string :=
  match n, s with
  | 0, _ => s
  | S _, EmptyString => EmptyString
  | S n', String _ s' => drop n' s'
  end.

Fixpoint take (n : nat) (s : string) : string :=
  match n, s with
  | 0, _ => EmptyString
  | S _, EmptyString => EmptyString
  | S n', String c s' => String c (take n' s')
  end.

(** [s.endswith(suf)] *)
Definition endswith (s suf : string) : bool :=
  (String.length suf <=? String.length s)
  && String.eqb (drop (String.length s - String.length suf) s) suf.

(** [s.removesuffix(suf)] *)
Definition removesuffix (s suf : string) : string :=
  if endswith s suf then take (String.length s - String.length suf) s else s.

(** [s.find(sub)]: the lowest index at which [sub] starts, [-1] if none. *)
Fixpoint find (s sub : string) : Z :=
  if startswith s sub then 0%Z
  else match s with
       | EmptyString => (-1)%Z
       | String _ s' =>
           let r := find s' sub in
           if (r =? -1)%Z then (-1)%Z else (r + 1)%Z
       end.

(** [sub in s] *)
Definition contains (sub s : string) : bool := negb (find s sub =? -1)%Z.

(** [s[a:b]] for indices [0 <= a] and [0 <= b] (an empty slice when
    [b <= a]), and [s[a:]]. *)
Definition slice (s : string) (a b : Z) : string :=
  take (Z.to_nat b - Z.to_nat a) (drop (Z.to_nat a) s).
Definition slice_from (s : string) (a : Z) : string := drop (Z.to_nat a) s.

(** [s.split(c)] for a one-character separator; never the empty list. *)
Fixpoint split (c : ascii) (s : string) : list string :=
  match s with
  | EmptyString => [EmptyString]
  | String a s' =>
      if Ascii.eqb a c then EmptyString :: split c s'
      else match split c s' with
           | [] => [String a EmptyString]
           | p :: ps => String a p :: ps
           end
  end.

(** [parts[-1]] on a list of strings that [split] produced. *)
Definition last_part (parts : list string) : string := List.last parts EmptyString.

(** [s.replace(old, new)] for a non-empty [old]: every non-overlapping
    occurrence, scanning from the left.  [skip] counts the characters of a
    match that are still to be passed over. *)
Fixpoint replace_go (old new s : string) (skip : nat) : string :=
  match s with
  | EmptyString => EmptyString
  | String a s' =>
      match skip with
      | S k => replace_go old new s' k
      | 0 =>
          if startswith s old
          then new +:+ replace_go old new s' (String.length old - 1)
          else String a (replace_go old new s' 0)
      end
  end.
Definition replace (s old new : string) : string := replace_go old new s 0.

(** Characters removed by [s.strip()]: the ASCII ones for which
    [str.isspace] holds (white space outside ASCII is not modelled). *)
Definition is_space (c : ascii) : bool :=
  let n := nat_of_ascii c in
  ((9 <=? n) && (n <=? 13)) || ((28 <=? n) && (n <=? 32)).

Fixpoint lstrip_by (p : ascii -> bool) (s : string) : string :=
  match s with
  | EmptyString => EmptyString
  | String c s' => if p c then lstrip_by p s' else s
  end.

Fixpoint rstrip_by (p : ascii -> bool) (s : string) : string :=
  match s with
  | EmptyString => EmptyString
  | String c s' =>
      match rstrip_by p s' with
      | EmptyString => if p c then EmptyString else String c EmptyString
      | r => String c r
      end
  end.

Definition strip_by (p : ascii -> bool) (s : string) : string :=
  rstrip_by p (lstrip_by p s).

(** [s.strip()] and [s.strip(chars)] *)
Definition strip (s : string) : string := strip_by is_space s.
Definition strip_chars (chars : list ascii) (s : string) : string :=
  strip_by (fun c => existsb (Ascii.eqb c) chars) s.

(** One hexadecimal digit, as [urllib.parse] accepts them. *)
Definition hex_digit (c : ascii) : option nat :=
  let n := nat_of_ascii c in
  if (48 <=? n) && (n <=? 57) then Some (n - 48)
  else if (65 <=? n) && (n <=? 70) then Some (n - 55)
  else if (97 <=? n) && (n <=? 102) then Some (n - 87)
  else None.

(** What [urllib.parse.unquote_to_bytes] does with one piece that followed
    a percent sign. *)
Definition unquote_item (item : string) : string :=
  match item with
  | String h1 (String h2 rest) =>
      match hex_digit h1, hex_digit h2 with
      | Some a, Some b => String (ascii_of_nat (16 * a + b)) rest
      | _, _ => String "%" item
      end
  | _ => String "%" item
  end.

(** [urllib.parse.unquote(s)]: the string is cut at the percent signs and
    every piece that starts with two hexadecimal digits has them replaced by
    the byte they denote.  The last step of the library, which replaces byte
    sequences that are not well-formed UTF-8 by U+FFFD, is not modelled: the
    decoded bytes are kept. *)
Definition unquote (s : string) : string :=
  match split "%" s with
  | [] => EmptyString
  | first :: items => first +:+ String.concat EmptyString (map unquote_item items)
  end.

End Py.

(** ** Values decoded by [json.loads], and the Python operations on them *)

(** A decoded JSON document.  A [JDict] lists each key once, in the order of
    the document; [JNum] stands for Python's numbers, which every operation
    used below treats alike (only whether one is zero matters). *)
Inductive json : Type :=
| JNull
| JBool (b : bool)
| JNum (n : Z)
| JStr (s : string)
| JList (l : list json)
| JDict (d : list (string * json)).

(** The exceptions that the modelled code can raise. *)
Inductive exn : Type :=
| AttributeError
| KeyError
| TypeError
| IntegrityError
| OperationalError
| RequestException
| BadZipFile
| OSError.

(** The outcome of a computation that may raise. *)
Inductive result (A : Type) : Type :=
| Ok (a : A)
| Raise (e : exn).
Arguments Ok {A} a.
Arguments Raise {A} e.

#[global] Instance result_ret : MRet result := fun A a => Ok a.
#[global] Instance result_bind : MBind result := fun A B f m =>
  match m with
  | Ok a => f a
  | Raise e => Raise e
  end.

(** [bool(v)] *)
Definition truthy (v : json) : bool :=
  match v with
  | JNull => false
  | JBool b => b
  | JNum n => negb (n =? 0)%Z
  | JStr s => negb (String.eqb s EmptyString)
  | JList l => match l with [] => false | _ => true end
  | JDict d => match d with [] => false | _ => true end
  end.

Fixpoint dict_lookup (k : string) (d : list (string * json)) : option json :=
  match d with
  | [] => None
  | (k', v) :: d' => if String.eqb k k' then Some v else dict_lookup k d'
  end.

(** [v.get(k, dflt)]: only a dict has the method. *)
Definition py_get (v : json) (k : string) (dflt : json) : result json :=
  match v with
  | JDict d => Ok (default dflt (dict_lookup k d))
  | _ => Raise AttributeError
  end.

(** [v[k]] for a string [k]: a missing key is a [KeyError], and a value that
    is not a dict cannot be indexed by a string. *)
Definition py_getitem (v : json) (k : string) : result json :=
  match v with
  | JDict d => match dict_lookup k d with
               | Some x => Ok x
               | None => Raise KeyError
               end
  | _ => Raise TypeError
  end.

Fixpoint chars (s : string) : list json :=
  match s with
  | EmptyString => []
  | String c s' => JStr (String c EmptyString) :: chars s'
  end.

(** [for x in v]: the items of a list, the keys of a dict, the characters of
    a string (here: its bytes, one string each); nothing else is iterable. *)
Definition py_iter (v : json) : result (list json) :=
  match v with
  | JList l => Ok l
  | JDict d => Ok (map (fun kv => JStr kv.1) d)
  | JStr s => Ok (chars s)
  | _ => Raise TypeError
  end.

Definition is_str (k : string) (v : json) : bool :=
  match v with
  | JStr s => String.eqb s k
  | _ => false
  end.

(** [k in v] for a string [k]: a key of a dict, a substring of a string, an
    item of a list. *)
Definition py_in (k : string) (v : json) : result bool :=
  match v with
  | JDict d => Ok (bool_decide (is_Some (dict_lookup k d)))
  | JStr s => Ok (Py.contains k s)
  | JList l => Ok (existsb (is_str k) l)
  | _ => Raise TypeError
  end.

(** The receiver of a [str] method ([endswith], [split], [find],
    [replace]): no other value has these attributes. *)
Definition as_str (v : json) : result string :=
  match v with
  | JStr s => Ok s
  | _ => Raise AttributeError
  end.

(** Storing under a key hashes it: lists and dicts are unhashable. *)
Definition py_hash_check (v : json) : result unit :=
  match v with
  | JList _ | JDict _ => Raise TypeError
  | _ => Ok tt
  end.

(** ** Catalog parsers *)

(** The dictionary a parser yields for one module.  Fields that the parser
    passes through from the catalog keep whatever value the catalog had. *)
Module ModuleRecord.
Record t : Type := {
  name : json;
  language : json;
  description : json;
  update_date : json;
  download_url : string;
  file_name : json;
  module_type : string;
  size : json;
  source_registry : string
}.
End ModuleRecord.
Abbreviation module_record := ModuleRecord.t.

(** Lines 195-199 and 222-226: the module type, from the download URL. *)
Definition module_type_from_url (download_url : string) : string :=
  let url_filename := Py.last_part (Py.split "/" download_url) in
  let decoded_url_filename := Py.unquote url_filename in
  let url_without_zip := Py.removesuffix decoded_url_filename ".zip" in
  let parts := Py.split "." url_without_zip in
  if 1 <? length parts then Py.last_part parts else "bible".

(** [all(k in mod for k in keys)], which stops at the first key that is
    absent. *)
Fixpoint all_in (keys : list string) (mod_ : json) : result bool :=
  match keys with
  | [] => Ok true
  | k :: keys' =>
      b ← py_in k mod_;
      if b : bool then all_in keys' mod_ else Ok false
  end.

Definition extra_required : list string :=
  ["download_url"; "file_name"; "description"; "update_date"].

(** The body of the loop of [parse_extra_registry] for one entry that passed
    the test on the required keys. *)
Definition extra_record (mod_ : json) (registry_url : string) : result module_record :=
  fn ← py_getitem mod_ "file_name";
  module_name ← as_str fn;
  let module_name :=
    if Py.endswith module_name ".zip"
    then Py.take (String.length module_name - 4) module_name
    else module_name in
  du ← py_getitem mod_ "download_url";
  download_url ← as_str du;
  let module_type := module_type_from_url download_url in
  lang ← py_get mod_ "language_code" JNull;
  des ← py_getitem mod_ "description";
  upd ← py_getitem mod_ "update_date";
  file_name ← as_str fn;
  Ok {| ModuleRecord.name := JStr module_name;
        ModuleRecord.language := lang;
        ModuleRecord.description := des;
        ModuleRecord.update_date := upd;
        ModuleRecord.download_url := download_url;
        ModuleRecord.file_name := JStr (file_name +:+ ".zip");
        ModuleRecord.module_type := module_type;
        ModuleRecord.size := JNull;
        ModuleRecord.source_registry := registry_url |}.

Fixpoint extra_loop (mods : list json) (registry_url : string) : result (list module_record) :=
  match mods with
  | [] => Ok []
  | mod_ :: rest =>
      complete ← all_in extra_required mod_;
      if complete : bool then
        r ← extra_record mod_ registry_url;
        rs ← extra_loop rest registry_url;
        Ok (r :: rs)
      else extra_loop rest registry_url
  end.

(** [list(parse_extra_registry(data, registry_url))]: the records the
    generator yields, or the exception that ends it. *)
Definition parse_extra_registry (data : json) (registry_url : string)
  : result (list module_record) :=
  modules ← py_get data "modules" (JList []);
  mods ← py_iter modules;
  extra_loop mods registry_url.

(** The dict comprehension of line 209.  Only string aliases are kept: the
    lookup [alias in hosts] is made with a string and finds no other key. *)
Fixpoint build_hosts (hs : list json) (hosts : gmap string json) : result (gmap string json) :=
  match hs with
  | [] => Ok hosts
  | h :: hs' =>
      a ← py_getitem h "alias";
      p ← py_getitem h "path";
      _ ← py_hash_check a;
      build_hosts hs' (match a with JStr s => <[s := p]> hosts | _ => hosts end)
  end.

(** The body of the inner loop of [parse_zipped_registry]: what one URL
    template of the entry [mod] contributes. *)
Definition zipped_template (hosts : gmap string json) (mod_ : json) (registry_url : string)
    (url_template : json) : result (list module_record) :=
  t ← as_str url_template;
  let alias_start := (Py.find t "{" + 1)%Z in
  let alias_end := Py.find t "}" in
  if (alias_start =? 0)%Z || (alias_end =? -1)%Z then Ok []
  else
    let alias := Py.slice t alias_start alias_end in
    let file_part := Py.slice_from t (alias_end + 1)%Z in
    match hosts !! alias with
    | None => Ok []
    | Some path =>
        name ← py_get mod_ "abr" JNull;
        fil_default ← py_get mod_ "abr" JNull;
        file_name ← py_get mod_ "fil" fil_default;
        des ← py_get mod_ "des" JNull;
        upd ← py_get mod_ "upd" JNull;
        if negb (truthy des && truthy upd) then Ok []
        else
          path ← as_str path;
          let download_url := Py.replace path "%s" file_part in
          let module_type := module_type_from_url download_url in
          lng ← py_get mod_ "lng" JNull;
          siz ← py_get mod_ "siz" JNull;
          Ok [{| ModuleRecord.name := name;
                 ModuleRecord.language := lng;
                 ModuleRecord.description := des;
                 ModuleRecord.update_date := upd;
                 ModuleRecord.download_url := download_url;
                 ModuleRecord.file_name := file_name;
                 ModuleRecord.module_type := module_type;
                 ModuleRecord.size := siz;
                 ModuleRecord.source_registry := registry_url |}]
    end.

Fixpoint zipped_templates (hosts : gmap string json) (mod_ : json) (registry_url : string)
    (templates : list json) : result (list module_record) :=
  match templates with
  | [] => Ok []
  | t :: ts =>
      rs ← zipped_template hosts mod_ registry_url t;
      rs' ← zipped_templates hosts mod_ registry_url ts;
      Ok (rs ++ rs')
  end.

(** The body of the outer loop of [parse_zipped_registry] for one entry. *)
Definition zipped_entry (hosts : gmap string json) (registry_url : string) (mod_ : json)
  : result (list module_record) :=
  abr ← py_get mod_ "abr" JNull;
  url ← py_get mod_ "url" JNull;
  if negb (truthy abr && truthy url) then Ok []
  else
    url ← py_get mod_ "url" (JList []);
    templates ← py_iter url;
    zipped_templates hosts mod_ registry_url templates.

Fixpoint zipped_loop (hosts : gmap string json) (registry_url : string) (mods : list json)
  : result (list module_record) :=
  match mods with
  | [] => Ok []
  | mod_ :: rest =>
      rs ← zipped_entry hosts registry_url mod_;
      rs' ← zipped_loop hosts registry_url rest;
      Ok (rs ++ rs')
  end.

(** [list(parse_zipped_registry(data, registry_url))] *)
Definition parse_zipped_registry (data : json) (registry_url : string)
  : result (list module_record) :=
  hs ← py_get data "hosts" (JList []);
  hs ← py_iter hs;
  hosts ← build_hosts hs ∅;
  downloads ← py_get data "downloads" (JList []);
  mods ← py_iter downloads;
  zipped_loop hosts registry_url mods.

(** ** The module cache store *)

(** A row of the table [CachedModule].  Its primary key is the triple
    [(name, update_date, download_url)]. *)
Module CachedModule.
Record t : Type := {
  name : string;
  language : option string;
  description : string;
  update_date : string;
  download_url : string;
  file_name : string;
  module_type : string;
  size : option string;
  source_registry : string
}.
End CachedModule.

(** SQLite's [LIKE], which is what peewee's [ilike] is on this database
    (the pattern is passed as it is, with no escape character): in the
    pattern a percent sign stands for any run of characters and an
    underscore for any single one; letters match without regard to ASCII
    case.  A string is the sequence of the bytes of its UTF-8 text: the
    underscore takes one byte here and one character in SQLite, which is
    the same on ASCII text. *)
Fixpoint sql_like (pattern : string) : string -> bool :=
  match pattern with
  | EmptyString => fun s => match s with EmptyString => true | _ => false end
  | String c pattern' =>
      if Ascii.eqb c "%" then
        fix star (s : string) : bool :=
          sql_like pattern' s
          || match s with EmptyString => false | String _ s' => star s' end
      else if Ascii.eqb c "_" then
        fun s => match s with EmptyString => false | String _ s' => sql_like pattern' s' end
      else
        fun s => match s with
                 | EmptyString => false
                 | String d s' =>
                     Ascii.eqb (Py.ascii_lower c) (Py.ascii_lower d) && sql_like pattern' s'
                 end
  end.

(** [field.ilike(rhs)] *)
Definition ilike (field rhs : string) : bool := sql_like rhs field.

(** Two rows collide on the primary key (SQLite compares text exactly). *)
Definition same_key (a b : CachedModule.t) : bool :=
  String.eqb (CachedModule.name a) (CachedModule.name b)
  && String.eqb (CachedModule.update_date a) (CachedModule.update_date b)
  && String.eqb (CachedModule.download_url a) (CachedModule.download_url b).

(** [INSERT OR IGNORE] of one row. *)
Definition insert_or_ignore (db : list CachedModule.t) (row : CachedModule.t)
  : list CachedModule.t :=
  if existsb (same_key row) db then db else db ++ [row].

(** Line 269: [CachedModule.insert_many(rows).on_conflict_ignore().execute()] *)
Definition insert_many_on_conflict_ignore (rows db : list CachedModule.t)
  : list CachedModule.t :=
  fold_left insert_or_ignore rows db.

(** The first row of [ORDER BY update_date DESC]: a row with the greatest
    [update_date]; among equals, the one met first. *)
Fixpoint first_by_update_date_desc (rows : list CachedModule.t) : option CachedModule.t :=
  match rows with
  | [] => None
  | r :: rest =>
      match first_by_update_date_desc rest with
      | None => Some r
      | Some m =>
          if String.ltb (CachedModule.update_date r) (CachedModule.update_date m)
          then Some m else Some r
      end
  end.

(** [CachedModule.select().where(CachedModule.name.ilike(name))
      .order_by(CachedModule.update_date.desc()).get_or_none()] *)
Definition latest_cached (cache : list CachedModule.t) (name : string)
  : option CachedModule.t :=
  first_by_update_date_desc (filter (fun c => ilike (CachedModule.name c) name = true) cache).

(** [query.where(CachedModule.update_date == version).get_or_none()] *)
Definition cached_version (cache : list CachedModule.t) (name version : string)
  : option CachedModule.t :=
  List.find (fun c => ilike (CachedModule.name c) name
                      && String.eqb (CachedModule.update_date c) version) cache.

(** ** The installed inventory store *)

Module InstalledModule.
Record t : Type := {
  id : nat;
  name : string;
  language : option string;
  description : string;
  update_date : string;
  install_date : string
}.
End InstalledModule.

Module InstalledFile.
Record t : Type := {
  id : nat;
  module : nat;
  file_name : string;
  file_path : string
}.
End InstalledFile.

(** The two tables of [mybible_installed.db], rows in rowid order. *)
Record inventory : Type := {
  modules : list InstalledModule.t;
  files : list InstalledFile.t
}.

(** The rowid SQLite gives to a new row: one more than the greatest in use. *)
Definition next_id (ids : list nat) : nat := S (foldr Nat.max 0 ids).

(** [InstalledModule.get_or_none(InstalledModule.name.ilike(name))] *)
Definition get_or_none (inv : inventory) (name : string) : option InstalledModule.t :=
  List.find (fun m => ilike (InstalledModule.name m) name) (modules inv).

(** [installed.files], the back-reference of the foreign key. *)
Definition files_of (inv : inventory) (m : InstalledModule.t) : list InstalledFile.t :=
  filter (fun f => InstalledFile.module f = InstalledModule.id m) (files inv).

(** [installed.delete_instance(recursive=True)]: the rows that refer to the
    module go first, then the module's own row. *)
Definition delete_instance (inv : inventory) (m : InstalledModule.t) : inventory :=
  {| modules := filter (fun m' => InstalledModule.id m' ≠ InstalledModule.id m) (modules inv);
     files := filter (fun f => InstalledFile.module f ≠ InstalledModule.id m) (files inv) |}.

(** ** The world outside the program *)

(** A member of an archive, as [ZipFile.infolist] reports it. *)
Record ZipInfo : Type := {
  filename : string;
  is_dir : bool
}.

(** What the program asks of the file system, the network, the archive
    reader, the clock and the database engine.  [E] is the state of that
    outside world; an operation that can raise returns its outcome together
    with the state it leaves behind. *)
Class Env (E : Type) : Type := {
  (** [DOWNLOAD_CACHE_DIR] *)
  download_cache_dir : string;
  (** [Path(a) / b], as a string *)
  path_join : string -> string -> string;
  (** [Path.exists]: when [stat] fails it answers [False] for a path that
      is not there and lets every other [OSError] through *)
  path_exists : string -> E -> result bool;
  (** [Path.is_file], [Path.is_dir] *)
  path_is_file : string -> E -> bool;
  path_is_dir : string -> E -> bool;
  (** [Path.unlink] and [shutil.rmtree]; [false] when they raise [OSError] *)
  path_unlink : string -> E -> bool * E;
  rmtree : string -> E -> bool * E;
  (** [Path.rename] *)
  path_rename : string -> string -> E -> result unit * E;
  (** [requests.get(url, stream=True)] written chunk by chunk to [zip_path] *)
  fetch_to : string -> string -> E -> result unit * E;
  (** [zipfile.ZipFile(zip_path).infolist()] *)
  zip_infolist : string -> E -> result (list ZipInfo);
  (** [z.extract(member, module_path)] *)
  zip_extract : string -> ZipInfo -> option string -> E -> result unit * E;
  (** [datetime.now()] *)
  now : E -> string;
  (** whether the database engine refuses to write this [InstalledFile] row
      (a full disk, a locked file) *)
  insert_file_fails : E -> InstalledFile.t -> bool
}.

(** What the program prints, one constructor per message. *)
Inductive message : Type :=
| ModulePathNotSet
| VersionNeedsSingleModule
| CacheEmpty
| Processing (name : string)
| Reinstalling (name : string)
| FailedToRemoveExisting (name : string)
| AlreadyInstalled (name : string)
| NotFoundInCache (name : string)
| DownloadFailed (name : string)
| SuccessfullyInstalled (name version : string) (n_files : nat)
| NotInstalled (name : string)
| ErrorRemoving (file_path : string)
| ModuleRemoved (name : string)
| SpecifyNamesOrAll
| NoModulesInstalled
| AllUpToDate
| FoundToUpgrade (n : nat)
| Upgrading (name : string)
| FailedToRemoveOld (name : string).

(** Everything a command can read or change. *)
Record world (E : Type) : Type := {
  env : E;
  cache : list CachedModule.t;
  inv : inventory;
  module_path : option string;
  console : list message
}.
Arguments env {E}.
Arguments cache {E}.
Arguments inv {E}.
Arguments module_path {E}.
Arguments console {E}.

Definition set_env {E} (e : E) (w : world E) : world E :=
  {| env := e; cache := cache w; inv := inv w; module_path := module_path w;
     console := console w |}.
Definition set_inv {E} (i : inventory) (w : world E) : world E :=
  {| env := env w; cache := cache w; inv := i; module_path := module_path w;
     console := console w |}.

(** A command: it may change the world and may raise; what it did before
    raising stays done. *)
Definition cmd (E A : Type) : Type := world E -> result A * world E.

#[global] Instance cmd_ret {E} : MRet (cmd E) := fun A a w => (Ok a, w).
#[global] Instance cmd_bind {E} : MBind (cmd E) := fun A B f m w =>
  match m w with
  | (Ok a, w') => f a w'
  | (Raise e, w') => (Raise e, w')
  end.

Definition raise {E A} (e : exn) : cmd E A := fun w => (Raise e, w).

(** The world after [console.print(msg)], and the command. *)
Definition printed {E} (msg : message) (w : world E) : world E :=
  {| env := env w; cache := cache w; inv := inv w; module_path := module_path w;
     console := console w ++ [msg] |}.
Definition print {E} (msg : message) : cmd E unit := fun w => (Ok tt, printed msg w).

Definition unless_quiet {E} (quiet : bool) (msg : message) : cmd E unit :=
  if quiet then mret tt else print msg.

(** [with installed_db.atomic(): body]: when the body raises, the tables are
    put back as they were on entry and the exception goes on; whatever else
    the body did stays done. *)
Definition atomic {E A} (body : cmd E A) : cmd E A := fun w =>
  match body w with
  | (Ok a, w') => (Ok a, w')
  | (Raise e, w') => (Raise e, set_inv (inv w) w')
  end.

(** Running an operation of the outside world. *)
Definition env_bool {E} (op : E -> bool * E) : cmd E bool := fun w =>
  let '(b, e) := op (env w) in (Ok b, set_env e w).
Definition env_try {E A} (op : E -> result A * E) : cmd E A := fun w =>
  let '(r, e) := op (env w) in (r, set_env e w).
Definition env_read {E A} (f : E -> A) : cmd E A := fun w => (Ok (f (env w)), w).
Definition env_ask {E A} (f : E -> result A) : cmd E A := fun w => (f (env w), w).

(** Reading the world, and changing the inventory tables. *)
Definition get_world {E} : cmd E (world E) := fun w => (Ok w, w).
Definition modify_inv {E} (f : inventory -> inventory) : cmd E unit := fun w =>
  (Ok tt, set_inv (f (inv w)) w).

(** [bool(s)] for an optional string: [None] and the empty string are false. *)
Definition truthy_str (s : option string) : bool :=
  match s with
  | Some s => negb (String.eqb s EmptyString)
  | None => false
  end.

(** [is_cache_empty()]: a cache file that is missing counts as empty. *)
Definition is_cache_empty {E} (w : world E) : bool :=
  match cache w with [] => true | _ => false end.

(** Lines 117-124. *)
Definition process_module_names (names_tuple : list string) : list string :=
  flat_map (fun name =>
              filter (fun p => p ≠ EmptyString)
                (map (fun part => Py.strip_chars ["'"; "034"]%char (Py.strip part))
                     (Py.split "," name)))
           names_tuple.

(** ** Filename reconciliation *)

Definition module_types : list string :=
  ["commentaries"; "cross-references"; "crossreferences"; "devotions";
   "dictionaries_lookup"; "dictionaries-lookup"; "dictionary";
   "plan"; "referencedata"; "subheadings"].

(** The loop of lines 517-520: the first type whose dotted form occurs in the
    lowercased file name. *)
Definition detected_type (lower_filename : string) : option string :=
  List.find (fun mod_type => Py.contains ("." +:+ Py.lower mod_type +:+ ".") lower_filename)
            module_types.

Definition _reconstruct_sqlite_name (original_filename module_name_from_json : string)
  : string :=
  if negb (Py.endswith (Py.lower original_filename) ".sqlite3") then original_filename
  else
    match detected_type (Py.lower original_filename) with
    | Some mod_type => module_name_from_json +:+ "." +:+ mod_type +:+ ".SQLite3"
    | None => module_name_from_json +:+ ".SQLite3"
    end.

(** Lines 566-571 of [install_single_module]: the name a member is given on
    disk. *)
Definition target_name (original_filename_in_zip clean_module_name : string) : string :=
  let target_name := _reconstruct_sqlite_name original_filename_in_zip clean_module_name in
  if String.eqb target_name original_filename_in_zip
     && Py.startswith original_filename_in_zip "."
  then clean_module_name +:+ original_filename_in_zip
  else target_name.

(** ** Install, remove, upgrade *)

(** [d[k] = v] on a dict kept in insertion order. *)
Fixpoint dict_set (k v : string) (d : list (string * string)) : list (string * string) :=
  match d with
  | [] => [(k, v)]
  | (k', v') :: d' => if String.eqb k k' then (k, v) :: d' else (k', v') :: dict_set k v d'
  end.

Section Commands.
Context {E : Type} `{Env E}.

(** [InstalledModule.create(...)]: the column [name] is unique. *)
Definition InstalledModule_create (name : string) (language : option string)
    (description update_date install_date : string) : cmd E InstalledModule.t := fun w =>
  if existsb (fun m => String.eqb (InstalledModule.name m) name) (modules (inv w))
  then (Raise IntegrityError, w)
  else
    let row := {| InstalledModule.id := next_id (map InstalledModule.id (modules (inv w)));
                  InstalledModule.name := name;
                  InstalledModule.language := language;
                  InstalledModule.description := description;
                  InstalledModule.update_date := update_date;
                  InstalledModule.install_date := install_date |} in
    (Ok row, set_inv {| modules := modules (inv w) ++ [row]; files := files (inv w) |} w).

(** [InstalledFile.create(module=..., file_name=..., file_path=...)] *)
Definition InstalledFile_create (module : InstalledModule.t) (file_name file_path : string)
  : cmd E unit := fun w =>
  let row := {| InstalledFile.id := next_id (map InstalledFile.id (files (inv w)));
                InstalledFile.module := InstalledModule.id module;
                InstalledFile.file_name := file_name;
                InstalledFile.file_path := file_path |} in
  if insert_file_fails (env w) row then (Raise OperationalError, w)
  else (Ok tt, set_inv {| modules := modules (inv w); files := files (inv w) ++ [row] |} w).

(** The loop of lines 588-589. *)
Fixpoint create_files (module : InstalledModule.t) (items : list (string * string))
  : cmd E unit :=
  match items with
  | [] => mret tt
  | (fname, fpath) :: rest =>
      _ ← InstalledFile_create module fname fpath;
      create_files module rest
  end.

(** Lines 586-589: the module row and its file rows, in one atomic block. *)
Definition record_install (mod_ : CachedModule.t) (final_files_to_db : list (string * string))
  : cmd E unit :=
  atomic (
    install_date ← env_read now;
    installed_module ← InstalledModule_create (CachedModule.name mod_)
                         (CachedModule.language mod_) (CachedModule.description mod_)
                         (CachedModule.update_date mod_) install_date;
    create_files installed_module final_files_to_db).

(** The loop of lines 558-584 over the members of the archive. *)
Fixpoint extract_members (zip_path : string) (module_path : option string)
    (clean_module_name : string) (members : list ZipInfo)
    (final_files_to_db : list (string * string)) : cmd E (list (string * string)) :=
  match members with
  | [] => mret final_files_to_db
  | member :: rest =>
      if is_dir member
      then extract_members zip_path module_path clean_module_name rest final_files_to_db
      else
        let original_filename_in_zip := filename member in
        let target_name := target_name original_filename_in_zip clean_module_name in
        _ ← env_try (zip_extract zip_path member module_path);
        match module_path with
        | None => raise TypeError
        | Some module_path' =>
            let extracted_path := path_join module_path' original_filename_in_zip in
            if negb (String.eqb target_name original_filename_in_zip) then
              let target_path := path_join module_path' target_name in
              ex ← env_ask (path_exists extracted_path);
              _ ← (if ex : bool then env_try (path_rename extracted_path target_path)
                   else mret tt);
              extract_members zip_path module_path clean_module_name rest
                (dict_set target_name target_path final_files_to_db)
            else
              extract_members zip_path module_path clean_module_name rest
                (dict_set target_name extracted_path final_files_to_db)
        end
  end.

(** Lines 542-551: the archive is fetched unless a file of its name is in the
    download cache already; a [RequestException] is caught and reported. *)
Definition ensure_downloaded (name : string) (mod_ : CachedModule.t) (zip_path : string)
  : cmd E bool := fun w =>
  match path_exists zip_path (env w) with
  | Raise e => (Raise e, w)
  | Ok true => (Ok true, w)
  | Ok false =>
      match env_try (fetch_to (CachedModule.download_url mod_) zip_path) w with
      | (Ok _, w') => (Ok true, w')
      | (Raise RequestException, w') => (Ok false, snd (print (DownloadFailed name) w'))
      | (Raise e, w') => (Raise e, w')
      end
  end.

(** The query of lines 529-530. *)
Definition select_module (cache : list CachedModule.t) (name : string)
    (version : option string) : option CachedModule.t :=
  if truthy_str version
  then cached_version cache name (default EmptyString version)
  else latest_cached cache name.

(** Lines 527-592. *)
Definition install_single_module (name : string) (version : option string) : cmd E bool :=
  w ← get_world;
  match select_module (cache w) name version with
  | None => _ ← print (NotFoundInCache name); mret false
  | Some mod_ =>
      let url_filename := Py.last_part (Py.split "/" (CachedModule.download_url mod_)) in
      let decoded_filename := Py.unquote url_filename in
      let decoded_filename :=
        if Py.endswith decoded_filename ".zip" then decoded_filename
        else decoded_filename +:+ ".zip" in
      let zip_path := path_join download_cache_dir decoded_filename in
      downloaded ← ensure_downloaded name mod_ zip_path;
      if downloaded : bool then
        members ← env_try (fun e => (zip_infolist zip_path e, e));
        let clean_module_name := Py.removesuffix (CachedModule.name mod_) ".zip" in
        final_files_to_db ←
          extract_members zip_path (module_path w) clean_module_name members [];
        _ ← record_install mod_ final_files_to_db;
        _ ← print (SuccessfullyInstalled (CachedModule.name mod_)
                     (CachedModule.update_date mod_) (length final_files_to_db));
        mret true
      else mret false
  end.

(** Lines 630-637 for one file record: [true] when the path is gone or was
    never there, [false] when removing it raised [OSError].  The test of
    line 631 stands before the [try]: what [exists] raises is not caught. *)
Definition remove_path (file_path : string) : cmd E bool :=
  ex ← env_ask (path_exists file_path);
  if ex : bool then
    w ← get_world;
    if path_is_file file_path (env w) then env_bool (path_unlink file_path)
    else if path_is_dir file_path (env w) then env_bool (rmtree file_path)
    else mret true
  else mret true.

(** The loop of lines 629-637; [false] stands for its [return False]. *)
Fixpoint remove_files (quiet : bool) (file_records : list InstalledFile.t) : cmd E bool :=
  match file_records with
  | [] => mret true
  | file_record :: rest =>
      removed ← remove_path (InstalledFile.file_path file_record);
      if removed : bool then remove_files quiet rest
      else
        _ ← unless_quiet quiet (ErrorRemoving (InstalledFile.file_path file_record));
        mret false
  end.

(** Lines 621-640. *)
Definition remove_module (name : string) (quiet : bool) : cmd E bool :=
  done ← atomic (
    w ← get_world;
    match get_or_none (inv w) name with
    | None => _ ← unless_quiet quiet (NotInstalled name); mret false
    | Some installed =>
        removed ← remove_files quiet (files_of (inv w) installed);
        if removed : bool then
          _ ← modify_inv (fun i => delete_instance i installed);
          mret true
        else mret false
    end);
  if done : bool then
    _ ← unless_quiet quiet (ModuleRemoved name);
    mret true
  else mret false.

(** The decorator [use_installed_db]: without a module path nothing is run.
    Opening the database and creating its tables when they are missing
    changes no row and is not modelled. *)
Definition use_installed_db (f : cmd E unit) : cmd E unit :=
  w ← get_world;
  if truthy_str (module_path w) then f else print ModulePathNotSet.

(** Lines 609-618: whether the loop goes on to install [name]. *)
Definition install_precheck (name : string) (reinstall : bool) : cmd E bool :=
  atomic (
    w ← get_world;
    match get_or_none (inv w) name with
    | Some installed =>
        if reinstall then
          _ ← print (Reinstalling name);
          removed ← remove_module name true;
          if removed : bool then mret true
          else _ ← print (FailedToRemoveExisting name); mret false
        else _ ← print (AlreadyInstalled name); mret false
    | None => mret true
    end).

(** The loop of lines 607-619. *)
Fixpoint install_loop (module_names : list string) (version : option string)
    (reinstall : bool) : cmd E unit :=
  match module_names with
  | [] => mret tt
  | name :: rest =>
      _ ← print (Processing name);
      proceed ← install_precheck name reinstall;
      _ ← (if proceed : bool then _ ← install_single_module name version; mret tt
           else mret tt);
      install_loop rest version reinstall
  end.

(** Lines 599-619, below the decorator. *)
Definition install_body (names : list string) (version : option string) (reinstall : bool)
  : cmd E unit :=
  w ← get_world;
  if truthy_str version && (1 <? length (process_module_names names))
  then print VersionNeedsSingleModule
  else if is_cache_empty w then print CacheEmpty
  else install_loop (process_module_names names) version reinstall.

(** The command [install]. *)
Definition install (names : list string) (version : option string) (reinstall : bool)
  : cmd E unit :=
  use_installed_db (install_body names version reinstall).

(** Lines 674-677: the names [upgrade --all] selects. *)
Fixpoint outdated_all (cache : list CachedModule.t) (installed_modules : list InstalledModule.t)
  : list string :=
  match installed_modules with
  | [] => []
  | installed_mod :: rest =>
      match latest_cached cache (InstalledModule.name installed_mod) with
      | Some latest =>
          if String.ltb (InstalledModule.update_date installed_mod)
                        (CachedModule.update_date latest)
          then InstalledModule.name installed_mod :: outdated_all cache rest
          else outdated_all cache rest
      | None => outdated_all cache rest
      end
  end.

(** Lines 680-685: the names [upgrade NAME...] selects. *)
Fixpoint outdated_named (module_names : list string) : cmd E (list string) :=
  match module_names with
  | [] => mret []
  | name :: rest =>
      w ← get_world;
      match get_or_none (inv w) name with
      | None => _ ← print (NotInstalled name); outdated_named rest
      | Some installed_mod =>
          match latest_cached (cache w) name with
          | None => _ ← print (NotFoundInCache name); outdated_named rest
          | Some latest =>
              to_upgrade ← outdated_named rest;
              if String.ltb (InstalledModule.update_date installed_mod)
                            (CachedModule.update_date latest)
              then mret (name :: to_upgrade)
              else mret to_upgrade
          end
      end
  end.

(** The loop of lines 689-694. *)
Fixpoint upgrade_loop (to_upgrade : list string) : cmd E unit :=
  match to_upgrade with
  | [] => mret tt
  | module_name :: rest =>
      _ ← print (Upgrading module_name);
      removed ← remove_module module_name true;
      _ ← (if removed : bool then _ ← install_single_module module_name None; mret tt
           else print (FailedToRemoveOld module_name));
      upgrade_loop rest
  end.

(** Lines 687-694. *)
Definition upgrade_selected (to_upgrade : list string) : cmd E unit :=
  match to_upgrade with
  | [] => print AllUpToDate
  | _ => _ ← print (FoundToUpgrade (length to_upgrade)); upgrade_loop to_upgrade
  end.

(** Lines 664-694, below the decorator. *)
Definition upgrade_body (names : list string) (all : bool) : cmd E unit :=
  w ← get_world;
  if (match names with [] => true | _ => false end) && negb all then print SpecifyNamesOrAll
  else if is_cache_empty w then print CacheEmpty
  else if all then
    match modules (inv w) with
    | [] => print NoModulesInstalled
    | installed_modules => upgrade_selected (outdated_all (cache w) installed_modules)
    end
  else
    to_upgrade ← outdated_named (process_module_names names);
    upgrade_selected to_upgrade.

(** The command [upgrade]. *)
Definition upgrade (names : list string) (all : bool) : cmd E unit :=
  use_installed_db (upgrade_body names all).

End Commands.

(** ** Listing the upgradable modules *)

(** The class [UpgradableMod] of line 402 and its constructor. *)
Record UpgradableMod : Type := {
  up_name : string;
  up_update_date : string;
  up_latest_date : string;
  up_description : string
}.

Definition UpgradableMod_init (i : InstalledModule.t) (c : CachedModule.t) : UpgradableMod :=
  {| up_name := InstalledModule.name i;
     up_update_date := InstalledModule.update_date i;
     up_latest_date := CachedModule.update_date c;
     up_description := InstalledModule.description i |}.

(** Line 389: the language filter lets a module through. *)
Definition language_passes (language : option string) (inst : InstalledModule.t) : bool :=
  negb (truthy_str language && truthy_str (InstalledModule.language inst)
        && negb (Py.contains (Py.lower (default EmptyString language))
                             (Py.lower (default EmptyString (InstalledModule.language inst))))).

(** Line 399: the type filter lets a module through. *)
Definition type_passes (module_type : option string) (latest_cached : CachedModule.t) : bool :=
  negb (truthy_str module_type
        && negb (String.eqb (Py.lower (CachedModule.module_type latest_cached))
                            (Py.lower (default EmptyString module_type)))).

(** The loop of lines 387-404 of [list_modules]. *)
Fixpoint upgradable_modules (cache : list CachedModule.t) (language module_type : option string)
    (installed_modules : list InstalledModule.t) : list UpgradableMod :=
  match installed_modules with
  | [] => []
  | inst :: rest =>
      if negb (language_passes language inst)
      then upgradable_modules cache language module_type rest
      else
        match latest_cached cache (InstalledModule.name inst) with
        | None => upgradable_modules cache language module_type rest
        | Some latest_cached =>
            if String.leb (CachedModule.update_date latest_cached)
                          (InstalledModule.update_date inst)
            then upgradable_modules cache language module_type rest
            else if negb (type_passes module_type latest_cached)
            then upgradable_modules cache language module_type rest
            else UpgradableMod_init inst latest_cached
                 :: upgradable_modules cache language module_type rest
        end
  end.

(** Lines 380-404: what [list --upgradable] hands to the renderer; nothing
    when no module is installed or the cache is empty. *)
Definition list_upgradable {E} (language module_type : option string) (w : world E)
  : list UpgradableMod :=
  match modules (inv w) with
  | [] => []
  | installed_modules =>
      if is_cache_empty w then []
      else upgradable_modules (cache w) language module_type installed_modules
  end.

(** ** A small outside world, to run the commands on *)

(** Regular files and directories by path, the paths whose removal the
    operating system refuses, the paths that [stat] may not look at (a
    directory above them cannot be searched), the archives that servers hold
    by URL and those already on disk by path, the file names the database
    engine refuses to store, and the time. *)
Record sim : Type := {
  sim_files : list string;
  sim_dirs : list string;
  sim_locked : list string;
  sim_denied : list string;
  sim_remote : list (string * list ZipInfo);
  sim_archives : list (string * list ZipInfo);
  sim_refused : list string;
  sim_clock : string
}.

Definition mem (x : string) (l : list string) : bool := existsb (String.eqb x) l.

Fixpoint assoc {A} (k : string) (l : list (string * A)) : option A :=
  match l with
  | [] => None
  | (k', v) :: l' => if String.eqb k k' then Some v else assoc k l'
  end.

Definition sim_with_files (fs ds : list string) (e : sim) : sim :=
  {| sim_files := fs; sim_dirs := ds; sim_locked := sim_locked e; sim_denied := sim_denied e;
     sim_remote := sim_remote e; sim_archives := sim_archives e;
     sim_refused := sim_refused e; sim_clock := sim_clock e |}.

Definition sim_with_archive (zip_path : string) (members : list ZipInfo) (e : sim) : sim :=
  {| sim_files := sim_files e; sim_dirs := sim_dirs e; sim_locked := sim_locked e; sim_denied := sim_denied e;
     sim_remote := sim_remote e; sim_archives := (zip_path, members) :: sim_archives e;
     sim_refused := sim_refused e; sim_clock := sim_clock e |}.

Definition sim_join (a b : string) : string := a +:+ "/" +:+ b.

Definition sim_remove (p : string) (e : sim) : bool * sim :=
  if mem p (sim_locked e) then (false, e)
  else (true, sim_with_files
                (filter (fun q => q ≠ p ∧ Py.startswith q (p +:+ "/") = false) (sim_files e))
                (filter (fun q => q ≠ p ∧ Py.startswith q (p +:+ "/") = false) (sim_dirs e)) e).

#[global] Instance sim_env : Env sim := {|
  download_cache_dir := "/cfg/.cache/downloads";
  path_join := sim_join;
  path_exists p e :=
    if mem p (sim_denied e) then Raise OSError
    else Ok (mem p (sim_files e) || mem p (sim_dirs e)
             || bool_decide (is_Some (assoc p (sim_archives e))));
  path_is_file p e := mem p (sim_files e) || bool_decide (is_Some (assoc p (sim_archives e)));
  path_is_dir p e := mem p (sim_dirs e);
  path_unlink := sim_remove;
  rmtree := sim_remove;
  path_rename a b e :=
    (Ok tt, sim_with_files (map (fun q => if String.eqb q a then b else q) (sim_files e))
                           (sim_dirs e) e);
  fetch_to url zip_path e :=
    match assoc url (sim_remote e) with
    | Some members => (Ok tt, sim_with_archive zip_path members e)
    | None => (Raise RequestException, e)
    end;
  zip_infolist zip_path e :=
    match assoc zip_path (sim_archives e) with
    | Some members => Ok members
    | None => Raise OSError
    end;
  zip_extract zip_path member module_path e :=
    (Ok tt, sim_with_files
              (sim_join (default "." module_path) (filename member) :: sim_files e)
              (sim_dirs e) e);
  now e := sim_clock e;
  insert_file_fails e row := mem (InstalledFile.file_name row) (sim_refused e)
|}.

(** ** Vocabulary of the statements *)

(** [c] is a latest version of [name] in the cache: a row whose name matches
    and whose [update_date] no matching row exceeds. *)
Definition is_latest (cache : list CachedModule.t) (name : string) (c : CachedModule.t) : Prop :=
  c ∈ cache
  ∧ ilike (CachedModule.name c) name = true
  ∧ ∀ c', c' ∈ cache → ilike (CachedModule.name c') name = true →
          String.leb (CachedModule.update_date c') (CachedModule.update_date c) = true.

(** The installed module has a strictly later version in the cache. *)
Definition upgradable (cache : list CachedModule.t) (inst : InstalledModule.t) : Prop :=
  ∃ c, is_latest cache (InstalledModule.name inst) c
       ∧ String.ltb (InstalledModule.update_date inst) (CachedModule.update_date c) = true.

(** A name in which [LIKE] finds no wildcard. *)
Fixpoint plain (s : string) : bool :=
  match s with
  | EmptyString => true
  | String c s' => negb (Ascii.eqb c "%") && negb (Ascii.eqb c "_") && plain s'
  end.

(** Two names are the same up to the case of ASCII letters. *)
Definition same_name (a b : string) : Prop := Py.lower a = Py.lower b.

(** Upgradable in the words of section 4.5, with names compared as such: a
    cached row of the module's own name, up to case, has the greatest
    [update_date] among the rows of that name and is strictly later than the
    installed version. *)
Definition upgradable_by_name (cache : list CachedModule.t) (inst : InstalledModule.t)
  : Prop :=
  ∃ c, c ∈ cache
       ∧ same_name (CachedModule.name c) (InstalledModule.name inst)
       ∧ (∀ c', c' ∈ cache →
                same_name (CachedModule.name c') (InstalledModule.name inst) →
                String.leb (CachedModule.update_date c') (CachedModule.update_date c) = true)
       ∧ String.ltb (InstalledModule.update_date inst) (CachedModule.update_date c) = true.

(** The primary key of a cache row, and invariant I3: no two rows of the
    cache have the same key. *)
Definition key (r : CachedModule.t) : string * string * string :=
  (CachedModule.name r, CachedModule.update_date r, CachedModule.download_url r).

Definition unique_keys (db : list CachedModule.t) : Prop := NoDup (key <$> db).

(** The number of rows stored under the key of [r]. *)
Definition rows_with_key (r : CachedModule.t) (db : list CachedModule.t) : nat :=
  length (filter (fun x => key x = key r) db).

(** ** Sample data *)

Definition cached (name update_date download_url module_type : string) : CachedModule.t :=
  {| CachedModule.name := name; CachedModule.language := Some "en";
     CachedModule.description := "King James Version";
     CachedModule.update_date := update_date; CachedModule.download_url := download_url;
     CachedModule.file_name := name; CachedModule.module_type := module_type;
     CachedModule.size := None; CachedModule.source_registry := "http://x/registry.zip" |}.

Definition installed_row (id : nat) (name update_date : string) : InstalledModule.t :=
  {| InstalledModule.id := id; InstalledModule.name := name;
     InstalledModule.language := Some "en";
     InstalledModule.description := "King James Version";
     InstalledModule.update_date := update_date; InstalledModule.install_date := "t0" |}.

Definition file_row (id module : nat) (file_name file_path : string) : InstalledFile.t :=
  {| InstalledFile.id := id; InstalledFile.module := module;
     InstalledFile.file_name := file_name; InstalledFile.file_path := file_path |}.

(** The three versions of property P2. *)
Definition three_versions : list CachedModule.t :=
  [cached "KJV" "2020-01-01" "http://x/KJV-2020.zip" "bible";
   cached "KJV" "2021-06-15" "http://x/KJV-2021.zip" "bible";
   cached "KJV" "2019-12-31" "http://x/KJV-2019.zip" "bible"].

Definition member (filename : string) : ZipInfo := {| filename := filename; is_dir := false |}.

Definition sample_env : sim :=
  {| sim_files := ["/m/KJV.SQLite3"; "/m/KJV.commentaries.SQLite3"];
     sim_dirs := ["/m"];
     sim_locked := []; sim_denied := [];
     sim_remote := [("http://x/KJV-2021.zip",
                     [member "kjv.sqlite3"; member "kjv.commentaries.sqlite3"])];
     sim_archives := [];
     sim_refused := [];
     sim_clock := "t1" |}.

(** KJV of 2020 is installed with two files; the cache knows three versions. *)
Definition sample_world : world sim :=
  {| env := sample_env;
     cache := three_versions;
     inv := {| modules := [installed_row 1 "KJV" "2020-01-01"];
               files := [file_row 1 1 "KJV.SQLite3" "/m/KJV.SQLite3";
                         file_row 2 1 "KJV.commentaries.SQLite3"
                                  "/m/KJV.commentaries.SQLite3"] |};
     module_path := Some "/m";
     console := [] |}.

(** *** Catalogs *)

(** The text after the last [c] of [s], when [c] occurs in [s]. *)
Fixpoint after_last (c : ascii) (s : string) : option string :=
  match s with
  | EmptyString => None
  | String a s' =>
      match after_last c s' with
      | Some r => Some r
      | None => if Ascii.eqb a c then Some s' else None
      end
  end.

(** The module type as section 4.1 words it: the final path segment of the
    URL is percent-decoded and loses a trailing ".zip"; the type is what
    follows its last dot, and "bible" when it has no dot. *)
Definition spec_module_type (download_url : string) : string :=
  let segment := default download_url (after_last "/" download_url) in
  let stem := Py.removesuffix (Py.unquote segment) ".zip" in
  default "bible" (after_last "." stem).

(** A record whose type is the one its download URL gives. *)
Definition typed_from_url (r : module_record) : Prop :=
  ModuleRecord.module_type r = module_type_from_url (ModuleRecord.download_url r).

Definition is_JStr (v : json) : bool :=
  match v with
  | JStr _ => true
  | _ => false
  end.

(** The value of a field of an entry, [JNull] when the field is absent. *)
Definition field (k : string) (entry : json) : json :=
  match entry with
  | JDict d => default JNull (dict_lookup k d)
  | _ => JNull
  end.

(** A flat-JSON entry that misses none of the four required fields. *)
Definition extra_complete (entry : json) : bool :=
  match entry with
  | JDict d => forallb (fun k => bool_decide (is_Some (dict_lookup k d))) extra_required
  | _ => false
  end.

(** A flat-JSON entry is an object, and its file name and download URL are
    strings when it has them. *)
Definition extra_well_typed (entry : json) : bool :=
  match entry with
  | JDict d =>
      match dict_lookup "file_name" d with Some v => is_JStr v | None => true end
      && match dict_lookup "download_url" d with Some v => is_JStr v | None => true end
  | _ => false
  end.

(** An archive-style entry with an abbreviation, a URL list, a description
    and an update date, none of them empty. *)
Definition zipped_complete (entry : json) : bool :=
  truthy (field "abr" entry) && truthy (field "url" entry)
  && truthy (field "des" entry) && truthy (field "upd" entry).

(** An archive-style entry is an object, and its URLs, when it has any, are
    a list of strings. *)
Definition zipped_well_typed (entry : json) : bool :=
  match entry with
  | JDict _ =>
      match field "url" entry with
      | JList ts => forallb is_JStr ts
      | v => negb (truthy v)
      end
  | _ => false
  end.

Definition templates_of (entry : json) : list json :=
  match field "url" entry with
  | JList ts => ts
  | _ => []
  end.

(** A host is an object with a string alias and a string path. *)
Definition host_well_typed (h : json) : bool :=
  match h with
  | JDict d =>
      match dict_lookup "alias" d, dict_lookup "path" d with
      | Some (JStr _), Some (JStr _) => true
      | _, _ => false
      end
  | _ => false
  end.

(** A URL template has the form [{alias}rest] somewhere in it, with an alias
    that the catalog's hosts define. *)
Definition resolvable (hosts : gmap string json) (t : json) : bool :=
  match t with
  | JStr t =>
      negb (Py.find t "{" =? -1)%Z && negb (Py.find t "}" =? -1)%Z
      && bool_decide (is_Some (hosts !! Py.slice t (Py.find t "{" + 1)%Z (Py.find t "}")))
  | _ => false
  end.

(** The catalog of the scenario of section 8. *)
Definition scenario_catalog : json :=
  JDict [("hosts", JList [JDict [("alias", JStr "h1"); ("path", JStr "http://x/%s")]]);
         ("downloads",
          JList [JDict [("abr", JStr "kjv"); ("url", JList [JStr "{h1}kjv.bible.zip"]);
                        ("des", JStr "King James"); ("upd", JStr "2020-01-01")]])].

(** One entry that names two mirrors. *)
Definition two_mirrors_entry : json :=
  JDict [("abr", JStr "kjv"); ("url", JList [JStr "{h1}kjv.zip"; JStr "{h2}kjv.zip"]);
         ("des", JStr "King James"); ("upd", JStr "2020-01-01")].

Definition two_mirrors_catalog : json :=
  JDict [("hosts", JList [JDict [("alias", JStr "h1"); ("path", JStr "http://x/%s")];
                          JDict [("alias", JStr "h2"); ("path", JStr "http://y/%s")]]);
         ("downloads", JList [two_mirrors_entry])].

(** A flat catalog whose second entry has every required key and a null file
    name. *)
Definition null_file_name_catalog : json :=
  JDict [("modules",
          JList [JDict [("download_url", JStr "http://x/kjv.zip"); ("file_name", JStr "kjv");
                        ("description", JStr "King James"); ("update_date", JStr "2020-01-01")];
                 JDict [("download_url", JStr "http://x/web.zip"); ("file_name", JNull);
                        ("description", JStr "World English"); ("update_date", JStr "2020-01-01")]])].

(** Ten flat entries, the third, sixth and ninth without an update date. *)
Definition flat_entry (n : string) (complete : bool) : json :=
  JDict ([("download_url", JStr ("http://x/" +:+ n +:+ ".zip")); ("file_name", JStr n);
          ("description", JStr n)]
         ++ if complete then [("update_date", JStr "2020-01-01")] else []).

Definition ten_entries : list json :=
  [flat_entry "a" true; flat_entry "b" true; flat_entry "c" false; flat_entry "d" true;
   flat_entry "e" true; flat_entry "f" false; flat_entry "g" true; flat_entry "h" true;
   flat_entry "i" false; flat_entry "j" true].

(** What fault tolerance would be if it held of every payload: the parse
    succeeds and yields as many records as there are entries that miss no
    required field. *)
Definition one_record_per_complete_entry
    (parse : json -> string -> result (list module_record))
    (entries_key : string) (complete : json -> bool) : Prop :=
  ∀ d entries registry_url,
    dict_lookup entries_key d = Some (JList entries) →
    ∃ rs, parse (JDict d) registry_url = Ok rs
          ∧ length rs = length (filter (λ e, complete e = true) entries).

(** *** Commands *)

(** Both stores and the configured path are as before. *)
Definition same_stores {E} (w w' : world E) : Prop :=
  cache w' = cache w ∧ inv w' = inv w ∧ module_path w' = module_path w.

(** A command that touches neither store, however it ends. *)
Definition keeps_stores {E A} (c : cmd E A) : Prop :=
  ∀ w r w', c w = (r, w') → same_stores w w'.

(** Invariant I2: every file row belongs to a module row. *)
Definition no_orphans (i : inventory) : Prop :=
  ∀ f, f ∈ files i → ∃ m, m ∈ modules i ∧ InstalledModule.id m = InstalledFile.module f.

(** No row of either table belongs to the module [m]. *)
Definition absent (m : InstalledModule.t) (i : inventory) : Prop :=
  (∀ m', m' ∈ modules i → InstalledModule.id m' ≠ InstalledModule.id m)
  ∧ (∀ f, f ∈ files i → InstalledFile.module f ≠ InstalledModule.id m).

(** The file name and path of a file row, as [final_files_to_db] pairs them. *)
Definition file_item (f : InstalledFile.t) : string * string :=
  (InstalledFile.file_name f, InstalledFile.file_path f).

(** The module row that [install_single_module] writes for a cache row. *)
Definition row_of (mod_ : CachedModule.t) (m : InstalledModule.t) : Prop :=
  InstalledModule.name m = CachedModule.name mod_
  ∧ InstalledModule.language m = CachedModule.language mod_
  ∧ InstalledModule.description m = CachedModule.description mod_
  ∧ InstalledModule.update_date m = CachedModule.update_date mod_.

(** The inventory [i'] is [i] with the module row [m] and, for the items in
    their order, one file row each that belongs to [m]. *)
Definition installed_together (i i' : inventory) (m : InstalledModule.t)
    (items : list (string * string)) : Prop :=
  modules i' = modules i ++ [m]
  ∧ ∃ rows, files i' = files i ++ rows
            ∧ file_item <$> rows = items
            ∧ Forall (λ f, InstalledFile.module f = InstalledModule.id m) rows.

(** The sample world with a file that cannot be removed, with no file on
    disk, with only the second file on disk, and a world with nothing
    installed whose database refuses one file row. *)
Definition locked_world : world sim :=
  set_env {| sim_files := sim_files sample_env; sim_dirs := sim_dirs sample_env;
             sim_locked := ["/m/KJV.commentaries.SQLite3"]; sim_denied := [];
             sim_remote := sim_remote sample_env; sim_archives := [];
             sim_refused := []; sim_clock := "t1" |} sample_world.

Definition missing_world : world sim :=
  set_env {| sim_files := []; sim_dirs := sim_dirs sample_env;
             sim_locked := []; sim_denied := [];
             sim_remote := sim_remote sample_env; sim_archives := [];
             sim_refused := []; sim_clock := "t1" |} sample_world.

Definition half_missing_world : world sim :=
  set_env {| sim_files := ["/m/KJV.commentaries.SQLite3"]; sim_dirs := sim_dirs sample_env;
             sim_locked := []; sim_denied := [];
             sim_remote := sim_remote sample_env; sim_archives := [];
             sim_refused := []; sim_clock := "t1" |} sample_world.

Definition refusing_world : world sim :=
  {| env := {| sim_files := []; sim_dirs := ["/m"]; sim_locked := []; sim_denied := [];
               sim_remote := sim_remote sample_env; sim_archives := [];
               sim_refused := ["KJV.commentaries.SQLite3"]; sim_clock := "t0" |};
     cache := three_versions;
     inv := {| modules := []; files := [] |};
     module_path := Some "/m";
     console := [] |}.

(** * The rest of the program

    The commands and helpers that the sections above leave out, and the
    vocabulary of the statements about them. *)

(** ** Characters of a string *)

(** The character [c] occurs in [s]. *)
Fixpoint occurs (c : ascii) (s : string) : bool :=
  match s with
  | EmptyString => false
  | String a s' => Ascii.eqb a c || occurs c s'
  end.

Definition first_char (s : string) : option ascii :=
  match s with
  | EmptyString => None
  | String a _ => Some a
  end.

Fixpoint last_char (s : string) : option ascii :=
  match s with
  | EmptyString => None
  | String a s' => match last_char s' with
                   | None => Some a
                   | Some b => Some b
                   end
  end.

(** The two quote characters that [process_module_names] strips. *)
Definition quotes : list ascii := ["'"; "034"]%char.

(** ** [remove] and [uninstall] *)

Section MoreCommands.
Context {E : Type} `{Env E}.

(** The loops of lines 648-649 and 657-658: the result of [remove_module]
    is not looked at. *)
Fixpoint remove_loop (module_names : list string) : cmd E unit :=
  match module_names with
  | [] => mret tt
  | name :: rest =>
      _ ← remove_module name false;
      remove_loop rest
  end.

(** The commands [remove] (lines 645-649) and [uninstall] (lines 654-658). *)
Definition remove_command (names : list string) : cmd E unit :=
  use_installed_db (remove_loop (process_module_names names)).

Definition uninstall_command (names : list string) : cmd E unit :=
  use_installed_db (remove_loop (process_module_names names)).

End MoreCommands.

(** ** [versions] and [info] *)

(** [GROUP BY update_date ORDER BY update_date DESC] on the column alone:
    each value once, the greatest first. *)
Fixpoint insert_desc (d : string) (ds : list string) : list string :=
  match ds with
  | [] => [d]
  | x :: ds' =>
      if String.ltb x d then d :: ds
      else if String.eqb x d then ds
      else x :: insert_desc d ds'
  end.

Definition distinct_desc (ds : list string) : list string := foldr insert_desc [] ds.

(** Strictly descending: every entry is greater, as a string, than all that
    follow it. *)
Fixpoint descending (ds : list string) : Prop :=
  match ds with
  | [] => True
  | d :: ds' => (∀ x, x ∈ ds' → String.ltb x d = true) ∧ descending ds'
  end.

(** What [versions] shows. *)
Inductive versions_report : Type :=
| VersionsPathNotSet
| VersionsCacheEmpty
| VersionsNotFound (name : string)
| VersionsPanel (name : string) (lines : list (string * bool)).

(** The query of line 704.  Of the rows it returns, one for each
    [update_date], the command reads the [update_date] only. *)
Definition versions_query (cache : list CachedModule.t) (name : string) : list string :=
  distinct_desc
    (CachedModule.update_date
       <$> filter (λ c, ilike (CachedModule.name c) name = true) cache).

(** Lines 699-717 under the decorator: the versions, the latest first, each
    with whether it is the installed one. *)
Definition versions {E} (name : string) (w : world E) : versions_report :=
  if negb (truthy_str (module_path w)) then VersionsPathNotSet
  else if is_cache_empty w then VersionsCacheEmpty
  else
    match versions_query (cache w) name with
    | [] => VersionsNotFound name
    | mods =>
        let installed_version := InstalledModule.update_date <$> get_or_none (inv w) name in
        VersionsPanel name
          ((λ update_date, (update_date, bool_decide (installed_version = Some update_date)))
             <$> mods)
    end.

(** The last lines of the panel of [info]. *)
Inductive info_installed : Type :=
| InfoNotInstalled
| InfoUpToDate (installed_update_date : string) (installed_files : list string)
| InfoUpdateAvailable (installed_update_date latest_update_date : string)
                      (installed_files : list string).

(** What [info] shows. *)
Inductive info_report : Type :=
| InfoPathNotSet
| InfoCacheEmpty
| InfoNotFound (name : string)
| InfoPanel (latest : CachedModule.t) (installed : info_installed).

(** Lines 477-499 under the decorator: the fields of the latest cached row,
    and for an installed module its version, whether a later one is cached,
    and the names of its files. *)
Definition info {E} (name : string) (w : world E) : info_report :=
  if negb (truthy_str (module_path w)) then InfoPathNotSet
  else if is_cache_empty w then InfoCacheEmpty
  else
    match latest_cached (cache w) name with
    | None => InfoNotFound name
    | Some latest =>
        InfoPanel latest
          match get_or_none (inv w) name with
          | Some installed =>
              let installed_files := InstalledFile.file_name <$> files_of (inv w) installed in
              if String.leb (CachedModule.update_date latest)
                            (InstalledModule.update_date installed)
              then InfoUpToDate (InstalledModule.update_date installed) installed_files
              else InfoUpdateAvailable (InstalledModule.update_date installed)
                     (CachedModule.update_date latest) installed_files
          | None => InfoNotInstalled
          end
    end.

(** ** The constraints of the inventory *)

(** What the schema of [mybible_installed.db] demands: row ids are unique in
    both tables, module names are unique, and every file row refers to a
    module row. *)
Definition inventory_ok (i : inventory) : Prop :=
  NoDup (InstalledModule.id <$> modules i)
  ∧ NoDup (InstalledModule.name <$> modules i)
  ∧ NoDup (InstalledFile.id <$> files i)
  ∧ no_orphans i.

(** A command that keeps a property of the inventory, however it ends. *)
Definition preserves {E A} (P : inventory → Prop) (c : cmd E A) : Prop :=
  ∀ w r w', c w = (r, w') → P (inv w) → P (inv w').

(** Every row of [i'] is a row of [i]. *)
Definition only_removes (i i' : inventory) : Prop :=
  (∀ m, m ∈ modules i' → m ∈ modules i) ∧ (∀ f, f ∈ files i' → f ∈ files i).

(** ** Vocabulary for [upgrade] *)

(** The test of lines 681-685 on one name: a module that matches the name is
    installed, and the latest cached version for the name is later than
    it. *)
Definition outdated (cache : list CachedModule.t) (i : inventory) (name : string) : bool :=
  match get_or_none i name, latest_cached cache name with
  | Some installed_mod, Some latest =>
      String.ltb (InstalledModule.update_date installed_mod) (CachedModule.update_date latest)
  | _, _ => false
  end.

(** The messages of lines 682 and 684 for a name that is not selected. *)
Definition outdated_message (cache : list CachedModule.t) (i : inventory) (name : string)
  : list message :=
  match get_or_none i name, latest_cached cache name with
  | None, _ => [NotInstalled name]
  | Some _, None => [NotFoundInCache name]
  | Some _, Some _ => []
  end.

(** The sample world with no server to download from. *)
Definition offline_world : world sim :=
  set_env {| sim_files := sim_files sample_env; sim_dirs := sim_dirs sample_env;
             sim_locked := []; sim_denied := []; sim_remote := []; sim_archives := [];
             sim_refused := []; sim_clock := "t1" |} sample_world.

(** The sample world with the latest version installed. *)
Definition current_world : world sim :=
  set_inv {| modules := [installed_row 1 "KJV" "2021-06-15"];
             files := files (inv sample_world) |} sample_world.

(** The world after the messages have been printed, in their order. *)
Definition printed_all {E} (msgs : list message) (w : world E) : world E :=
  foldl (λ w msg, printed msg w) w msgs.

(** ** Vocabulary for the exceptions of the parsers *)

(** A computation that raises nothing but exceptions of the set [S]. *)
Definition raises_only {A} (S : exn → Prop) (m : result A) : Prop :=
  ∀ e, m = Raise e → S e.

(** ** The condition of [search] *)

(** The three truth values of SQL: [None] is NULL. *)
Definition sql3 : Type := option bool.

Definition and3 (a b : sql3) : sql3 :=
  match a, b with
  | Some false, _ | _, Some false => Some false
  | Some true, Some true => Some true
  | _, _ => None
  end.

Definition or3 (a b : sql3) : sql3 :=
  match a, b with
  | Some true, _ | _, Some true => Some true
  | Some false, Some false => Some false
  | _, _ => None
  end.

(** [field.ilike(pattern)] on a column that may hold NULL. *)
Definition ilike3 (field : option string) (pattern : string) : sql3 :=
  (λ f, ilike f pattern) <$> field.

(** The options of the command: [--query], [--name], [--desc], [--lang] and
    [--type]. *)
Record search_options : Type := {
  search_term : option string;
  search_name : option string;
  search_desc : option string;
  search_lang : option string;
  search_type : option string
}.

(** [f"%{term}%"] *)
Definition percent (term : option string) : string :=
  "%" +:+ default EmptyString term +:+ "%".

(** Lines 429-439: the list [conditions], evaluated on a row. *)
Definition search_conditions (o : search_options) (c : CachedModule.t) : list sql3 :=
  (if truthy_str (search_name o)
   then [ilike3 (Some (CachedModule.name c)) (percent (search_name o))] else [])
  ++ (if truthy_str (search_desc o)
      then [ilike3 (Some (CachedModule.description c)) (percent (search_desc o))] else [])
  ++ (if truthy_str (search_lang o)
      then [ilike3 (CachedModule.language c) (percent (search_lang o))] else [])
  ++ (if truthy_str (search_type o)
      then [ilike3 (Some (CachedModule.module_type c)) (percent (search_type o))] else []).

(** Lines 441-466: the value of [where_clause] on a row, or [None] when no
    term is given at all and the command prints a hint instead of
    searching. *)
Definition search_where (o : search_options) (c : CachedModule.t) : option sql3 :=
  match search_conditions o c with
  | cond :: conds =>
      let where_clause := fold_left and3 conds cond in
      if truthy_str (search_term o) then
        let term := percent (search_term o) in
        let general_clause :=
          or3 (ilike3 (Some (CachedModule.name c)) term)
              (ilike3 (Some (CachedModule.description c)) term) in
        Some (and3 where_clause general_clause)
      else Some where_clause
  | [] =>
      if truthy_str (search_term o) then
        let term := percent (search_term o) in
        Some (or3 (or3 (or3 (ilike3 (Some (CachedModule.name c)) term)
                            (ilike3 (Some (CachedModule.description c)) term))
                       (ilike3 (CachedModule.language c) term))
                  (ilike3 (Some (CachedModule.module_type c)) term))
      else None
  end.

(** The rows that [WHERE] keeps: those on which the clause is true. *)
Definition search_selects (o : search_options) (c : CachedModule.t) : bool :=
  match search_where o c with
  | Some (Some true) => true
  | _ => false
  end.

(** [LOWER(name)]: SQLite lowers the ASCII letters only. *)
Definition sql_lower (s : string) : string := Py.lower s.

(** Insertion in a list that is kept strictly ascending. *)
Fixpoint insert_asc (k : string) (ks : list string) : list string :=
  match ks with
  | [] => [k]
  | x :: ks' =>
      if String.ltb k x then k :: ks
      else if String.eqb x k then ks
      else x :: insert_asc k ks'
  end.

Definition distinct_asc (ks : list string) : list string := foldr insert_asc [] ks.

(** Strictly ascending: every entry is smaller, as a string, than all that
    follow it. *)
Fixpoint ascending (ks : list string) : Prop :=
  match ks with
  | [] => True
  | k :: ks' => (∀ x, x ∈ ks' → String.ltb k x = true) ∧ ascending ks'
  end.

(** [GROUP BY LOWER(name) ORDER BY LOWER(name)] of lines 468-471: the groups
    in the order of their lower-cased name, each with its rows.  The query
    returns one row for each group; which row of the group it is, SQLite
    leaves open, and so does this model. *)
Definition group_by_lower_name (rows : list CachedModule.t)
  : list (string * list CachedModule.t) :=
  (λ k, (k, filter (λ c, sql_lower (CachedModule.name c) = k) rows))
    <$> distinct_asc ((λ c, sql_lower (CachedModule.name c)) <$> rows).

(** The query of lines 468-471. *)
Definition search_query (o : search_options) (cache : list CachedModule.t)
  : list (string * list CachedModule.t) :=
  group_by_lower_name (filter (λ c, search_selects o c = true) cache).

(** Whether one of the field options is given (the list [conditions] is not
    empty). *)
Definition by_fields (o : search_options) : bool :=
  truthy_str (search_name o) || truthy_str (search_desc o)
  || truthy_str (search_lang o) || truthy_str (search_type o).

(** What [search] shows: a message, or a title (with the general term when
    there is no field option) and one entry for each group of the query. *)
Inductive search_report : Type :=
| SearchCacheEmpty
| SearchNoTerm
| SearchNoModules
| SearchResults (title : option string) (groups : list (string * list CachedModule.t)).

(** Lines 422-472, and lines 295-297 of [render_clean_list]. *)
Definition search {E} (o : search_options) (w : world E) : search_report :=
  if is_cache_empty w then SearchCacheEmpty
  else if by_fields o || truthy_str (search_term o) then
    match search_query o (cache w) with
    | [] => SearchNoModules
    | groups => SearchResults (if by_fields o then None else search_term o) groups
    end
  else SearchNoTerm.

(** The term occurs in the text, letter case apart. *)
Definition occurs_in (term : option string) (text : string) : bool :=
  Py.contains (Py.lower (default EmptyString term)) (Py.lower text).

(** The term occurs in one of the four fields that are searched for it. *)
Definition term_in_row (term : string) (c : CachedModule.t) : bool :=
  occurs_in (Some term) (CachedModule.name c)
  || occurs_in (Some term) (CachedModule.description c)
  || match CachedModule.language c with
     | Some language => occurs_in (Some term) language
     | None => false
     end
  || occurs_in (Some term) (CachedModule.module_type c).

(** A field option that is not given, or that the field matches. *)
Definition field_matches (opt field : option string) : bool :=
  negb (truthy_str opt)
  || match field with
     | Some f => ilike f (percent opt)
     | None => false
     end.

(** The row matches every field option that is given and, when a general
    term is given too, has it in its name or its description. *)
Definition options_match (o : search_options) (c : CachedModule.t) : bool :=
  field_matches (search_name o) (Some (CachedModule.name c))
  && field_matches (search_desc o) (Some (CachedModule.description c))
  && field_matches (search_lang o) (CachedModule.language c)
  && field_matches (search_type o) (Some (CachedModule.module_type c))
  && (negb (truthy_str (search_term o))
      || ilike (CachedModule.name c) (percent (search_term o))
      || ilike (CachedModule.description c) (percent (search_term o))).

(** [groups] lists by name the rows of [cache] that satisfy [p]: the
    lower-cased names of these rows, each once and in ascending order, and
    with each name the rows of that name that satisfy [p], in the order of
    the table. *)
Definition lists_by_name (p : CachedModule.t → bool) (cache : list CachedModule.t)
    (groups : list (string * list CachedModule.t)) : Prop :=
  ascending groups.*1
  ∧ (∀ k, k ∈ groups.*1 ↔
          ∃ c, c ∈ cache ∧ p c = true ∧ sql_lower (CachedModule.name c) = k)
  ∧ (∀ k rows, (k, rows) ∈ groups →
          rows = filter (λ c, sql_lower (CachedModule.name c) = k ∧ p c = true) cache).

(** A search for one general term. *)
Definition by_term (term : string) : search_options :=
  {| search_term := Some term; search_name := None; search_desc := None;
     search_lang := None; search_type := None |}.

(** Two versions of one module and a module of another name. *)
Definition two_modules : list CachedModule.t :=
  [cached "KJV" "2020-01-01" "http://x/KJV-2020.zip" "bible";
   cached "ASV" "2015-03-01" "http://x/ASV.zip" "bible";
   cached "kjv" "2021-06-15" "http://x/KJV-2021.zip" "bible"].

Definition search_world : world sim :=
  {| env := sample_env; cache := two_modules; inv := inv sample_world;
     module_path := Some "/m"; console := [] |}.

(** ** [update_cache] *)

(** The exceptions that can come up while the cache is updated: those of
    the parsers and, from the libraries, [json.JSONDecodeError],
    [StopIteration] and exceptions of any other class. *)
Inductive uexn : Type :=
| Exn (e : exn)
| JSONDecodeError
| StopIteration
| OtherError (class_name : string).

Inductive outcome (A : Type) : Type :=
| Done (a : A)
| Failed (e : uexn).
Arguments Done {A} a.
Arguments Failed {A} e.

Definition lift {A} (r : result A) : outcome A :=
  match r with
  | Ok a => Done a
  | Raise e => Failed (Exn e)
  end.

(** The classes of the [except] clause of line 271.  [Exn OSError] stands
    for the instances of [OSError] that are no [RequestException]. *)
Definition caught (e : uexn) : bool :=
  match e with
  | Exn RequestException | JSONDecodeError | Exn BadZipFile
  | Exn KeyError | Exn AttributeError | StopIteration => true
  | _ => false
  end.

(** What the update reads of a response. *)
Record response : Type := {
  status_code : Z;
  content : string;
  etag_header : option string
}.

(** What [update_cache] asks of the network and of the libraries.  [N] is
    the state of the servers and of the session. *)
Class Web (N : Type) : Type := {
  (** [session.get(url, timeout=20, headers=headers)]; the second argument
      is the value of the header [If-None-Match], if it is sent *)
  session_get : string -> option json -> N -> outcome response * N;
  (** [zipfile.ZipFile(io.BytesIO(content))]: its [namelist()] and its
      [read], or the exception of the constructor *)
  zip_open : string -> outcome (list string * (string -> outcome string));
  (** [json.loads(content)] *)
  json_loads : string -> outcome json;
  (** [str(v)], which the store applies to a value of a text column that is
      neither a string nor [None] *)
  py_str : json -> string;
  (** [Path(name).suffix] *)
  path_suffix : string -> string
}.

(** What the update prints and logs. *)
Inductive update_message : Type :=
| FailedToProcess (url : string) (e : uexn)
| CacheUpdateComplete.

(** The state of an update: the servers, the directory [REGISTRY_CACHE_DIR]
    (file name to bytes), the document in [etags.json] ([None] when the file
    is missing or is no JSON), the table [CachedModule], the variable
    [etag_cache], and what was printed. *)
Record update_state (N : Type) : Type := {
  web : N;
  registry_cache : gmap string string;
  etag_file : option json;
  cached_modules : list CachedModule.t;
  etag_cache : json;
  update_log : list update_message
}.
Arguments web {N}.
Arguments registry_cache {N}.
Arguments etag_file {N}.
Arguments cached_modules {N}.
Arguments etag_cache {N}.
Arguments update_log {N}.

(** A step of the update: it may change the state and may raise; what it
    did before raising stays done. *)
Definition ucmd (N A : Type) : Type := update_state N -> outcome A * update_state N.

#[global] Instance ucmd_ret {N} : MRet (ucmd N) := fun A a s => (Done a, s).
#[global] Instance ucmd_bind {N} : MBind (ucmd N) := fun A B f m s =>
  match m s with
  | (Done a, s') => f a s'
  | (Failed e, s') => (Failed e, s')
  end.

Definition pure {N A} (r : outcome A) : ucmd N A := fun s => (r, s).
Definition get_state {N} : ucmd N (update_state N) := fun s => (Done s, s).

Definition set_web {N} (n : N) (s : update_state N) : update_state N :=
  {| web := n; registry_cache := registry_cache s; etag_file := etag_file s;
     cached_modules := cached_modules s; etag_cache := etag_cache s;
     update_log := update_log s |}.
Definition set_registry_cache {N} (m : gmap string string) (s : update_state N)
  : update_state N :=
  {| web := web s; registry_cache := m; etag_file := etag_file s;
     cached_modules := cached_modules s; etag_cache := etag_cache s;
     update_log := update_log s |}.
Definition set_etag_file {N} (f : option json) (s : update_state N) : update_state N :=
  {| web := web s; registry_cache := registry_cache s; etag_file := f;
     cached_modules := cached_modules s; etag_cache := etag_cache s;
     update_log := update_log s |}.
Definition set_cached_modules {N} (db : list CachedModule.t) (s : update_state N)
  : update_state N :=
  {| web := web s; registry_cache := registry_cache s; etag_file := etag_file s;
     cached_modules := db; etag_cache := etag_cache s; update_log := update_log s |}.
Definition set_etag_cache {N} (v : json) (s : update_state N) : update_state N :=
  {| web := web s; registry_cache := registry_cache s; etag_file := etag_file s;
     cached_modules := cached_modules s; etag_cache := v; update_log := update_log s |}.
Definition logged {N} (msg : update_message) (s : update_state N) : update_state N :=
  {| web := web s; registry_cache := registry_cache s; etag_file := etag_file s;
     cached_modules := cached_modules s; etag_cache := etag_cache s;
     update_log := update_log s ++ [msg] |}.

Definition modify {N} (f : update_state N -> update_state N) : ucmd N unit :=
  fun s => (Done tt, f s).

(** [try: body except (...) as e: handler(e)] with the classes of line
    271. *)
Definition try_except {N} (body : ucmd N unit) (handler : uexn -> ucmd N unit)
  : ucmd N unit := fun s =>
  match body s with
  | (Failed e, s') => if caught e then handler e s' else (Failed e, s')
  | done => done
  end.

(** [d[k] = x] on a dict kept in insertion order, and on any value. *)
Fixpoint json_dict_set (k : string) (x : json) (d : list (string * json))
  : list (string * json) :=
  match d with
  | [] => [(k, x)]
  | (k', x') :: d' =>
      if String.eqb k k' then (k, x) :: d' else (k', x') :: json_dict_set k x d'
  end.

Definition py_setitem (v : json) (k : string) (x : json) : result json :=
  match v with
  | JDict d => Ok (JDict (json_dict_set k x d))
  | _ => Raise TypeError
  end.

(** Lines 144-151: [get_etag_cache()] and [save_etag_cache(etag_cache)]. *)
Definition get_etag_cache {N} (s : update_state N) : json :=
  default (JDict []) (etag_file s).

Definition save_etag_cache {N} (etag_cache : json) : ucmd N unit :=
  modify (set_etag_file (Some etag_cache)).

Section UpdateCache.
Context {N : Type} `{Web N}.

(** The value that a text column stores for a field of a record: [None]
    is NULL. *)
Definition text_value (v : json) : option string :=
  match v with
  | JNull => None
  | JStr s => Some s
  | _ => Some (py_str v)
  end.

(** The row that line 269 writes for a record, unless one of the columns
    that are declared without [null=True] would hold NULL: that row violates
    a constraint and the statement passes over it. *)
Definition to_row (r : module_record) : option CachedModule.t :=
  name ← text_value (ModuleRecord.name r);
  description ← text_value (ModuleRecord.description r);
  update_date ← text_value (ModuleRecord.update_date r);
  file_name ← text_value (ModuleRecord.file_name r);
  Some {| CachedModule.name := name;
          CachedModule.language := text_value (ModuleRecord.language r);
          CachedModule.description := description;
          CachedModule.update_date := update_date;
          CachedModule.download_url := ModuleRecord.download_url r;
          CachedModule.file_name := file_name;
          CachedModule.module_type := ModuleRecord.module_type r;
          CachedModule.size := text_value (ModuleRecord.size r);
          CachedModule.source_registry := ModuleRecord.source_registry r |}.

(** Lines 268-269. *)
Definition add_modules (modules_to_add : list module_record) : ucmd N unit :=
  match modules_to_add with
  | [] => mret tt
  | _ =>
      modify (λ s, set_cached_modules
                     (insert_many_on_conflict_ignore (omap to_row modules_to_add)
                        (cached_modules s)) s)
  end.

(** Lines 250-252: the value of the header [If-None-Match], when it is
    sent. *)
Definition if_none_match (url name : string) : ucmd N (option json) :=
  s ← get_state;
  known ← pure (lift (py_in url (etag_cache s)));
  if (known : bool) && bool_decide (is_Some (registry_cache s !! name))
  then
    etag ← pure (lift (py_getitem (etag_cache s) url));
    mret (Some etag)
  else mret None.

(** [response.raise_for_status()] *)
Definition raise_for_status (r : response) : outcome unit :=
  if ((400 <=? status_code r) && (status_code r <? 600))%Z
  then Failed (Exn RequestException) else Done tt.

(** Lines 255-263: the bytes of the registry, from the server or, when it
    answers 304, from the registry cache. *)
Definition fetch_content (url name : string) (header : option json) : ucmd N string :=
  response ← (λ s, let '(r, n) := session_get url header (web s) in (r, set_web n s));
  if (status_code response =? 304)%Z then
    s ← get_state;
    match registry_cache s !! name with
    | Some bytes => mret bytes
    | None => pure (Failed (Exn OSError))
    end
  else
    _ ← pure (raise_for_status response);
    _ ← modify (λ s, set_registry_cache (<[name := content response]> (registry_cache s)) s);
    _ ← match etag_header response with
        | Some etag =>
            s ← get_state;
            etag_cache ← pure (lift (py_setitem (etag_cache s) url (JStr etag)));
            modify (set_etag_cache etag_cache)
        | None => mret tt
        end;
    mret (content response).

(** Line 265 for a source with the suffix [.registry]: the first member of
    the archive whose name ends in [.json], decoded. *)
Definition registry_json (content : string) : outcome json :=
  match zip_open content with
  | Failed e => Failed e
  | Done (namelist, read) =>
      match List.find (λ n, Py.endswith n ".json") namelist with
      | None => Failed StopIteration
      | Some n =>
          match read n with
          | Failed e => Failed e
          | Done bytes => json_loads bytes
          end
      end
  end.

(** Lines 255-269: the body of the [try]. *)
Definition source_body (url name : string) (header : option json) : ucmd N unit :=
  content ← fetch_content url name header;
  data ← pure (if String.eqb (path_suffix name) ".registry"
               then registry_json content else json_loads content);
  modules_to_add ← pure (lift (if String.eqb (path_suffix name) ".registry"
                               then parse_zipped_registry data url
                               else parse_extra_registry data url));
  add_modules modules_to_add.

(** Lines 246-272: one round of the loop, for the source file of the given
    name and text. *)
Definition process_source (source_file : string * string) : ucmd N unit :=
  let url := Py.strip source_file.2 in
  header ← if_none_match url source_file.1;
  try_except (source_body url source_file.1 header)
             (λ e, modify (logged (FailedToProcess url e))).

Fixpoint update_loop (source_files : list (string * string)) : ucmd N unit :=
  match source_files with
  | [] => mret tt
  | source_file :: rest =>
      _ ← process_source source_file;
      update_loop rest
  end.

(** Line 242: the files of [SOURCES_DIR] that the two patterns select, from
    the names and texts of its files in the order in which the directory
    lists them. *)
Definition source_files (sources_dir : list (string * string)) : list (string * string) :=
  List.filter (λ f, Py.endswith f.1 ".registry") sources_dir
  ++ List.filter (λ f, Py.endswith f.1 ".extra") sources_dir.

(** Lines 238-275, after [ensure_dirs] and [ensure_cache_db] have made sure
    that the directories and the table exist. *)
Definition update_cache (sources_dir : list (string * string)) : ucmd N unit :=
  s ← get_state;
  _ ← modify (set_etag_cache (get_etag_cache s));
  _ ← modify (set_cached_modules []);
  _ ← update_loop (source_files sources_dir);
  s ← get_state;
  _ ← save_etag_cache (etag_cache s);
  modify (logged CacheUpdateComplete).

End UpdateCache.

(** *** Vocabulary and a small network *)

(** A step of the update that keeps a property of the state, however it
    ends. *)
Definition upreserves {N A} (P : update_state N → Prop) (c : ucmd N A) : Prop :=
  ∀ s r s', c s = (r, s') → P s → P s'.


(** [Path(name).suffix] as CPython computes it up to version 3.12: the text
    from the last dot on, when that dot is neither the first nor the last
    character. *)
Definition sim_suffix (name : string) : string :=
  match after_last "." name with
  | Some r =>
      if (0 <? String.length r) && (String.length r <? String.length name - 1)
      then "." +:+ r else EmptyString
  | None => EmptyString
  end.

(** The documents and archives that the sample servers hold, by their
    bytes. *)
Definition sample_documents : list (string * json) :=
  [("<registry>", scenario_catalog);
   ("<flat>", JDict [("modules", JList [flat_entry "a" true; flat_entry "b" false])]);
   ("<numbers>", JDict [("modules", JList [JNum 5])])].

Definition sample_archives : list (string * list (string * string)) :=
  [("<zip>", [("readme.txt", "read me"); ("registry.json", "<registry>")]);
   ("<zip without json>", [("readme.txt", "read me")])].

(** Servers by URL: what each answers to a request without and with the
    header [If-None-Match]. *)
Definition sim_web : Type := list (string * (response * response)).

#[global] Instance sim_web_env : Web sim_web := {|
  session_get url header n :=
    match assoc url n with
    | Some (plain_answer, conditional_answer) =>
        (Done (match header with None => plain_answer | Some _ => conditional_answer end), n)
    | None => (Failed (Exn RequestException), n)
    end;
  zip_open content :=
    match assoc content sample_archives with
    | Some members =>
        Done (members.*1,
              λ n, match assoc n members with
                   | Some bytes => Done bytes
                   | None => Failed (Exn KeyError)
                   end)
    | None => Failed (Exn BadZipFile)
    end;
  json_loads content :=
    match assoc content sample_documents with
    | Some v => Done v
    | None => Failed JSONDecodeError
    end;
  py_str v := match v with JBool true => "True" | JBool false => "False" | _ => "?" end;
  path_suffix := sim_suffix
|}.

Definition answer (status_code : Z) (content : string) (etag_header : option string)
  : response :=
  {| status_code := status_code; content := content; etag_header := etag_header |}.

(** Three sources: an archive-style registry that answers 304 to a
    conditional request, a server that is down, and a flat catalog. *)
Definition sample_sources : list (string * string) :=
  [("down.registry", "http://down/registry.zip ");
   ("flat.extra", "http://x/flat.json");
   ("notes.txt", "not a source");
   ("x.registry", " http://x/registry.zip")].

Definition sample_servers : sim_web :=
  [("http://x/registry.zip", (answer 200 "<zip>" (Some "v1"), answer 304 "" None));
   ("http://x/flat.json", (answer 200 "<flat>" None, answer 200 "<flat>" None));
   ("http://x/numbers.json", (answer 200 "<numbers>" None, answer 200 "<numbers>" None))].

(** A first update, with an old row in the cache and nothing else on
    disk. *)
Definition first_update : update_state sim_web :=
  {| web := sample_servers; registry_cache := ∅; etag_file := None;
     cached_modules := [cached "OLD" "2001-01-01" "http://old/OLD.zip" "bible"];
     etag_cache := JNull; update_log := [] |}.

(** A step that leaves alone the table, the file [etags.json] and what was
    printed. *)
Definition quiet_step {N A} (c : ucmd N A) : Prop :=
  ∀ s r s', c s = (r, s') →
            cached_modules s' = cached_modules s
            ∧ etag_file s' = etag_file s
            ∧ update_log s' = update_log s.

(** The state that the first update leaves, for a second one; and the first
    update once the table is emptied and the ETags are loaded. *)
Definition second_update : update_state sim_web :=
  (update_cache sample_sources first_update).2.

Definition first_update_started : update_state sim_web :=
  set_cached_modules [] (set_etag_cache (get_etag_cache first_update) first_update).

(** ** The source files *)

(** Lines 45-54. *)
Definition DEFAULT_SOURCES : list (string * string) :=
  [("mybible.zone.registry", "https://mybible.zone/repository/registry/registry.zip");
   ("myb.1gb.ru.registry", "http://myb.1gb.ru/registry.zip");
   ("mybible.infoo.pro.registry", "http://mybible.infoo.pro/registry.zip");
   ("mph4.ru.registry", "http://mph4.ru/registry.zip");
   ("dropbox.registry", "https://dl.dropbox.com/s/keg0ptkkalux5fi/registry.zip");
   ("mph4_test.registry", "http://mph4.ru/registry_test.zip");
   ("myb.1gb.ru_test.registry", "http://myb.1gb.ru/registry_test.zip");
   ("mybible.zone_test.registry",
    "https://mybible.zone/repository/registry/registry_test.zip")].

(** Lines 153-157 on the directory [SOURCES_DIR], a map from the names of
    its files to their texts: a default source is written when no file of
    its name exists, or in any case when [force] is set. *)
Definition init_sources (force : bool) (sources_dir : gmap string string)
  : gmap string string :=
  foldl (λ d source,
           if negb (bool_decide (is_Some (d !! source.1))) || force
           then <[source.1 := source.2]> d else d)
        sources_dir DEFAULT_SOURCES.

(** Lines 132-133 of [ensure_dirs]: a directory without any file is given
    the default sources. *)
Definition ensure_sources (sources_dir : gmap string string) : gmap string string :=
  if decide (sources_dir = ∅) then init_sources false sources_dir else sources_dir.

(** Lines 720-723: [reinit], with the answer to its question. *)
Definition reinit (confirmed : bool) (sources_dir : gmap string string)
  : gmap string string :=
  if confirmed then init_sources true sources_dir else sources_dir.

(** A world with nothing installed, a server and a database that accept
    everything. *)
Definition fresh_world : world sim := set_env (env missing_world) refusing_world.

(** ** The exceptions of the outside world *)

(** The outside world never answers with the exception [bad]: the file
    system, the network and the archive reader raise exceptions of their
    own, not those of the database engine. *)
Definition env_never_raises {E} `{Env E} (bad : exn) : Prop :=
  (∀ p e, path_exists p e ≠ Raise bad)
  ∧ (∀ a b e, (path_rename a b e).1 ≠ Raise bad)
  ∧ (∀ url p e, (fetch_to url p e).1 ≠ Raise bad)
  ∧ (∀ p e, zip_infolist p e ≠ Raise bad)
  ∧ (∀ p m module_path e, (zip_extract p m module_path e).1 ≠ Raise bad).

(** The sample world with a second file that [stat] may not look at. *)
Definition denied_world : world sim :=
  set_env {| sim_files := sim_files sample_env; sim_dirs := sim_dirs sample_env;
             sim_locked := []; sim_denied := ["/m/KJV.commentaries.SQLite3"];
             sim_remote := sim_remote sample_env; sim_archives := [];
             sim_refused := []; sim_clock := "t1" |} sample_world.

(** Two installed modules, the name of the second with an underscore that
    matches the first as a pattern. *)
Definition wildcard_world : world sim :=
  {| env := {| sim_files := []; sim_dirs := ["/m"]; sim_locked := []; sim_denied := [];
               sim_remote := [("http://x/A_B.zip", [member "a_b.sqlite3"])];
               sim_archives := []; sim_refused := []; sim_clock := "t1" |};
     cache := [cached "A_B" "2021-01-01" "http://x/A_B.zip" "bible"];
     inv := {| modules := [installed_row 1 "AxB" "2020-01-01";
                           installed_row 2 "A_B" "2020-01-01"];
               files := [] |};
     module_path := Some "/m";
     console := [] |}.

(** * Properties *)

(** ** The string methods on examples *)

Example lower_ex : Py.lower "Module.DE.Dictionary.SQLite3" = "module.de.dictionary.sqlite3".
Proof. reflexivity. Qed.
Example endswith_ex : Py.endswith "a.zip" ".zip" = true /\ Py.endswith "zip" ".zip" = false.
Proof. split; reflexivity. Qed.
Example removesuffix_ex : Py.removesuffix "kjv.bible.zip" ".zip" = "kjv.bible".
Proof. reflexivity. Qed.
Example find_ex : Py.find "{h1}kjv" "}" = 3%Z /\ Py.find "abc" "}" = (-1)%Z /\ Py.find "" "" = 0%Z.
Proof. repeat split; reflexivity. Qed.
Example split_ex : Py.split "." "a.b." = ["a"; "b"; ""] /\ Py.split "." "" = [""].
Proof. split; reflexivity. Qed.
Example replace_ex : Py.replace "http://x/%s?f=%s" "%s" "k%s" = "http://x/k%s?f=k%s".
Proof. reflexivity. Qed.
Example replace_overlap_ex : Py.replace "aaa" "aa" "b" = "ba".
Proof. reflexivity. Qed.
Example strip_ex : Py.strip_chars ["'"; "034"]%char (Py.strip "  'kjv'  ") = "kjv".
Proof. reflexivity. Qed.
Example unquote_ex : Py.unquote "a%20b%zz%4" = "a b%zz%4" /\ Py.unquote "%%41" = "%A".
Proof. split; reflexivity. Qed.


(** ** The order on version strings *)

Lemma ascii_compare_trans_lt a b c :
  Ascii.compare a b = Lt → Ascii.compare b c = Lt → Ascii.compare a c = Lt.
Proof.
  unfold Ascii.compare. rewrite !N.compare_lt_iff. lia.
Qed.

Lemma string_compare_refl s : String.compare s s = Eq.
Proof.
  induction s as [|a s IH]; simpl; [done|].
  unfold Ascii.compare. by rewrite N.compare_refl.
Qed.

Lemma string_compare_trans_lt s1 : ∀ s2 s3,
  String.compare s1 s2 = Lt → String.compare s2 s3 = Lt → String.compare s1 s3 = Lt.
Proof.
  induction s1 as [|a s1 IH]; intros [|b s2] [|c s3]; simpl; try done.
  destruct (Ascii.compare a b) eqn:Hab; try done;
    destruct (Ascii.compare b c) eqn:Hbc; try done; intros H12 H23.
  - apply Ascii.compare_eq_iff in Hab, Hbc. subst.
    unfold Ascii.compare. rewrite N.compare_refl. eauto.
  - apply Ascii.compare_eq_iff in Hab. subst. by rewrite Hbc.
  - apply Ascii.compare_eq_iff in Hbc. subst. by rewrite Hab.
  - by rewrite (ascii_compare_trans_lt _ _ _ Hab Hbc).
Qed.

Lemma ltb_not_leb a b : String.ltb a b = negb (String.leb b a).
Proof.
  unfold String.ltb, String.leb. rewrite (String.compare_antisym b a).
  by destruct (String.compare a b).
Qed.

Lemma ltb_leb a b : String.ltb a b = true → String.leb a b = true.
Proof. unfold String.ltb, String.leb. by destruct (String.compare a b). Qed.

Lemma leb_refl a : String.leb a a = true.
Proof. unfold String.leb. by rewrite string_compare_refl. Qed.

Lemma leb_trans a b c :
  String.leb a b = true → String.leb b c = true → String.leb a c = true.
Proof.
  unfold String.leb.
  destruct (String.compare a b) eqn:Hab; try done;
    destruct (String.compare b c) eqn:Hbc; try done; intros _ _.
  - apply String.compare_eq_iff in Hab, Hbc. subst. by rewrite string_compare_refl.
  - apply String.compare_eq_iff in Hab. subst. by rewrite Hbc.
  - apply String.compare_eq_iff in Hbc. subst. by rewrite Hab.
  - by rewrite (string_compare_trans_lt _ _ _ Hab Hbc).
Qed.

Lemma ltb_leb_trans a b c :
  String.ltb a b = true → String.leb b c = true → String.ltb a c = true.
Proof.
  rewrite !ltb_not_leb, !negb_true_iff. intros Hba Hbc.
  destruct (String.leb c a) eqn:Hca; [|done].
  by rewrite (leb_trans _ _ _ Hbc Hca) in Hba.
Qed.

Lemma ltb_irrefl a : String.ltb a a = false.
Proof. by rewrite ltb_not_leb, leb_refl. Qed.

(** ** Latest version and upgradability *)

Lemma first_by_update_date_desc_none rows :
  first_by_update_date_desc rows = None → rows = [].
Proof.
  destruct rows as [|r rest]; simpl; [done|].
  by destruct (first_by_update_date_desc rest) as [m|]; [destruct (String.ltb _ _)|].
Qed.

Lemma first_by_update_date_desc_max rows m :
  first_by_update_date_desc rows = Some m →
  m ∈ rows
  ∧ ∀ r, r ∈ rows →
         String.leb (CachedModule.update_date r) (CachedModule.update_date m) = true.
Proof.
  revert m. induction rows as [|r rest IH]; intros m; simpl; [done|].
  destruct (first_by_update_date_desc rest) as [m0|] eqn:Hrest.
  - destruct (IH m0 eq_refl) as [Hin Hmax].
    destruct (String.ltb (CachedModule.update_date r) (CachedModule.update_date m0)) eqn:Hlt;
      intros [= <-]; split.
    + by apply list_elem_of_further.
    + intros x [->|Hx]%elem_of_cons; [by apply ltb_leb | by apply Hmax].
    + apply list_elem_of_here.
    + intros x [->|Hx]%elem_of_cons; [apply leb_refl|].
      apply leb_trans with (CachedModule.update_date m0); [by apply Hmax|].
      rewrite ltb_not_leb, negb_false_iff in Hlt. done.
  - intros [= <-]. apply first_by_update_date_desc_none in Hrest as ->.
    split; [apply list_elem_of_here|].
    intros x [->|Hx]%elem_of_cons; [apply leb_refl | by apply elem_of_nil in Hx].
Qed.

(** [latest_cached] returns a latest version, and returns one whenever a row
    matches the name. *)
Lemma latest_cached_is_latest cache name c :
  latest_cached cache name = Some c → is_latest cache name c.
Proof.
  unfold latest_cached. intros [Hin Hmax]%first_by_update_date_desc_max.
  apply list_elem_of_filter in Hin as [Hlike Hin]. repeat split; [done..|].
  intros c' Hc' Hlike'. apply Hmax. by apply list_elem_of_filter.
Qed.

Lemma latest_cached_none cache name c :
  latest_cached cache name = None → c ∈ cache → ilike (CachedModule.name c) name = false.
Proof.
  unfold latest_cached. intros Hnil%first_by_update_date_desc_none Hin.
  destruct (ilike (CachedModule.name c) name) eqn:Hlike; [|done].
  assert (c ∈ filter (λ c, ilike (CachedModule.name c) name = true) cache) as Hc
    by by apply list_elem_of_filter.
  rewrite Hnil in Hc. by apply elem_of_nil in Hc.
Qed.

Lemma is_latest_update_date cache name c c' :
  is_latest cache name c → is_latest cache name c' →
  CachedModule.update_date c = CachedModule.update_date c'.
Proof.
  intros (Hin & Hlike & Hmax) (Hin' & Hlike' & Hmax').
  apply String.leb_antisym; auto.
Qed.

(** The test of lines 676 and 395, against the definition. *)
Lemma upgradable_iff cache inst :
  upgradable cache inst ↔
  ∃ c, latest_cached cache (InstalledModule.name inst) = Some c
       ∧ String.ltb (InstalledModule.update_date inst) (CachedModule.update_date c) = true.
Proof.
  split.
  - intros (c & Hc & Hlt).
    destruct (latest_cached cache (InstalledModule.name inst)) as [m|] eqn:Hm.
    + exists m. split; [done|].
      by rewrite <- (is_latest_update_date _ _ _ _ Hc (latest_cached_is_latest _ _ _ Hm)).
    + destruct Hc as (Hin & Hlike & _).
      by rewrite (latest_cached_none _ _ _ Hm Hin) in Hlike.
  - intros (c & Hc & Hlt). exists c. split; [by apply latest_cached_is_latest | done].
Qed.

Lemma outdated_all_spec cache installed_modules n :
  n ∈ outdated_all cache installed_modules ↔
  ∃ inst, inst ∈ installed_modules ∧ InstalledModule.name inst = n ∧ upgradable cache inst.
Proof.
  induction installed_modules as [|m rest IH]; simpl.
  { split; [by intros ?%elem_of_nil | by intros (? & ?%elem_of_nil & _)]. }
  assert ((∃ inst, inst ∈ m :: rest ∧ InstalledModule.name inst = n ∧ upgradable cache inst)
          ↔ (InstalledModule.name m = n ∧ upgradable cache m) ∨ n ∈ outdated_all cache rest)
    as ->.
  { rewrite IH. split.
    - intros (inst & [->|Hin]%elem_of_cons & Hn & Hup); eauto.
    - intros [[Hn Hup]|(inst & Hin & Hn & Hup)].
      + exists m. split; [apply list_elem_of_here | done].
      + exists inst. split; [by apply list_elem_of_further | done]. }
  rewrite upgradable_iff.
  destruct (latest_cached cache (InstalledModule.name m)) as [c|] eqn:Hc;
    [destruct (String.ltb _ _) eqn:Hlt|].
  - rewrite elem_of_cons. split.
    + intros [->|Hin]; [left; eauto | by right].
    + intros [[Hn _]|Hin]; [by left | by right].
  - split; [by right|]. intros [(_ & c' & [= <-] & Hlt')|Hin]; [congruence | done].
  - split; [by right|]. by intros [(_ & c' & [=] & _)|Hin].
Qed.

Lemma ex_cons_iff {A} (P : A → Prop) (m : A) (rest : list A) :
  (∃ x, x ∈ m :: rest ∧ P x) ↔ P m ∨ ∃ x, x ∈ rest ∧ P x.
Proof.
  split.
  - intros (x & [->|Hin]%elem_of_cons & HP); eauto.
  - intros [HP|(x & Hin & HP)]; [exists m | exists x]; rewrite elem_of_cons; auto.
Qed.

Lemma upgradable_modules_spec cache language module_type installed_modules u :
  u ∈ upgradable_modules cache language module_type installed_modules ↔
  ∃ inst, inst ∈ installed_modules
          ∧ ∃ c, language_passes language inst = true
                 ∧ latest_cached cache (InstalledModule.name inst) = Some c
                 ∧ String.ltb (InstalledModule.update_date inst)
                              (CachedModule.update_date c) = true
                 ∧ type_passes module_type c = true
                 ∧ u = UpgradableMod_init inst c.
Proof.
  induction installed_modules as [|m rest IH]; simpl.
  { split; [by intros ?%elem_of_nil | by intros (? & ?%elem_of_nil & _)]. }
  rewrite ex_cons_iff, <- IH. clear IH.
  destruct (language_passes language m) eqn:Hlang; simpl.
  2: { split; [by right|]. by intros [(c & [=] & _)|Hin]. }
  destruct (latest_cached cache (InstalledModule.name m)) as [c|] eqn:Hc.
  2: { split; [by right|]. by intros [(c & _ & [=] & _)|Hin]. }
  destruct (String.leb _ _) eqn:Hle; simpl.
  { split; [by right|].
    by intros [(c' & _ & [= <-] & Hlt & _)|Hin]; [rewrite ltb_not_leb, Hle in Hlt|]. }
  destruct (type_passes module_type c) eqn:Hty; simpl.
  2: { split; [by right|]. by intros [(c' & _ & [= <-] & _ & Hty' & _)|Hin]; [congruence|]. }
  rewrite elem_of_cons. split.
  - intros [->|Hin]; [left; exists c; by rewrite ltb_not_leb, Hle | by right].
  - intros [(c' & _ & [= <-] & _ & _ & ->)|Hin]; [by left | by right].
Qed.

(** What [list --upgradable] shows is the loop over all installed modules:
    its two early exits return what the loop would. *)
Lemma list_upgradable_loop {E} language module_type (w : world E) :
  list_upgradable language module_type w
  = upgradable_modules (cache w) language module_type (modules (inv w)).
Proof.
  unfold list_upgradable, is_cache_empty.
  destruct (modules (inv w)) as [|m rest] eqn:Hm; [done|].
  destruct (cache w) as [|c cs]; [|done].
  generalize (m :: rest). clear. intros l.
  induction l as [|m rest IH]; simpl; [done|].
  by destruct (negb (language_passes language m)).
Qed.

(** On a name without wildcard, [ilike] is equality up to ASCII case. *)
Lemma ascii_eqb_sym a b : Ascii.eqb a b = Ascii.eqb b a.
Proof.
  destruct (Ascii.eqb_spec a b) as [->|Hne]; [by rewrite Ascii.eqb_refl|].
  symmetry. apply Ascii.eqb_neq. congruence.
Qed.

Lemma ilike_plain rhs : ∀ field,
  plain rhs = true → ilike field rhs = String.eqb (Py.lower field) (Py.lower rhs).
Proof.
  unfold ilike. induction rhs as [|c rhs IH]; intros field; simpl.
  - intros _. by destruct field.
  - intros [[Hpercent Hunderscore]%andb_true_iff Hplain]%andb_true_iff.
    apply negb_true_iff in Hpercent, Hunderscore. rewrite Hpercent, Hunderscore.
    destruct field as [|d field]; simpl; [done|].
    rewrite IH by done. by rewrite (ascii_eqb_sym (Py.ascii_lower c)).
Qed.

Lemma ilike_plain_same_name field rhs :
  plain rhs = true → ilike field rhs = true ↔ same_name field rhs.
Proof. intros Hplain. rewrite ilike_plain by done. apply String.eqb_eq. Qed.

(** The selection as the code makes it.  A module is selected by
    [upgrade --all], and listed by [list --upgradable], exactly when the
    latest cached version for its name (a row of greatest [update_date]
    among those that the store matches with its name) is strictly greater,
    as a string, than the installed [update_date]; filters only remove
    entries from the listing, and a latest version that is equal or smaller
    never makes a module upgradable.  The store matches names with [LIKE]:
    for an installed name without percent sign and underscore that is
    equality up to ASCII case, and the selection is the one of section
    4.5. *)
Theorem upgradable_iff_latest_greater {E} (w : world E) :
  (∀ n, n ∈ outdated_all (cache w) (modules (inv w)) ↔
        ∃ inst, inst ∈ modules (inv w) ∧ InstalledModule.name inst = n
                ∧ upgradable (cache w) inst)
  ∧ (∀ u, u ∈ list_upgradable None None w ↔
          ∃ inst c, inst ∈ modules (inv w)
                    ∧ is_latest (cache w) (InstalledModule.name inst) c
                    ∧ String.ltb (InstalledModule.update_date inst)
                                 (CachedModule.update_date c) = true
                    ∧ u = UpgradableMod_init inst c)
  ∧ (∀ language module_type u, u ∈ list_upgradable language module_type w →
          ∃ inst, inst ∈ modules (inv w) ∧ InstalledModule.name inst = up_name u
                  ∧ upgradable (cache w) inst)
  ∧ (∀ inst c, is_latest (cache w) (InstalledModule.name inst) c →
          String.leb (CachedModule.update_date c) (InstalledModule.update_date inst) = true →
          ¬ upgradable (cache w) inst)
  ∧ (∀ inst, plain (InstalledModule.name inst) = true →
          upgradable (cache w) inst ↔ upgradable_by_name (cache w) inst).
Proof.
  split; [|split; [|split; [|split]]].
  - intros n. apply outdated_all_spec.
  - intros u. rewrite list_upgradable_loop, upgradable_modules_spec. split.
    + intros (inst & Hin & c & _ & Hc & Hlt & _ & ->).
      exists inst, c. eauto using latest_cached_is_latest.
    + intros (inst & c & Hin & Hc & Hlt & ->).
      destruct (proj1 (upgradable_iff (cache w) inst)) as (c' & Hc' & Hlt'); [by exists c|].
      exists inst. split; [done|]. exists c'. repeat split; try done.
      unfold UpgradableMod_init.
      by rewrite (is_latest_update_date _ _ _ _ Hc (latest_cached_is_latest _ _ _ Hc')).
  - intros language module_type u.
    rewrite list_upgradable_loop, upgradable_modules_spec.
    intros (inst & Hin & c & _ & Hc & Hlt & _ & ->). exists inst. repeat split; [done|].
    apply upgradable_iff. eauto.
  - intros inst c Hc Hle (c' & Hc' & Hlt).
    rewrite (is_latest_update_date _ _ _ _ Hc' Hc), ltb_not_leb, Hle in Hlt. done.
  - intros inst Hplain. unfold upgradable, upgradable_by_name, is_latest.
    split; intros (c & Hc); exists c.
    + destruct Hc as ((Hin & Hlike & Hmax) & Hlt).
      repeat split; [done| by apply ilike_plain_same_name | | done].
      intros c' Hc' Hsame. apply Hmax; [done|]. by apply ilike_plain_same_name.
    + destruct Hc as (Hin & Hsame & Hmax & Hlt).
      repeat split; [done| by apply ilike_plain_same_name | | done].
      intros c' Hc' Hlike. apply Hmax; [done|]. by apply ilike_plain_same_name.
Qed.

Example upgradable_iff_latest_greater_sample :
  ∃ inst, inst ∈ modules (inv sample_world) ∧ InstalledModule.name inst = "KJV"
          ∧ upgradable (cache sample_world) inst.
Proof.
  apply (proj1 (proj1 (upgradable_iff_latest_greater sample_world) "KJV")).
  vm_compute. apply list_elem_of_here.
Qed.

(** C6.  The lookup of the latest version passes the installed name to
    [LIKE] without escaping it, so that an underscore in the name stands for
    any character.  "A_B" is installed in its version of 2020 and the cache
    has "A_B" of 2019 and "AxB" of 2021: no cached row of the name "A_B" is
    later than the installed one, yet [upgrade --all] selects "A_B", and
    [list --upgradable] lists it, because the row of "AxB" is taken for its
    latest version. *)
Theorem upgrade_all_selects_through_wildcard :
  let cache := [cached "A_B" "2019-01-01" "http://x/A_B.zip" "bible";
                cached "AxB" "2021-01-01" "http://x/AxB.zip" "bible"] in
  let inst := installed_row 1 "A_B" "2020-01-01" in
  "A_B" ∈ outdated_all cache [inst]
  ∧ up_name <$> upgradable_modules cache None None [inst] = ["A_B"]
  ∧ ¬ upgradable_by_name cache inst.
Proof.
  intros cache inst. split; [vm_compute; apply list_elem_of_here|]. split; [done|].
  intros (c & Hc & Hsame & _ & Hlt).
  apply elem_of_cons in Hc as [->|Hc]; [by vm_compute in Hlt|].
  apply elem_of_cons in Hc as [->|Hc]; [by vm_compute in Hsame|].
  by apply elem_of_nil in Hc.
Qed.

(** Property P2: of the versions dated 2020-01-01, 2021-06-15 and 2019-12-31
    the latest is the one of 2021-06-15, whatever the case of the name asked
    for. *)
Example latest_of_three_versions :
  latest_cached three_versions "kjv"
  = Some (cached "KJV" "2021-06-15" "http://x/KJV-2021.zip" "bible").
Proof. reflexivity. Qed.

(** Strings are compared as such: a version "9" is later than "10". *)
Example version_order_is_lexical :
  String.ltb "10" "9" = true
  ∧ outdated_all [cached "A" "10" "u" "bible"] [installed_row 1 "A" "9"] = [].
Proof. split; reflexivity. Qed.

(** ** The cache store: insert or ignore *)

Lemma same_key_true a b : same_key a b = true ↔ key a = key b.
Proof.
  unfold same_key, key. rewrite !andb_true_iff, !String.eqb_eq.
  split; [intros [[-> ->] ->]; done | intros [= -> -> ->]; done].
Qed.

Lemma existsb_same_key r db : existsb (same_key r) db = true ↔ key r ∈ key <$> db.
Proof.
  rewrite existsb_exists, list_elem_of_fmap. split.
  - intros (x & Hin%list_elem_of_In & Hk%same_key_true). eauto.
  - intros (x & Hk & Hin%list_elem_of_In). exists x. by rewrite same_key_true.
Qed.

Lemma insert_or_ignore_unique db r : unique_keys db → unique_keys (insert_or_ignore db r).
Proof.
  unfold unique_keys, insert_or_ignore. intros Hdb.
  destruct (existsb (same_key r) db) eqn:Hex; [done|].
  rewrite fmap_app. apply NoDup_app. split; [done|]. split; [|apply NoDup_singleton].
  intros k Hk ->%list_elem_of_singleton.
  apply existsb_same_key in Hk. congruence.
Qed.


Lemma rows_with_key_present db r :
  unique_keys db → key r ∈ key <$> db → rows_with_key r db = 1.
Proof.
  unfold unique_keys, rows_with_key.
  induction db as [|x db IH]; simpl; [by intros _ ?%elem_of_nil|].
  intros [Hx Hdb]%NoDup_cons Hin. rewrite filter_cons.
  destruct (decide (key x = key r)) as [Hk|Hk].
  - simpl. f_equal. rewrite Hk in Hx. clear -Hx.
    induction db as [|y db IH]; [done|]. rewrite filter_cons.
    rewrite fmap_cons, not_elem_of_cons in Hx. destruct Hx as [Hy Hx].
    destruct (decide (key y = key r)); [congruence | by apply IH].
  - apply elem_of_cons in Hin as [Hin|Hin]; [congruence | by apply IH].
Qed.

Lemma insert_or_ignore_present db r : key r ∈ key <$> insert_or_ignore db r.
Proof.
  unfold insert_or_ignore. destruct (existsb (same_key r) db) eqn:Hex.
  - by apply existsb_same_key.
  - rewrite fmap_app, elem_of_app. right. apply list_elem_of_here.
Qed.

Lemma insert_or_ignore_duplicate db r' :
  key r' ∈ key <$> db → insert_or_ignore db r' = db.
Proof.
  intros Hin%existsb_same_key. unfold insert_or_ignore. by rewrite Hin.
Qed.

(** C5.  Inserting two records with the same (name, update_date,
    download_url) into a cache that satisfies I3 stores exactly one row under
    that key: the second insert changes nothing, and I3 still holds. *)
Theorem insert_same_key_twice_one_row (db : list CachedModule.t) (r r' : CachedModule.t) :
  unique_keys db → key r' = key r →
  rows_with_key r (insert_many_on_conflict_ignore [r; r'] db) = 1
  ∧ insert_many_on_conflict_ignore [r; r'] db = insert_many_on_conflict_ignore [r] db
  ∧ unique_keys (insert_many_on_conflict_ignore [r; r'] db).
Proof.
  intros Hdb Hk. unfold insert_many_on_conflict_ignore. simpl.
  assert (insert_or_ignore (insert_or_ignore db r) r' = insert_or_ignore db r) as ->.
  { apply insert_or_ignore_duplicate. rewrite Hk. apply insert_or_ignore_present. }
  split; [|split; [done|]].
  - apply rows_with_key_present; [by apply insert_or_ignore_unique|].
    apply insert_or_ignore_present.
  - by apply insert_or_ignore_unique.
Qed.

Lemma insert_same_key_twice_one_row_witness :
  let r := cached "KJV" "2020-01-01" "http://x/KJV-2020.zip" "bible" in
  let r' := cached "KJV" "2020-01-01" "http://x/KJV-2020.zip" "commentaries" in
  rows_with_key r (insert_many_on_conflict_ignore [r; r'] []) = 1
  ∧ insert_many_on_conflict_ignore [r; r'] [] = insert_many_on_conflict_ignore [r] []
  ∧ unique_keys (insert_many_on_conflict_ignore [r; r'] []).
Proof.
  intros r r'. apply (insert_same_key_twice_one_row [] r r').
  - apply NoDup_nil_2.
  - reflexivity.
Defined.

(** Property P1 on the empty cache: the same record twice gives one row. *)
Example insert_twice_into_empty_cache :
  let r := cached "KJV" "2020-01-01" "http://x/KJV-2020.zip" "bible" in
  insert_many_on_conflict_ignore [r; r] [] = [r].
Proof. reflexivity. Qed.

(** A whole catalog inserted a second time changes nothing. *)
Lemma insert_many_idempotent rows : ∀ db,
  insert_many_on_conflict_ignore rows (insert_many_on_conflict_ignore rows db)
  = insert_many_on_conflict_ignore rows db.
Proof.
  assert (∀ rows db r, key r ∈ key <$> db →
            key r ∈ key <$> insert_many_on_conflict_ignore rows db) as Hkeep.
  { clear. unfold insert_many_on_conflict_ignore.
    induction rows as [|x rows IH]; intros db r Hin; simpl; [done|].
    apply IH. unfold insert_or_ignore. destruct (existsb _ _); [done|].
    rewrite fmap_app, elem_of_app. by left. }
  assert (∀ rows db, (∀ r, r ∈ rows → key r ∈ key <$> db) →
            insert_many_on_conflict_ignore rows db = db) as Hnoop.
  { clear. unfold insert_many_on_conflict_ignore.
    induction rows as [|x rows IH]; intros db Hall; simpl; [done|].
    rewrite insert_or_ignore_duplicate by (apply Hall, list_elem_of_here).
    apply IH. intros r Hr. by apply Hall, list_elem_of_further. }
  intros db. apply Hnoop. clear Hnoop. revert db.
  unfold insert_many_on_conflict_ignore in *.
  induction rows as [|x rows IH]; intros db r Hr; [by apply elem_of_nil in Hr|].
  simpl. apply elem_of_cons in Hr as [->|Hr]; [|by apply IH].
  apply Hkeep, insert_or_ignore_present.
Qed.

(** ** Filename reconciliation *)

#[local] Arguments Py.startswith : simpl never.
#[local] Arguments Py.endswith : simpl never.
#[local] Arguments Py.contains : simpl never.
#[local] Arguments Py.lower : simpl never.

(** Property P5. *)
Example reconcile_dictionary :
  target_name "Module.de.dictionary.sqlite3" "ESV" = "ESV.dictionary.SQLite3".
Proof. reflexivity. Qed.
Example reconcile_no_token : target_name "thedata.sqlite3" "ESV" = "ESV.SQLite3".
Proof. reflexivity. Qed.
Example reconcile_hidden : target_name ".hidden.txt" "ESV" = "ESV.hidden.txt".
Proof. reflexivity. Qed.

(** The order of the list decides between two types that both occur. *)
Example reconcile_first_type_wins :
  target_name "a.plan.dictionary.SQLite3" "ESV" = "ESV.dictionary.SQLite3".
Proof. reflexivity. Qed.

Lemma find_first_match {A} (p : A → bool) (l : list A) (x : A) :
  List.find p l = Some x ↔
  ∃ before after, l = before ++ x :: after ∧ p x = true ∧ ∀ y, y ∈ before → p y = false.
Proof.
  induction l as [|a l IH]; simpl.
  - split; [done|]. by intros ([|??] & ? & ? & _).
  - destruct (p a) eqn:Hpa.
    + split.
      * intros [= <-]. exists [], l. repeat split; [done|]. by intros y ?%elem_of_nil.
      * intros ([|b before] & after & Hl & Hpx & Hbefore); simplify_eq/=; [done|].
        rewrite (Hbefore b) in Hpa; [done | apply list_elem_of_here].
    + rewrite IH. split.
      * intros (before & after & -> & Hpx & Hbefore). exists (a :: before), after.
        repeat split; [done|]. by intros y [->|?]%elem_of_cons; [|apply Hbefore].
      * intros ([|b before] & after & Hl & Hpx & Hbefore); simplify_eq/=; [congruence|].
        exists before, after. repeat split; [done|].
        intros y Hy. by apply Hbefore, list_elem_of_further.
Qed.

(** The type detected is the first of [module_types] whose dotted form
    occurs in the lowercased name. *)
Lemma detected_type_first lower_filename mod_type :
  detected_type lower_filename = Some mod_type ↔
  ∃ before after,
    module_types = before ++ mod_type :: after
    ∧ Py.contains ("." +:+ Py.lower mod_type +:+ ".") lower_filename = true
    ∧ ∀ t, t ∈ before → Py.contains ("." +:+ Py.lower t +:+ ".") lower_filename = false.
Proof. unfold detected_type. by rewrite find_first_match. Qed.

Lemma startswith_dot_append a b :
  Py.startswith (a +:+ b) "." = true → a = EmptyString ∨ Py.startswith a "." = true.
Proof.
  destruct a as [|c a]; [by left|]. intros Hp. right. exact Hp.
Qed.

(** Away from module names that start with a dot, reconciliation is the
    function of section 4.4: a name without the database suffix is kept, or
    prefixed with the module name when it starts with a dot; a name with the
    suffix becomes the module name, the detected type if any, and the
    suffix. *)
Lemma target_name_spec original_filename module_name :
  (Py.endswith (Py.lower original_filename) ".sqlite3" = false →
   target_name original_filename module_name
   = if Py.startswith original_filename "." then module_name +:+ original_filename
     else original_filename)
  ∧ (Py.endswith (Py.lower original_filename) ".sqlite3" = true →
     Py.startswith module_name "." = false →
     target_name original_filename module_name
     = match detected_type (Py.lower original_filename) with
       | Some mod_type => module_name +:+ "." +:+ mod_type +:+ ".SQLite3"
       | None => module_name +:+ ".SQLite3"
       end).
Proof.
  unfold target_name, _reconstruct_sqlite_name. split; intros Hsuffix.
  - rewrite Hsuffix. simpl. by rewrite String.eqb_refl.
  - intros Hmodule. rewrite Hsuffix. simpl.
    set (r := match detected_type _ with Some t => _ | None => _ end).
    destruct (String.eqb r original_filename) eqn:Heq; [simpl|done].
    apply String.eqb_eq in Heq. rewrite <- Heq.
    destruct (Py.startswith r ".") eqn:Hdot; [|done].
    assert (module_name = EmptyString ∨ Py.startswith module_name "." = true) as [->|Hp].
    { subst r. destruct (detected_type _); by apply startswith_dot_append in Hdot. }
    + done.
    + congruence.
Qed.

(** C4.  With the module name ".x", the archive member ".x.SQLite3" has the
    database suffix and no type, yet it is not given the name ".x.SQLite3":
    the reconstructed name equals the member's own, which starts with a dot,
    so the dot-prefix rule for other files is applied to it as well. *)
Theorem target_name_module_name_with_dot :
  Py.endswith (Py.lower ".x.SQLite3") ".sqlite3" = true
  ∧ detected_type (Py.lower ".x.SQLite3") = None
  ∧ _reconstruct_sqlite_name ".x.SQLite3" ".x" = ".x.SQLite3"
  ∧ target_name ".x.SQLite3" ".x" = ".x.x.SQLite3"
  ∧ target_name ".x.SQLite3" ".x" ≠ ".x" +:+ ".SQLite3".
Proof. repeat split; done. Qed.

(** ** Catalog parsers *)

Lemma result_bind_Ok {A B} (m : result A) (f : A → result B) (b : B) :
  m ≫= f = Ok b ↔ ∃ a, m = Ok a ∧ f a = Ok b.
Proof.
  destruct m as [a|e]; simpl.
  - split; [eauto | by intros (a' & [= <-] & ?)].
  - split; [done | by intros (a' & [=] & _)].
Qed.

Lemma split_after_last c s :
  match after_last c s with
  | None => Py.split c s = [s]
  | Some r => 2 ≤ length (Py.split c s) ∧ Py.last_part (Py.split c s) = r
  end.
Proof.
  unfold Py.last_part.
  induction s as [|a s IH]; simpl; [done|].
  destruct (after_last c s) as [r|].
  - destruct IH as [Hlen Hlast]. destruct (Ascii.eqb a c).
    + split; [simpl; lia|]. destruct (Py.split c s); [simpl in Hlen; lia | done].
    + destruct (Py.split c s) as [|p [|q ps]]; simpl in Hlen; try lia. done.
  - rewrite IH. by destruct (Ascii.eqb a c).
Qed.

(** The module type that the parsers compute is the one of section 4.1. *)
Lemma module_type_from_url_spec download_url :
  module_type_from_url download_url = spec_module_type download_url.
Proof.
  unfold module_type_from_url, spec_module_type.
  assert (Py.last_part (Py.split "/" download_url)
          = default download_url (after_last "/" download_url)) as ->.
  { pose proof (split_after_last "/" download_url) as H.
    destruct (after_last "/" download_url); [by destruct H | by rewrite H]. }
  set (stem := Py.removesuffix _ _).
  pose proof (split_after_last "." stem) as H.
  destruct (after_last "." stem) as [r|].
  - destruct H as [Hlen ->]. by destruct (Nat.ltb_spec 1 (length (Py.split "." stem))); [|lia].
  - by rewrite H.
Qed.

Lemma zipped_template_typed hosts entry registry_url t rs :
  zipped_template hosts entry registry_url t = Ok rs → Forall typed_from_url rs.
Proof.
  unfold zipped_template. intros (s & _ & H)%result_bind_Ok. revert H.
  destruct (_ || _); [by intros [= <-]|].
  destruct (hosts !! _) as [path|]; [|by intros [= <-]].
  intros (name & _ & (fd & _ & (fn & _ & (des & _ & (upd & _ & H)%result_bind_Ok)
    %result_bind_Ok)%result_bind_Ok)%result_bind_Ok)%result_bind_Ok.
  revert H. destruct (negb _); [by intros [= <-]|].
  intros (p & _ & (lng & _ & (siz & _ & [= <-])%result_bind_Ok)%result_bind_Ok)%result_bind_Ok.
  by repeat constructor.
Qed.

Lemma zipped_templates_typed hosts entry registry_url ts : ∀ rs,
  zipped_templates hosts entry registry_url ts = Ok rs → Forall typed_from_url rs.
Proof.
  induction ts as [|t ts IH]; simpl; intros rs; [by intros [= <-]|].
  intros (rs1 & H1 & (rs2 & H2 & [= <-])%result_bind_Ok)%result_bind_Ok.
  apply Forall_app. split; [by eapply zipped_template_typed | by apply IH].
Qed.

Lemma zipped_loop_typed hosts registry_url mods : ∀ rs,
  zipped_loop hosts registry_url mods = Ok rs → Forall typed_from_url rs.
Proof.
  induction mods as [|entry mods IH]; simpl; intros rs; [by intros [= <-]|].
  intros (rs1 & H1 & (rs2 & H2 & [= <-])%result_bind_Ok)%result_bind_Ok.
  apply Forall_app. split; [|by apply IH].
  unfold zipped_entry in H1.
  apply result_bind_Ok in H1 as (abr & _ & (url & _ & H1)%result_bind_Ok).
  destruct (negb _); [by injection H1 as <-|].
  apply result_bind_Ok in H1 as (url' & _ & (ts & _ & H1)%result_bind_Ok).
  by eapply zipped_templates_typed.
Qed.

(** C8.  The catalog of the scenario yields one record, named "kjv", to be
    downloaded from "http://x/kjv.bible.zip", of type "bible"; and whatever
    the catalog, the type of every record that archive-style parsing yields
    is derived from its download URL as section 4.1 says. *)
Theorem archive_parsing_resolves_hosts_and_types :
  parse_zipped_registry scenario_catalog "http://src/registry.zip"
  = Ok [{| ModuleRecord.name := JStr "kjv";
           ModuleRecord.language := JNull;
           ModuleRecord.description := JStr "King James";
           ModuleRecord.update_date := JStr "2020-01-01";
           ModuleRecord.download_url := "http://x/kjv.bible.zip";
           ModuleRecord.file_name := JStr "kjv";
           ModuleRecord.module_type := "bible";
           ModuleRecord.size := JNull;
           ModuleRecord.source_registry := "http://src/registry.zip" |}]
  ∧ ∀ data registry_url rs r,
      parse_zipped_registry data registry_url = Ok rs → r ∈ rs →
      ModuleRecord.module_type r = spec_module_type (ModuleRecord.download_url r).
Proof.
  split; [done|].
  intros data registry_url rs r Hparse Hr.
  rewrite <- module_type_from_url_spec.
  unfold parse_zipped_registry in Hparse.
  apply result_bind_Ok in Hparse as (hs & _ & (hs' & _ & (hosts & _ & (ds & _ &
    (mods & _ & Hloop)%result_bind_Ok)%result_bind_Ok)%result_bind_Ok)%result_bind_Ok).
  apply zipped_loop_typed in Hloop. rewrite Forall_forall in Hloop. by apply Hloop.
Qed.

Lemma archive_parsing_resolves_hosts_and_types_witness :
  spec_module_type "http://x/kjv.bible.zip" = "bible".
Proof.
  pose proof (proj2 archive_parsing_resolves_hosts_and_types scenario_catalog
                "http://src/registry.zip" _ _ (proj1 archive_parsing_resolves_hosts_and_types)
                (list_elem_of_here _ _)) as H.
  exact (eq_sym H).
Defined.

(** Percent-escapes in the last segment are decoded before the type is read. *)
Example module_type_percent_decoded :
  module_type_from_url "http://x/a/K%C3%B6nig%2Edictionary.zip" = "dictionary"
  ∧ module_type_from_url "http://x/a/plain" = "bible"
  ∧ module_type_from_url "http://x/a.b/plain.zip" = "bible".
Proof. repeat split; reflexivity. Qed.

(** *** Entries that miss a field *)

Lemma all_in_dict keys d :
  all_in keys (JDict d)
  = Ok (forallb (fun k => bool_decide (is_Some (dict_lookup k d))) keys).
Proof.
  induction keys as [|k keys IH]; simpl; [done|].
  destruct (bool_decide _); [apply IH | done].
Qed.

Lemma extra_record_ok entry registry_url :
  extra_well_typed entry = true → extra_complete entry = true →
  ∃ r, extra_record entry registry_url = Ok r.
Proof.
  destruct entry as [| | | | |d]; try done. unfold extra_well_typed, extra_complete.
  intros [Hfn Hdu]%andb_true_iff Hc. simpl in Hc.
  apply andb_true_iff in Hc as [[du Hdu']%bool_decide_eq_true Hc].
  apply andb_true_iff in Hc as [[fn Hfn']%bool_decide_eq_true Hc].
  apply andb_true_iff in Hc as [[des Hdes]%bool_decide_eq_true Hc].
  apply andb_true_iff in Hc as [[upd Hupd]%bool_decide_eq_true _].
  rewrite Hdu' in Hdu. rewrite Hfn' in Hfn.
  destruct du as [| | |du| |]; try done. destruct fn as [| | |fn| |]; try done.
  unfold extra_record. simpl. rewrite Hfn', Hdu', Hdes, Hupd. simpl. eauto.
Qed.

Lemma extra_loop_spec registry_url entries :
  forallb extra_well_typed entries = true →
  ∃ rs, extra_loop entries registry_url = Ok rs
        ∧ Forall2 (λ entry r, extra_record entry registry_url = Ok r)
                  (filter (λ e, extra_complete e = true) entries) rs.
Proof.
  induction entries as [|entry entries IH].
  { intros _. exists []. split; [done | constructor]. }
  cbn [forallb extra_loop].
  intros [Hty Htys]%andb_true_iff. destruct (IH Htys) as (rs & Hrs & Hall).
  rewrite filter_cons.
  assert (all_in extra_required entry = Ok (extra_complete entry)) as ->
    by (destruct entry; try done; apply all_in_dict).
  simpl. destruct (extra_complete entry) eqn:Hc.
  - destruct (extra_record_ok entry registry_url Hty Hc) as [r Hr].
    rewrite Hr, Hrs. simpl. exists (r :: rs). split; [done|].
    by constructor.
  - by exists rs.
Qed.

Lemma build_hosts_ok hs : ∀ hosts,
  forallb host_well_typed hs = true →
  map_Forall (λ _ v, is_JStr v = true) hosts →
  ∃ hosts', build_hosts hs hosts = Ok hosts' ∧ map_Forall (λ _ v, is_JStr v = true) hosts'.
Proof.
  induction hs as [|h hs IH]; intros hosts; cbn [forallb build_hosts]; [by eauto|].
  intros [Hh Hhs]%andb_true_iff Hhosts.
  destruct h as [| | | | |d]; try done. unfold host_well_typed in Hh. simpl.
  destruct (dict_lookup "alias" d) as [[| | |a| |]|]; try done.
  destruct (dict_lookup "path" d) as [[| | |p| |]|]; try done. simpl.
  apply IH; [done|]. by apply map_Forall_insert_2.
Qed.

Lemma find_lower_bound s sub : (-1 ≤ Py.find s sub)%Z.
Proof.
  induction s as [|c s IH]; cbn [Py.find].
  - destruct (Py.startswith EmptyString sub); lia.
  - destruct (Py.startswith (String c s) sub); [lia|].
    destruct (Py.find s sub =? -1)%Z; lia.
Qed.

Lemma zipped_template_ok hosts d registry_url t :
  map_Forall (λ _ v, is_JStr v = true) hosts →
  ∃ rs, zipped_template hosts (JDict d) registry_url (JStr t) = Ok rs
        ∧ length rs = if truthy (field "des" (JDict d)) && truthy (field "upd" (JDict d))
                         && resolvable hosts (JStr t)
                      then 1 else 0.
Proof.
  intros Hhosts. unfold zipped_template, resolvable. cbn [as_str mbind result_bind].
  destruct (Py.find t "{" =? -1)%Z eqn:Hopen.
  { apply Z.eqb_eq in Hopen. rewrite Hopen. simpl. rewrite andb_false_r. eauto. }
  assert ((Py.find t "{" + 1 =? 0)%Z = false) as ->.
  { apply Z.eqb_neq. apply Z.eqb_neq in Hopen.
    pose proof (find_lower_bound t "{"). lia. }
  destruct (Py.find t "}" =? -1)%Z eqn:Hclose; simpl.
  { rewrite andb_false_r. eauto. }
  destruct (hosts !! _) as [path|] eqn:Hpath; simpl.
  2: { rewrite andb_false_r. eauto. }
  rewrite andb_true_r.
  destruct (truthy (default JNull (dict_lookup "des" d))
            && truthy (default JNull (dict_lookup "upd" d))); simpl; [|by eauto].
  apply Hhosts in Hpath. destruct path; try done. simpl. eauto.
Qed.

Lemma zipped_templates_ok hosts d registry_url ts :
  map_Forall (λ _ v, is_JStr v = true) hosts →
  forallb is_JStr ts = true →
  ∃ rs, zipped_templates hosts (JDict d) registry_url ts = Ok rs
        ∧ length rs = if truthy (field "des" (JDict d)) && truthy (field "upd" (JDict d))
                      then length (filter (λ t, resolvable hosts t = true) ts) else 0.
Proof.
  intros Hhosts. induction ts as [|t ts IH]; cbn [forallb zipped_templates].
  { intros _. exists []. split; [done|]. by destruct (_ && _). }
  intros [Ht Hts]%andb_true_iff. destruct t as [| | |t| |]; try done.
  destruct (zipped_template_ok hosts d registry_url t Hhosts) as (rs1 & -> & Hlen1).
  destruct (IH Hts) as (rs2 & -> & Hlen2). cbn [mbind result_bind].
  exists (rs1 ++ rs2). split; [done|].
  rewrite length_app, Hlen1, Hlen2, filter_cons.
  destruct (truthy (field "des" (JDict d)) && truthy (field "upd" (JDict d)));
    cbn [andb]; [|done].
  destruct (resolvable hosts (JStr t)); by case_decide.
Qed.

Lemma zipped_entry_ok hosts registry_url entry :
  map_Forall (λ _ v, is_JStr v = true) hosts →
  zipped_well_typed entry = true →
  ∃ rs, zipped_entry hosts registry_url entry = Ok rs
        ∧ length rs = if zipped_complete entry
                      then length (filter (λ t, resolvable hosts t = true) (templates_of entry))
                      else 0.
Proof.
  intros Hhosts Hty. destruct entry as [| | | | |d]; try done.
  unfold zipped_well_typed in Hty. unfold zipped_entry, zipped_complete, templates_of.
  cbn [py_get mbind result_bind]. fold (field "abr" (JDict d)) (field "url" (JDict d)).
  destruct (truthy (field "abr" (JDict d))); cbn [andb negb]; [|by exists []].
  destruct (truthy (field "url" (JDict d))) eqn:Hurl; cbn [andb negb]; [|by exists []].
  assert (default (JList []) (dict_lookup "url" d) = field "url" (JDict d)) as ->.
  { unfold field. unfold field in Hurl. by destruct (dict_lookup "url" d). }
  destruct (field "url" (JDict d)) as [| | | |ts|]; try (by rewrite Hurl in Hty).
  cbn [py_iter mbind result_bind]. by apply zipped_templates_ok.
Qed.

Lemma zipped_loop_spec hosts registry_url entries :
  map_Forall (λ _ v, is_JStr v = true) hosts →
  forallb zipped_well_typed entries = true →
  ∃ rss, zipped_loop hosts registry_url entries = Ok (concat rss)
         ∧ Forall2 (λ entry rs,
                      zipped_entry hosts registry_url entry = Ok rs
                      ∧ length rs
                        = if zipped_complete entry
                          then length (filter (λ t, resolvable hosts t = true)
                                              (templates_of entry))
                          else 0) entries rss.
Proof.
  intros Hhosts. induction entries as [|entry entries IH]; cbn [forallb zipped_loop].
  { intros _. exists []. split; [done | constructor]. }
  intros [Hty Htys]%andb_true_iff.
  destruct (zipped_entry_ok hosts registry_url entry Hhosts Hty) as (rs & Hrs & Hlen).
  destruct (IH Htys) as (rss & Hrss & Hall).
  exists (rs :: rss). rewrite Hrs, Hrss. split; [done|]. by constructor.
Qed.

(** C7, as the code has it.  Flat-JSON: when the entries are objects whose
    file name and download URL, if present, are strings, every entry that
    misses a required field is skipped and every other entry yields exactly
    its record, in the order of the entries.  Archive-style: when hosts and
    entries are objects of the expected types, the parse succeeds, an entry
    without abbreviation, URL, description or update date yields nothing,
    and every other entry yields one record for each of its URL templates
    whose alias a host defines; the records come in the order of the
    entries. *)
Theorem parsers_skip_incomplete_entries :
  (∀ d entries registry_url,
     default (JList []) (dict_lookup "modules" d) = JList entries →
     forallb extra_well_typed entries = true →
     ∃ rs, parse_extra_registry (JDict d) registry_url = Ok rs
           ∧ Forall2 (λ entry r, extra_record entry registry_url = Ok r)
                     (filter (λ e, extra_complete e = true) entries) rs
           ∧ length rs = length (filter (λ e, extra_complete e = true) entries))
  ∧ (∀ d hs entries registry_url,
       default (JList []) (dict_lookup "hosts" d) = JList hs →
       default (JList []) (dict_lookup "downloads" d) = JList entries →
       forallb host_well_typed hs = true →
       forallb zipped_well_typed entries = true →
       ∃ hosts rss,
         build_hosts hs ∅ = Ok hosts
         ∧ parse_zipped_registry (JDict d) registry_url = Ok (concat rss)
         ∧ Forall2 (λ entry rs,
                      zipped_entry hosts registry_url entry = Ok rs
                      ∧ length rs
                        = if zipped_complete entry
                          then length (filter (λ t, resolvable hosts t = true)
                                              (templates_of entry))
                          else 0) entries rss).
Proof.
  split.
  - intros d entries registry_url Hmodules Hty.
    destruct (extra_loop_spec registry_url entries Hty) as (rs & Hrs & Hall).
    exists rs. unfold parse_extra_registry. cbn [py_get mbind result_bind].
    rewrite Hmodules. cbn [py_iter]. split; [done|]. split; [done|].
    symmetry. by eapply Forall2_length.
  - intros d hs entries registry_url Hhosts Hdownloads Hhs Hty.
    destruct (build_hosts_ok hs ∅ Hhs) as (hosts & Hbuild & Hstr);
      [apply map_Forall_empty|].
    destruct (zipped_loop_spec hosts registry_url entries Hstr Hty) as (rss & Hloop & Hall).
    exists hosts, rss. unfold parse_zipped_registry. cbn [py_get mbind result_bind].
    rewrite Hhosts. cbn [py_iter mbind result_bind]. rewrite Hbuild.
    cbn [mbind result_bind]. rewrite Hdownloads. cbn [py_iter mbind result_bind].
    by rewrite Hloop.
Qed.

Lemma parsers_skip_incomplete_entries_witness :
  (∃ rs, parse_extra_registry (JDict [("modules", JList ten_entries)]) "http://src/x.extra"
         = Ok rs
         ∧ Forall2 (λ entry r, extra_record entry "http://src/x.extra" = Ok r)
                   (filter (λ e, extra_complete e = true) ten_entries) rs
         ∧ length rs = length (filter (λ e, extra_complete e = true) ten_entries))
  ∧ (∃ hosts rss,
       build_hosts [JDict [("alias", JStr "h1"); ("path", JStr "http://x/%s")];
                    JDict [("alias", JStr "h2"); ("path", JStr "http://y/%s")]] ∅ = Ok hosts
       ∧ parse_zipped_registry two_mirrors_catalog "http://src/registry.zip" = Ok (concat rss)
       ∧ Forall2 (λ entry rs,
                    zipped_entry hosts "http://src/registry.zip" entry = Ok rs
                    ∧ length rs
                      = if zipped_complete entry
                        then length (filter (λ t, resolvable hosts t = true)
                                            (templates_of entry))
                        else 0) [two_mirrors_entry] rss).
Proof.
  split.
  - apply (proj1 parsers_skip_incomplete_entries); reflexivity.
  - apply (proj2 parsers_skip_incomplete_entries); reflexivity.
Defined.

(** Property P6 on a flat catalog: ten entries, three of them without an
    update date, give the seven records of the others, in their order. *)
Example ten_entries_seven_records :
  ∃ rs, parse_extra_registry (JDict [("modules", JList ten_entries)]) "http://src/x.extra"
        = Ok rs
        ∧ ModuleRecord.name <$> rs
          = [JStr "a"; JStr "b"; JStr "d"; JStr "e"; JStr "g"; JStr "h"; JStr "j"].
Proof. eexists. split; reflexivity. Qed.

(** C7 as stated fails of both parsers: an archive-style entry that misses
    nothing and names two mirrors yields two records, and a flat entry whose
    file name is null ends the parse with an exception, which loses the
    record of the entry before it as well. *)
Lemma parsers_skip_incomplete_entries_counterexample :
  ¬ one_record_per_complete_entry parse_zipped_registry "downloads" zipped_complete
  ∧ ¬ one_record_per_complete_entry parse_extra_registry "modules" extra_complete.
Proof.
  split; intros Hclaim.
  - destruct (Hclaim [("hosts", JList [JDict [("alias", JStr "h1"); ("path", JStr "http://x/%s")];
                                      JDict [("alias", JStr "h2"); ("path", JStr "http://y/%s")]]);
                      ("downloads", JList [two_mirrors_entry])]
                [two_mirrors_entry] "http://src/registry.zip" eq_refl) as (rs & Hrs & Hlen).
    vm_compute in Hrs. injection Hrs as <-. vm_compute in Hlen. discriminate.
  - destruct (Hclaim [("modules",
                       JList [JDict [("download_url", JStr "http://x/kjv.zip");
                                     ("file_name", JStr "kjv");
                                     ("description", JStr "King James");
                                     ("update_date", JStr "2020-01-01")];
                              JDict [("download_url", JStr "http://x/web.zip");
                                     ("file_name", JNull);
                                     ("description", JStr "World English");
                                     ("update_date", JStr "2020-01-01")]])]
                _ "http://src/x.extra" eq_refl) as (rs & Hrs & _).
    vm_compute in Hrs. discriminate.
Qed.

Example two_mirrors_two_records :
  ModuleRecord.download_url
    <$> default [] (match parse_zipped_registry two_mirrors_catalog "http://src/registry.zip" with
                    | Ok rs => Some rs
                    | Raise _ => None
                    end)
  = ["http://x/kjv.zip"; "http://y/kjv.zip"].
Proof. reflexivity. Qed.

Example null_file_name_aborts :
  parse_extra_registry null_file_name_catalog "http://src/x.extra" = Raise AttributeError.
Proof. reflexivity. Qed.

(** ** Commands: what they leave alone *)

Section CommandFacts.
Context {E : Type} `{Env E}.

Lemma cmd_bind_inv {A B} (m : cmd E A) (f : A → cmd E B) w r w' :
  (m ≫= f) w = (r, w') →
  (∃ a w1, m w = (Ok a, w1) ∧ f a w1 = (r, w'))
  ∨ (∃ e, m w = (Raise e, w') ∧ r = Raise e).
Proof.
  unfold mbind, cmd_bind. destruct (m w) as [[a|e] w1].
  - intros Hf. left. eauto.
  - intros [= <- <-]. right. eauto.
Qed.

Lemma same_stores_refl (w : world E) : same_stores w w.
Proof. by repeat split. Qed.

Lemma same_stores_trans (w1 w2 w3 : world E) :
  same_stores w1 w2 → same_stores w2 w3 → same_stores w1 w3.
Proof. intros (? & ? & ?) (? & ? & ?). repeat split; congruence. Qed.

Lemma keeps_stores_bind {A B} (m : cmd E A) (f : A → cmd E B) :
  keeps_stores m → (∀ a, keeps_stores (f a)) → keeps_stores (m ≫= f).
Proof.
  intros Hm Hf w r w' [(a & w1 & Hmw & Hfw)|(e & Hmw & _)]%cmd_bind_inv.
  - eapply same_stores_trans; [by eapply Hm | by eapply Hf].
  - by eapply Hm.
Qed.

Lemma keeps_stores_ret {A} (a : A) : keeps_stores (mret a : cmd E A).
Proof. intros w r w' [= <- <-]. apply same_stores_refl. Qed.

Lemma keeps_stores_raise {A} (e : exn) : keeps_stores (raise e : cmd E A).
Proof. intros w r w' [= <- <-]. apply same_stores_refl. Qed.

Lemma keeps_stores_print msg : keeps_stores (print msg : cmd E unit).
Proof. by intros w r w' [= <- <-]. Qed.

Lemma keeps_stores_unless_quiet quiet msg : keeps_stores (unless_quiet quiet msg : cmd E unit).
Proof. destruct quiet; [apply keeps_stores_ret | apply keeps_stores_print]. Qed.

Lemma keeps_stores_get_world : keeps_stores (get_world : cmd E (world E)).
Proof. intros w r w' [= <- <-]. apply same_stores_refl. Qed.

Lemma keeps_stores_env_bool op : keeps_stores (env_bool op : cmd E bool).
Proof. intros w r w'. unfold env_bool. destruct (op (env w)). by intros [= <- <-]. Qed.

Lemma keeps_stores_env_try {A} op : keeps_stores (env_try op : cmd E A).
Proof. intros w r w'. unfold env_try. destruct (op (env w)). by intros [= <- <-]. Qed.

Lemma keeps_stores_env_read {A} (f : E → A) : keeps_stores (env_read f).
Proof. intros w r w' [= <- <-]. apply same_stores_refl. Qed.

Lemma keeps_stores_env_ask {A} (f : E → result A) : keeps_stores (env_ask f).
Proof. intros w r w' [= <- <-]. apply same_stores_refl. Qed.

(** *** Removing files *)

Lemma keeps_stores_remove_path file_path : keeps_stores (remove_path file_path).
Proof.
  unfold remove_path. apply keeps_stores_bind; [apply keeps_stores_env_ask|].
  intros [|]; [|apply keeps_stores_ret].
  apply keeps_stores_bind; [apply keeps_stores_get_world|].
  intros w0. repeat case_match;
    auto using keeps_stores_env_bool, keeps_stores_ret.
Qed.

(** A path that does not exist is passed over: nothing is done, and the
    loop goes on. *)
Lemma remove_path_missing file_path (w : world E) :
  path_exists file_path (env w) = Ok false → remove_path file_path w = (Ok true, w).
Proof.
  intros Hmissing. unfold remove_path, mbind, cmd_bind, env_ask. by rewrite Hmissing.
Qed.

(** Removal fails only on a path that exists, when [unlink] or [rmtree]
    raises. *)
Lemma remove_path_fails file_path (w w' : world E) :
  remove_path file_path w = (Ok false, w') ↔
  path_exists file_path (env w) = Ok true
  ∧ ((path_is_file file_path (env w) = true
      ∧ ∃ e, path_unlink file_path (env w) = (false, e) ∧ w' = set_env e w)
     ∨ (path_is_file file_path (env w) = false ∧ path_is_dir file_path (env w) = true
        ∧ ∃ e, rmtree file_path (env w) = (false, e) ∧ w' = set_env e w)).
Proof.
  unfold remove_path, mbind, cmd_bind, env_bool, env_ask. simpl.
  destruct (path_exists file_path (env w)) as [[|]|e0];
    [|by split; [|intros [? _]]..].
  destruct (path_is_file file_path (env w)).
  - destruct (path_unlink file_path (env w)) as [b e] eqn:Hunlink. split.
    + intros [= -> <-]. split; [done|]. left. eauto.
    + intros [_ [(_ & e' & [= -> ->] & ->)|([=] & _)]]. done.
  - destruct (path_is_dir file_path (env w)).
    + destruct (rmtree file_path (env w)) as [b e] eqn:Hrm. split.
      * intros [= -> <-]. split; [done|]. right. eauto.
      * intros [_ [([=] & _)|(_ & _ & e' & [= -> ->] & ->)]]. done.
    + split; [done|]. by intros [_ [([=] & _)|(_ & [=] & _)]].
Qed.

Lemma keeps_stores_remove_files quiet file_records :
  keeps_stores (remove_files quiet file_records).
Proof.
  induction file_records as [|f rest IH]; simpl; [apply keeps_stores_ret|].
  apply keeps_stores_bind; [apply keeps_stores_remove_path|].
  intros [|]; [done|].
  apply keeps_stores_bind; [apply keeps_stores_unless_quiet | intros; apply keeps_stores_ret].
Qed.

(** The loop stops with [false] at the first record whose file cannot be
    removed, after removing the files of the records before it. *)
Lemma remove_files_stops quiet before f after (w w1 w2 : world E) :
  remove_files quiet before w = (Ok true, w1) →
  remove_path (InstalledFile.file_path f) w1 = (Ok false, w2) →
  remove_files quiet (before ++ f :: after) w
  = (Ok false, if quiet then w2 else printed (ErrorRemoving (InstalledFile.file_path f)) w2).
Proof.
  revert w. induction before as [|g before IH]; intros w; simpl.
  - intros [= <-] Hf. unfold mbind, cmd_bind at 1. rewrite Hf. by destruct quiet.
  - unfold mbind, cmd_bind at 1 3.
    destruct (remove_path (InstalledFile.file_path g) w) as [[[|]|e] w0]; try done.
    + apply IH.
    + unfold mbind, cmd_bind. by destruct (unless_quiet _ _ _) as [[|] ?].
Qed.

(** When every file is missing the loop returns [true] and does nothing. *)
Lemma remove_files_all_missing quiet file_records (w : world E) :
  (∀ f, f ∈ file_records → path_exists (InstalledFile.file_path f) (env w) = Ok false) →
  remove_files quiet file_records w = (Ok true, w).
Proof.
  induction file_records as [|f rest IH]; simpl; [done|]. intros Hmissing.
  unfold mbind, cmd_bind at 1.
  rewrite remove_path_missing by (apply Hmissing, list_elem_of_here).
  apply IH. intros g Hg. by apply Hmissing, list_elem_of_further.
Qed.

(** A record whose file is missing when the loop reaches it is passed
    over: the loop goes on with the records after it, in the same world. *)
Lemma remove_files_passes_over quiet before f after (w w1 : world E) :
  remove_files quiet before w = (Ok true, w1) →
  path_exists (InstalledFile.file_path f) (env w1) = Ok false →
  remove_files quiet (before ++ f :: after) w = remove_files quiet after w1.
Proof.
  revert w. induction before as [|g before IH]; intros w; simpl.
  - intros [= <-] Hmissing. unfold mbind, cmd_bind at 1.
    by rewrite remove_path_missing.
  - unfold mbind, cmd_bind at 1 3.
    destruct (remove_path (InstalledFile.file_path g) w) as [[[|]|e] w0]; try done.
    + apply IH.
    + unfold mbind, cmd_bind. by destruct (unless_quiet _ _ _) as [[|] ?].
Qed.

End CommandFacts.

(** ** Remove *)

Section RemoveFacts.
Context {E : Type} `{Env E}.

(** [remove_module], case by case. *)
Lemma remove_module_run name quiet (w : world E) :
  remove_module name quiet w
  = match get_or_none (inv w) name with
    | None => (Ok false, if quiet then w else printed (NotInstalled name) w)
    | Some installed =>
        match remove_files quiet (files_of (inv w) installed) w with
        | (Ok true, w1) =>
            let w2 := set_inv (delete_instance (inv w1) installed) w1 in
            (Ok true, if quiet then w2 else printed (ModuleRemoved name) w2)
        | (Ok false, w1) => (Ok false, w1)
        | (Raise e, w1) => (Raise e, set_inv (inv w) w1)
        end
    end.
Proof.
  unfold remove_module, atomic, mbind, cmd_bind, get_world. simpl.
  destruct (get_or_none (inv w) name) as [installed|].
  - destruct (remove_files quiet (files_of (inv w) installed) w) as [[[|]|e] w1]; simpl.
    + by destruct quiet.
    + done.
    + done.
  - by destruct quiet.
Qed.


(** C2.  When the module is installed and removing one of its files fails,
    after the files of the records before it were removed, [remove_module]
    returns [False] and the inventory is what it was: the module row and
    every one of its file rows are still there, those of the files already
    deleted included. *)
Theorem remove_failure_keeps_inventory name quiet (w w1 w2 : world E)
    (installed : InstalledModule.t) (before after : list InstalledFile.t)
    (f : InstalledFile.t) :
  get_or_none (inv w) name = Some installed →
  files_of (inv w) installed = before ++ f :: after →
  remove_files quiet before w = (Ok true, w1) →
  remove_path (InstalledFile.file_path f) w1 = (Ok false, w2) →
  ∃ w', remove_module name quiet w = (Ok false, w')
        ∧ inv w' = inv w
        ∧ get_or_none (inv w') name = Some installed
        ∧ files_of (inv w') installed = before ++ f :: after.
Proof.
  intros Hinstalled Hfiles Hbefore Hf.
  pose proof (remove_files_stops quiet before f after w w1 w2 Hbefore Hf) as Hstop.
  rewrite <- Hfiles in Hstop.
  eexists. split.
  - rewrite remove_module_run, Hinstalled, Hstop. done.
  - assert (same_stores w w2) as (_ & Hinv & _).
    { apply (same_stores_trans w w1 w2).
      - exact (keeps_stores_remove_files _ _ _ _ _ Hbefore).
      - exact (keeps_stores_remove_path _ _ _ _ Hf). }
    assert (inv (if quiet then w2
                 else printed (ErrorRemoving (InstalledFile.file_path f)) w2) = inv w)
      as -> by by destruct quiet.
    done.
Qed.

(** C9.  A recorded path that is not on disk is no failure: it is passed
    over, the loop goes on with the next record, and removal fails only on a
    path that exists.  So when the module is installed and no file removal
    fails, [remove_module] returns [True] and deletes the module row with
    all its file rows; when none of the recorded paths exists it does so
    without touching the disk. *)
Theorem remove_skips_missing_files name quiet (w : world E) (installed : InstalledModule.t) :
  get_or_none (inv w) name = Some installed →
  (∀ file_path (w0 : world E),
     path_exists file_path (env w0) = Ok false → remove_path file_path w0 = (Ok true, w0))
  ∧ (∀ file_path (w0 w1 : world E),
       remove_path file_path w0 = (Ok false, w1) → path_exists file_path (env w0) = Ok true)
  ∧ (∀ before f after w1,
       files_of (inv w) installed = before ++ f :: after →
       remove_files quiet before w = (Ok true, w1) →
       path_exists (InstalledFile.file_path f) (env w1) = Ok false →
       remove_files quiet (files_of (inv w) installed) w = remove_files quiet after w1)
  ∧ (∀ w1, remove_files quiet (files_of (inv w) installed) w = (Ok true, w1) →
       ∃ w', remove_module name quiet w = (Ok true, w')
             ∧ inv w' = delete_instance (inv w) installed
             ∧ absent installed (inv w')
             ∧ env w' = env w1)
  ∧ ((∀ f, f ∈ files_of (inv w) installed →
           path_exists (InstalledFile.file_path f) (env w) = Ok false) →
     ∃ w', remove_module name quiet w = (Ok true, w')
           ∧ inv w' = delete_instance (inv w) installed
           ∧ absent installed (inv w')
           ∧ env w' = env w).
Proof.
  intros Hinstalled.
  assert (∀ w1, remove_files quiet (files_of (inv w) installed) w = (Ok true, w1) →
            ∃ w', remove_module name quiet w = (Ok true, w')
                  ∧ inv w' = delete_instance (inv w) installed
                  ∧ absent installed (inv w')
                  ∧ env w' = env w1) as Hok.
  { intros w1 Hfiles. eexists. split; [by rewrite remove_module_run, Hinstalled, Hfiles|].
    destruct (keeps_stores_remove_files _ _ _ _ _ Hfiles) as (_ & Hinv & _).
    assert (∀ w2 : world E, inv (if quiet then w2 else printed (ModuleRemoved name) w2) = inv w2)
      as Hq by by destruct quiet.
    rewrite Hq. simpl. rewrite Hinv. split; [done|]. split; [|by destruct quiet].
    split.
    - intros m' [Hm' _]%list_elem_of_filter. done.
    - intros f' [Hf' _]%list_elem_of_filter. done. }
  split; [apply remove_path_missing|]. split; [|split; [|split; [done|]]].
  - intros file_path w0 w1 Hfail. by apply remove_path_fails in Hfail as [? _].
  - intros before f after w1 -> Hbefore Hmissing. by apply remove_files_passes_over.
  - intros Hmissing. apply Hok. by apply remove_files_all_missing.
Qed.

End RemoveFacts.

Lemma remove_failure_keeps_inventory_witness :
  ∃ w', remove_module "kjv" true locked_world = (Ok false, w')
        ∧ inv w' = inv locked_world
        ∧ get_or_none (inv w') "kjv" = Some (installed_row 1 "KJV" "2020-01-01")
        ∧ files_of (inv w') (installed_row 1 "KJV" "2020-01-01")
          = [file_row 1 1 "KJV.SQLite3" "/m/KJV.SQLite3"]
            ++ file_row 2 1 "KJV.commentaries.SQLite3" "/m/KJV.commentaries.SQLite3" :: [].
Proof.
  eapply (remove_failure_keeps_inventory "kjv" true locked_world); reflexivity.
Defined.

(** Property P4, run: the first file is gone from the disk, the second could
    not be removed, and the inventory still has the module and both rows. *)
Example remove_with_locked_file :
  let '(r, w') := remove_module "kjv" false locked_world in
  r = Ok false
  ∧ sim_files (env w') = ["/m/KJV.commentaries.SQLite3"]
  ∧ inv w' = inv locked_world
  ∧ console w' = [ErrorRemoving "/m/KJV.commentaries.SQLite3"].
Proof. vm_compute. done. Qed.

Lemma remove_skips_missing_files_witness :
  ∃ w', remove_module "kjv" false missing_world = (Ok true, w')
        ∧ inv w' = delete_instance (inv missing_world) (installed_row 1 "KJV" "2020-01-01")
        ∧ absent (installed_row 1 "KJV" "2020-01-01") (inv w')
        ∧ env w' = env missing_world.
Proof.
  apply (proj2 (proj2 (proj2 (proj2 (remove_skips_missing_files "kjv" false missing_world
           (installed_row 1 "KJV" "2020-01-01") eq_refl))))).
  intros f Hf. vm_compute in Hf.
  apply elem_of_cons in Hf as [->|Hf]; [reflexivity|].
  apply elem_of_cons in Hf as [->|Hf]; [reflexivity|].
  by apply elem_of_nil in Hf.
Defined.

(** One file is missing and the other is there: it is removed, and so are
    the rows. *)
Example remove_with_one_missing_file :
  let '(r, w') := remove_module "kjv" false half_missing_world in
  r = Ok true ∧ sim_files (env w') = [] ∧ inv w' = {| modules := []; files := [] |}.
Proof. vm_compute. done. Qed.

Example remove_with_missing_files :
  let '(r, w') := remove_module "kjv" false missing_world in
  r = Ok true ∧ inv w' = {| modules := []; files := [] |}
  ∧ console w' = [ModuleRemoved "kjv"].
Proof. vm_compute. done. Qed.

(** ** Upgrade *)

Section UpgradeFacts.
Context {E : Type} `{Env E}.





End UpgradeFacts.


(** Property P7, run on a batch: the module whose file is locked stays at
    its version of 2020 although one of 2021 is cached, and the loop goes on
    to the next name. *)
Example upgrade_with_locked_file :
  let '(r, w') := upgrade ["KJV"; "WEB"] false locked_world in
  r = Ok tt
  ∧ InstalledModule.update_date <$> modules (inv w') = ["2020-01-01"]
  ∧ console w' = [NotInstalled "WEB"; FoundToUpgrade 1; Upgrading "KJV"; FailedToRemoveOld "KJV"].
Proof. vm_compute. done. Qed.

Example upgrade_batch_goes_on :
  let '(r, w') := upgrade_loop ["KJV"; "WEB"] locked_world in
  r = Ok tt
  ∧ console w' = [Upgrading "KJV"; FailedToRemoveOld "KJV";
                  Upgrading "WEB"; FailedToRemoveOld "WEB"].
Proof. vm_compute. done. Qed.

(** With the file removable, the same upgrade removes the old version and
    installs the latest. *)
Example upgrade_succeeds :
  let '(r, w') := upgrade [] true sample_world in
  r = Ok tt
  ∧ InstalledModule.update_date <$> modules (inv w') = ["2021-06-15"]
  ∧ InstalledFile.file_name <$> files (inv w') = ["KJV.SQLite3"; "KJV.commentaries.SQLite3"]
  ∧ console w' = [FoundToUpgrade 1; Upgrading "KJV";
                  SuccessfullyInstalled "KJV" "2021-06-15" 2].
Proof. vm_compute. done. Qed.

(** ** Install *)

Lemma next_id_fresh ids x : x ∈ ids → x < next_id ids.
Proof.
  unfold next_id. induction ids as [|y ids IH]; [by intros ?%elem_of_nil|].
  intros [->|Hx]%elem_of_cons; simpl; [lia|]. specialize (IH Hx). lia.
Qed.

Section InstallFacts.
Context {E : Type} `{Env E}.

Lemma create_files_ok module items : ∀ (w w' : world E),
  create_files module items w = (Ok tt, w') →
  modules (inv w') = modules (inv w)
  ∧ ∃ rows, files (inv w') = files (inv w) ++ rows
            ∧ file_item <$> rows = items
            ∧ Forall (λ f, InstalledFile.module f = InstalledModule.id module) rows.
Proof.
  induction items as [|[fname fpath] items IH]; intros w w'; simpl.
  - intros [= <-]. split; [done|]. exists []. by rewrite app_nil_r.
  - intros [([] & w1 & Hcreate & Hrest)|(e & _ & [=])]%cmd_bind_inv.
    unfold InstalledFile_create in Hcreate.
    destruct (insert_file_fails _ _); [done|]. injection Hcreate as <-.
    apply IH in Hrest as (Hmodules & rows & Hfiles & Hitems & Hrows). simpl in *.
    split; [done|]. eexists (_ :: rows). rewrite Hfiles, <- app_assoc. split; [done|].
    split; [by rewrite fmap_cons, Hitems|]. by constructor.
Qed.

(** The atomic block of lines 586-589: an exception leaves the inventory as
    it was; a normal end leaves the module row and its file rows. *)
Lemma record_install_spec mod_ items (w : world E) r w' :
  record_install mod_ items w = (r, w') →
  match r with
  | Raise e => inv w' = inv w
  | Ok _ => ∃ m, row_of mod_ m ∧ installed_together (inv w) (inv w') m items
  end.
Proof.
  unfold record_install, atomic.
  match goal with
  | |- context [match ?body w with _ => _ end] =>
      destruct (body w) as [[[]|e] w1] eqn:Hbody
  end; intros [= <- <-]; [|done].
  revert Hbody. unfold mbind, cmd_bind at 1. cbn [env_read].
  intros [(m & w2 & Hcreate & Hfiles)|(e & _ & [=])]%cmd_bind_inv.
  unfold InstalledModule_create in Hcreate. destruct (existsb _ _); [done|].
  injection Hcreate as <- <-.
  apply create_files_ok in Hfiles as (Hmodules & rows & Hfiles & Hitems & Hrows).
  eexists. split; last (split; [exact Hmodules | by exists rows]). done.
Qed.

Lemma keeps_stores_ensure_downloaded name mod_ zip_path :
  keeps_stores (ensure_downloaded name mod_ zip_path).
Proof.
  intros w r w'. unfold ensure_downloaded, env_try.
  destruct (path_exists zip_path (env w)) as [[|]|e0];
    [intros [= <- <-]; apply same_stores_refl| |intros [= <- <-]; apply same_stores_refl].
  destruct (fetch_to _ _ _) as [[[]|e] e']; [by intros [= <- <-]|].
  destruct e; by intros [= <- <-].
Qed.

Lemma keeps_stores_extract_members zip_path module_path clean_module_name members :
  ∀ final_files_to_db,
    keeps_stores (extract_members zip_path module_path clean_module_name members
                    final_files_to_db).
Proof.
  induction members as [|member rest IH]; intros final; simpl; [apply keeps_stores_ret|].
  destruct (is_dir member); [apply IH|].
  apply keeps_stores_bind; [apply keeps_stores_env_try|]. intros _.
  destruct module_path as [module_path'|]; [|apply keeps_stores_raise].
  destruct (negb _); [|apply IH].
  apply keeps_stores_bind; [apply keeps_stores_env_ask|]. intros ex.
  apply keeps_stores_bind; [|intros _; apply IH].
  destruct ex; [apply keeps_stores_env_try | apply keeps_stores_ret].
Qed.

(** C1.  The rows of an install are written as one unit.  When the module
    row has been created and the creation of one of the file rows raises,
    the atomic block raises too and leaves the inventory as it was before
    the install: no module row has the module's name and, if no file row
    was an orphan before, no row refers to the new module.  When the block
    ends normally, the module row and one file row for each file are there
    together.  For [install_single_module] as a whole: unless it returns
    [True], the inventory is unchanged. *)
Theorem install_is_atomic :
  (∀ (mod_ : CachedModule.t) (items : list (string * string)) (w w1 w2 : world E)
     (m : InstalledModule.t) (e : exn),
     InstalledModule_create (CachedModule.name mod_) (CachedModule.language mod_)
       (CachedModule.description mod_) (CachedModule.update_date mod_) (now (env w)) w
     = (Ok m, w1) →
     create_files m items w1 = (Raise e, w2) →
     ∃ w', record_install mod_ items w = (Raise e, w')
           ∧ inv w' = inv w
           ∧ (∀ m', m' ∈ modules (inv w') →
                    InstalledModule.name m' ≠ CachedModule.name mod_)
           ∧ (no_orphans (inv w) → absent m (inv w')))
  ∧ (∀ (mod_ : CachedModule.t) (items : list (string * string)) (w w' : world E),
       record_install mod_ items w = (Ok tt, w') →
       ∃ m, row_of mod_ m ∧ installed_together (inv w) (inv w') m items)
  ∧ (∀ name version (w : world E) r w',
       install_single_module name version w = (r, w') →
       match r with
       | Ok true =>
           ∃ mod_ m items,
             select_module (cache w) name version = Some mod_
             ∧ row_of mod_ m ∧ installed_together (inv w) (inv w') m items
       | _ => inv w' = inv w
       end).
Proof.
  split; [|split].
  - intros mod_ items w w1 w2 m e Hcreate Hfiles.
    exists (set_inv (inv w) w2). split.
    { unfold record_install, atomic, mbind, cmd_bind at 1. cbn [env_read].
      unfold mbind, cmd_bind. by rewrite Hcreate, Hfiles. }
    split; [done|]. simpl.
    unfold InstalledModule_create in Hcreate.
    destruct (existsb _ _) eqn:Hname; [done|]. injection Hcreate as <- <-.
    split.
    + intros m' Hm' Heq.
      assert (existsb (λ m0, String.eqb (InstalledModule.name m0) (CachedModule.name mod_))
                      (modules (inv w)) = true); [|congruence].
      apply existsb_exists. exists m'. split; [by apply list_elem_of_In|].
      by apply String.eqb_eq.
    + intros Horphans. split; simpl.
      * intros m' Hm'. apply Nat.lt_neq, next_id_fresh. by apply list_elem_of_fmap_2.
      * intros f (m' & Hm' & <-)%Horphans.
        apply Nat.lt_neq, next_id_fresh. by apply list_elem_of_fmap_2.
  - intros mod_ items w w' Hrecord. by apply record_install_spec in Hrecord.
  - intros name version w r w'. unfold install_single_module.
    unfold mbind, cmd_bind at 1. cbn [get_world].
    destruct (select_module (cache w) name version) as [mod_|] eqn:Hselect.
    2: { by intros [= <- <-]. }
    intros [(downloaded & w1 & Hdl & Hrest)|(e & Hdl & ->)]%cmd_bind_inv.
    2: { by apply keeps_stores_ensure_downloaded in Hdl as (_ & ? & _). }
    apply keeps_stores_ensure_downloaded in Hdl as (_ & Hinv1 & _).
    destruct downloaded; [|by injection Hrest as <- <-].
    apply cmd_bind_inv in Hrest as [(members & w2 & Hzip & Hrest)|(e & Hzip & ->)].
    2: { apply keeps_stores_env_try in Hzip as (_ & ? & _). congruence. }
    apply keeps_stores_env_try in Hzip as (_ & Hinv2 & _).
    apply cmd_bind_inv in Hrest as [(items & w3 & Hextract & Hrest)|(e & Hextract & ->)].
    2: { apply keeps_stores_extract_members in Hextract as (_ & ? & _). congruence. }
    apply keeps_stores_extract_members in Hextract as (_ & Hinv3 & _).
    apply cmd_bind_inv in Hrest as [([] & w4 & Hrecord & Hrest)|(e & Hrecord & ->)].
    2: { apply record_install_spec in Hrecord. congruence. }
    apply record_install_spec in Hrecord as (m & Hrow & Htogether).
    injection Hrest as <- <-. exists mod_, m, items.
    assert (inv w3 = inv w) as Hinv by congruence. rewrite Hinv in Htogether. done.
Qed.

End InstallFacts.

Lemma install_is_atomic_witness :
  ∃ w', record_install (cached "KJV" "2021-06-15" "http://x/KJV-2021.zip" "bible")
          [("KJV.SQLite3", "/m/KJV.SQLite3");
           ("KJV.commentaries.SQLite3", "/m/KJV.commentaries.SQLite3")] refusing_world
        = (Raise OperationalError, w')
        ∧ inv w' = inv refusing_world
        ∧ (∀ m', m' ∈ modules (inv w') → InstalledModule.name m' ≠ "KJV")
        ∧ (no_orphans (inv refusing_world) →
           absent (installed_row 1 "KJV" "2021-06-15") (inv w')).
Proof.
  eapply (proj1 install_is_atomic
            (cached "KJV" "2021-06-15" "http://x/KJV-2021.zip" "bible")); reflexivity.
Defined.

(** Property P3, run: the archive is fetched and unpacked, the second file
    row is refused, and the inventory has neither the module row nor the
    first file row. *)
Example install_with_refused_file_row :
  let '(r, w') := install ["kjv"] None false refusing_world in
  r = Raise OperationalError
  ∧ inv w' = {| modules := []; files := [] |}
  ∧ sim_files (env w') = ["/m/KJV.commentaries.SQLite3"; "/m/KJV.SQLite3"]
  ∧ console w' = [Processing "kjv"].
Proof. vm_compute. done. Qed.

(** The same install with a database that accepts every row. *)
Example install_succeeds :
  let '(r, w') := install ["kjv"] None false
                    (set_env (env missing_world) refusing_world) in
  r = Ok tt
  ∧ (λ m, (InstalledModule.name m, InstalledModule.update_date m)) <$> modules (inv w')
    = [("KJV", "2021-06-15")]
  ∧ file_item <$> files (inv w')
    = [("KJV.SQLite3", "/m/KJV.SQLite3");
       ("KJV.commentaries.SQLite3", "/m/KJV.commentaries.SQLite3")]
  ∧ console w' = [Processing "kjv"; SuccessfullyInstalled "KJV" "2021-06-15" 2].
Proof. vm_compute. done. Qed.

(** ** The install command and a version given for several modules *)

Section InstallCommandFacts.
Context {E : Type} `{Env E}.

(** C10.  When a non-empty version is given and the names, once cleaned, are
    more than one, the command prints one message and returns: the outside
    world, the cache, the inventory and the configuration are what they
    were. *)
Theorem install_rejects_version_for_batch names version reinstall (w : world E) :
  truthy_str version = true →
  1 < length (process_module_names names) →
  ∃ msg, install names version reinstall w = (Ok tt, printed msg w)
         ∧ (msg = VersionNeedsSingleModule ∨ msg = ModulePathNotSet)
         ∧ env (printed msg w) = env w
         ∧ cache (printed msg w) = cache w
         ∧ inv (printed msg w) = inv w.
Proof.
  intros Hversion Hmany%Nat.ltb_lt.
  unfold install, use_installed_db, mbind, cmd_bind. cbn [get_world].
  destruct (truthy_str (module_path w)).
  - exists VersionNeedsSingleModule. unfold install_body, mbind, cmd_bind. cbn [get_world].
    rewrite Hversion, Hmany. simpl. eauto 10.
  - exists ModulePathNotSet. simpl. eauto 10.
Qed.

End InstallCommandFacts.

Lemma install_rejects_version_for_batch_witness :
  ∃ msg, install ["kjv, web"] (Some "2021-06-15") false sample_world
         = (Ok tt, printed msg sample_world)
         ∧ (msg = VersionNeedsSingleModule ∨ msg = ModulePathNotSet)
         ∧ env (printed msg sample_world) = env sample_world
         ∧ cache (printed msg sample_world) = cache sample_world
         ∧ inv (printed msg sample_world) = inv sample_world.
Proof.
  apply (install_rejects_version_for_batch ["kjv, web"] (Some "2021-06-15") false sample_world).
  - reflexivity.
  - vm_compute. lia.
Defined.

(** Names may come separated by commas or as separate arguments, with
    quotes and blanks around them. *)
Example process_module_names_ex :
  process_module_names ["kjv, 'web'"; " ,asv,"] = ["kjv"; "web"; "asv"].
Proof. reflexivity. Qed.

(** An empty version counts as no version: the batch is installed. *)
Example empty_version_is_no_version :
  let '(r, w') := install ["kjv"; "web"] (Some EmptyString) false
                    (set_env (env missing_world) refusing_world) in
  r = Ok tt
  ∧ console w' = [Processing "kjv"; SuccessfullyInstalled "KJV" "2021-06-15" 2;
                  Processing "web"; NotFoundInCache "web"].
Proof. vm_compute. done. Qed.

(** * Further properties *)

(** ** Module names from the command line *)

Lemma split_nonempty c s : Py.split c s ≠ [].
Proof.
  destruct s as [|a s]; simpl; [done|].
  destruct (Ascii.eqb a c); [done|]. by destruct (Py.split c s).
Qed.

(** Splitting at a separator distributes over joining with it. *)
Lemma split_app_sep c a b :
  Py.split c (a +:+ String c b) = Py.split c a ++ Py.split c b.
Proof.
  induction a as [|x a IH]; simpl.
  - by rewrite Ascii.eqb_refl.
  - rewrite IH. destruct (Ascii.eqb x c); [done|].
    pose proof (split_nonempty c a). by destruct (Py.split c a).
Qed.

Lemma split_no_sep c s p : p ∈ Py.split c s → occurs c p = false.
Proof.
  revert p. induction s as [|a s IH]; intros p; simpl.
  - by intros ->%list_elem_of_singleton.
  - destruct (Ascii.eqb a c) eqn:Hac.
    + intros [->|Hp]%elem_of_cons; [done | by apply IH].
    + pose proof (split_nonempty c s).
      destruct (Py.split c s) as [|q qs]; [done|].
      intros [->|Hp]%elem_of_cons.
      * simpl. rewrite Hac. apply IH, list_elem_of_here.
      * by apply IH, list_elem_of_further.
Qed.

Lemma occurs_lstrip_by p c s : occurs c s = false → occurs c (Py.lstrip_by p s) = false.
Proof.
  induction s as [|a s IH]; simpl; [done|].
  intros [Ha Hs]%orb_false_iff. destruct (p a); [by apply IH|].
  simpl. by rewrite Ha, Hs.
Qed.

Lemma occurs_rstrip_by p c s : occurs c s = false → occurs c (Py.rstrip_by p s) = false.
Proof.
  induction s as [|a s IH]; simpl; [done|].
  intros [Ha Hs]%orb_false_iff. specialize (IH Hs).
  destruct (Py.rstrip_by p s) as [|b r].
  - destruct (p a); [done|]. simpl. by rewrite Ha.
  - simpl in *. by rewrite Ha, IH.
Qed.

Lemma occurs_strip_by p c s : occurs c s = false → occurs c (Py.strip_by p s) = false.
Proof. intros Hs. by apply occurs_rstrip_by, occurs_lstrip_by. Qed.

Lemma first_char_lstrip_by p s a :
  first_char (Py.lstrip_by p s) = Some a → p a = false.
Proof.
  induction s as [|b s IH]; simpl; [done|].
  destruct (p b) eqn:Hb; [done|]. simpl. by intros [= <-].
Qed.

Lemma first_char_rstrip_by p s a :
  first_char (Py.rstrip_by p s) = Some a → first_char s = Some a.
Proof.
  destruct s as [|b s]; simpl; [done|].
  destruct (Py.rstrip_by p s); [by destruct (p b)|done].
Qed.

Lemma last_char_rstrip_by p s a :
  last_char (Py.rstrip_by p s) = Some a → p a = false.
Proof.
  induction s as [|b s IH]; simpl; [done|].
  destruct (Py.rstrip_by p s) as [|c r] eqn:Hr.
  - destruct (p b) eqn:Hb; [done|]. simpl. by intros [= <-].
  - change (last_char (String b (String c r))) with
      (match last_char (String c r) with None => Some b | Some x => Some x end).
    destruct (last_char (String c r)) eqn:Hl; [|simpl in Hl; by destruct (last_char r)].
    intros [= <-]. by apply IH.
Qed.

Lemma strip_by_ends p s :
  (∀ a, first_char (Py.strip_by p s) = Some a → p a = false)
  ∧ (∀ a, last_char (Py.strip_by p s) = Some a → p a = false).
Proof.
  unfold Py.strip_by. split; intros a Ha.
  - by apply first_char_rstrip_by, first_char_lstrip_by in Ha.
  - by apply last_char_rstrip_by in Ha.
Qed.

(** X1.  Every name that [process_module_names] returns is non-empty, holds
    no comma, and neither begins nor ends with a quote character. *)
Theorem process_module_names_clean (names_tuple : list string) (n : string) :
  n ∈ process_module_names names_tuple →
  n ≠ EmptyString
  ∧ occurs "," n = false
  ∧ ∀ q, q ∈ quotes → first_char n ≠ Some q ∧ last_char n ≠ Some q.
Proof.
  unfold process_module_names.
  intros (name & _ & Hn)%list_elem_of_In%in_flat_map.
  apply list_elem_of_In, list_elem_of_filter in Hn as [Hne Hn].
  apply list_elem_of_In, in_map_iff in Hn as (part & <- & Hpart%list_elem_of_In).
  split; [done|]. split.
  - apply occurs_strip_by, occurs_strip_by. by eapply split_no_sep.
  - intros q Hq.
    assert (existsb (Ascii.eqb q) quotes = true) as Hquote.
    { apply existsb_exists. exists q. split; [by apply list_elem_of_In|].
      apply Ascii.eqb_refl. }
    destruct (strip_by_ends (λ c, existsb (Ascii.eqb c) quotes) (Py.strip part))
      as [Hfirst Hlast].
    unfold Py.strip_chars. fold quotes.
    split; intros Hc; [apply Hfirst in Hc | apply Hlast in Hc]; congruence.
Qed.

Lemma process_module_names_clean_witness :
  "kjv" ≠ EmptyString
  ∧ occurs "," "kjv" = false
  ∧ ∀ q, q ∈ quotes → first_char "kjv" ≠ Some q ∧ last_char "kjv" ≠ Some q.
Proof.
  apply (process_module_names_clean [" 'kjv' , web"] "kjv").
  vm_compute. apply list_elem_of_here.
Defined.

Lemma process_module_names_app a b :
  process_module_names (a ++ b) = process_module_names a ++ process_module_names b.
Proof. unfold process_module_names. apply flat_map_app. Qed.

(** X2.  Two names joined by a comma in one argument are read as the two
    names given as separate arguments, wherever the argument stands. *)
Theorem process_module_names_comma (before after : list string) (a b : string) :
  process_module_names (before ++ (a +:+ "," +:+ b) :: after)
  = process_module_names (before ++ a :: b :: after).
Proof.
  rewrite !process_module_names_app. f_equal.
  change ((a +:+ "," +:+ b) :: after) with ([a +:+ "," +:+ b] ++ after).
  change (a :: b :: after) with ([a; b] ++ after).
  rewrite !process_module_names_app. f_equal.
  unfold process_module_names. simpl. rewrite !app_nil_r.
  change ("," +:+ b) with (String "," b).
  by rewrite split_app_sep, map_app, filter_app.
Qed.

(** ** Versions *)

Lemma insert_desc_elem d ds x : x ∈ insert_desc d ds ↔ x = d ∨ x ∈ ds.
Proof.
  induction ds as [|y ds IH]; simpl.
  - rewrite list_elem_of_singleton, elem_of_nil. tauto.
  - destruct (String.ltb y d); [by rewrite elem_of_cons|].
    destruct (String.eqb_spec y d) as [->|Hne].
    + rewrite elem_of_cons. tauto.
    + rewrite !elem_of_cons, IH. tauto.
Qed.

Lemma distinct_desc_elem ds x : x ∈ distinct_desc ds ↔ x ∈ ds.
Proof.
  induction ds as [|d ds IH]; simpl; [done|].
  by rewrite insert_desc_elem, elem_of_cons, IH.
Qed.

Lemma ltb_trans a b c :
  String.ltb a b = true → String.ltb b c = true → String.ltb a c = true.
Proof. intros Hab Hbc. eapply ltb_leb_trans; [done | by apply ltb_leb]. Qed.

Lemma ltb_total a b : String.ltb a b = false → String.eqb a b = false → String.ltb b a = true.
Proof.
  unfold String.ltb. rewrite (String.compare_antisym b a).
  destruct (String.compare a b) eqn:Hc; try done.
  apply String.compare_eq_iff in Hc as ->. by rewrite String.eqb_refl.
Qed.

Lemma insert_desc_descending d ds : descending ds → descending (insert_desc d ds).
Proof.
  induction ds as [|y ds IH]; simpl.
  - intros _. split; [by intros x ?%elem_of_nil | done].
  - intros [Hy Hds]. destruct (String.ltb y d) eqn:Hyd.
    + split; [|done]. intros x [->|Hx]%elem_of_cons; [done|].
      eapply ltb_trans; [by apply Hy | done].
    + destruct (String.eqb y d) eqn:Heq; [done|].
      split; [|by apply IH].
      intros x [->|Hx]%insert_desc_elem; [by apply ltb_total | by apply Hy].
Qed.

Lemma distinct_desc_descending ds : descending (distinct_desc ds).
Proof. induction ds as [|d ds IH]; simpl; [done | by apply insert_desc_descending]. Qed.

Lemma descending_NoDup ds : descending ds → NoDup ds.
Proof.
  induction ds as [|d ds IH]; simpl; [constructor|].
  intros [Hd Hds]. constructor; [|by apply IH].
  intros Hin%Hd. by rewrite ltb_irrefl in Hin.
Qed.

(** The head of a descending list is its greatest entry. *)
Lemma descending_head d ds x :
  descending (d :: ds) → x ∈ d :: ds → String.leb x d = true.
Proof.
  intros [Hd _] [->|Hx]%elem_of_cons; [apply leb_refl | by apply ltb_leb, Hd].
Qed.

Lemma versions_panel {E} name (w : world E) n lines :
  versions name w = VersionsPanel n lines →
  n = name
  ∧ lines.*1 = versions_query (cache w) name
  ∧ lines = (λ d, (d, bool_decide (InstalledModule.update_date
                                          <$> get_or_none (inv w) name = Some d)))
                <$> versions_query (cache w) name
  ∧ lines ≠ [].
Proof.
  unfold versions. destruct (negb _); [done|]. destruct (is_cache_empty w); [done|].
  destruct (versions_query (cache w) name) as [|d ds] eqn:Hq; [done|].
  intros [= <- <-]. split; [done|]. split; [|done].
  rewrite fmap_cons. simpl. f_equal. rewrite <- list_fmap_compose. apply list_fmap_id.
Qed.

Lemma versions_query_elem cache name v :
  v ∈ versions_query cache name ↔
  ∃ c, c ∈ cache ∧ ilike (CachedModule.name c) name = true ∧ CachedModule.update_date c = v.
Proof.
  unfold versions_query. rewrite distinct_desc_elem, list_elem_of_fmap. split.
  - intros (c & -> & [Hlike Hc]%list_elem_of_filter). eauto.
  - intros (c & Hc & Hlike & <-). exists c. split; [done|]. by apply list_elem_of_filter.
Qed.

(** X3.  [versions] lists every version of the module that the cache holds
    exactly once, the latest first, and marks a version as installed exactly
    when it is the version of the installed module. *)
Theorem versions_lists_each_version_once {E} (name : string) (w : world E)
    (n : string) (lines : list (string * bool)) :
  versions name w = VersionsPanel n lines →
  descending lines.*1
  ∧ NoDup lines.*1
  ∧ (∀ v, v ∈ lines.*1 ↔
          ∃ c, c ∈ cache w ∧ ilike (CachedModule.name c) name = true
               ∧ CachedModule.update_date c = v)
  ∧ (∀ v flag, (v, flag) ∈ lines →
       flag = true ↔
       ∃ m, get_or_none (inv w) name = Some m ∧ InstalledModule.update_date m = v).
Proof.
  intros (_ & Hdates & Hlines & _)%versions_panel.
  assert (descending lines.*1) as Hdesc.
  { rewrite Hdates. apply distinct_desc_descending. }
  split; [done|]. split; [by apply descending_NoDup|]. split.
  - intros v. rewrite Hdates. apply versions_query_elem.
  - intros v flag. rewrite Hlines. intros (d & [= -> ->] & _)%list_elem_of_fmap.
    rewrite bool_decide_eq_true. destruct (get_or_none (inv w) name) as [m|]; simpl.
    + split; [intros [= <-]; eauto | by intros (m' & [= <-] & <-)].
    + split; [done | by intros (m' & [=] & _)].
Qed.

Lemma versions_lists_each_version_once_witness :
  let lines := [("2021-06-15", false); ("2020-01-01", true); ("2019-12-31", false)] in
  descending lines.*1
  ∧ NoDup lines.*1
  ∧ (∀ v, v ∈ lines.*1 ↔
          ∃ c, c ∈ cache sample_world ∧ ilike (CachedModule.name c) "kjv" = true
               ∧ CachedModule.update_date c = v)
  ∧ (∀ v flag, (v, flag) ∈ lines →
       flag = true ↔
       ∃ m, get_or_none (inv sample_world) "kjv" = Some m
            ∧ InstalledModule.update_date m = v).
Proof.
  intros lines.
  apply (versions_lists_each_version_once "kjv" sample_world "kjv" lines).
  reflexivity.
Defined.

(** *** The row that an install selects *)

Lemma truthy_str_Some v : v ≠ EmptyString → truthy_str (Some v) = true.
Proof. intros Hv. simpl. apply negb_true_iff. by apply String.eqb_neq. Qed.

Lemma cached_version_Some cache name version c :
  cached_version cache name version = Some c →
  c ∈ cache ∧ ilike (CachedModule.name c) name = true ∧ CachedModule.update_date c = version.
Proof.
  unfold cached_version. intros [Hin [Hlike Hdate]%andb_true_iff]%find_some.
  split; [by apply list_elem_of_In|]. split; [done|]. by apply String.eqb_eq.
Qed.

Lemma cached_version_None cache name version c :
  cached_version cache name version = None →
  c ∈ cache → ilike (CachedModule.name c) name = true → CachedModule.update_date c ≠ version.
Proof.
  unfold cached_version. intros Hnone Hin%list_elem_of_In Hlike Hdate.
  apply (find_none _ _ Hnone) in Hin. rewrite Hlike, Hdate, String.eqb_refl in Hin. done.
Qed.

Lemma latest_cached_Some cache name c :
  c ∈ cache → ilike (CachedModule.name c) name = true →
  ∃ m, latest_cached cache name = Some m.
Proof.
  intros Hin Hlike. destruct (latest_cached cache name) as [m|] eqn:Hm; [eauto|].
  by rewrite (latest_cached_none _ _ _ Hm Hin) in Hlike.
Qed.

(** X4.  The versions that [versions] lists are the ones that [install] can
    be asked for: the first line is the version that an install without
    [--version] selects, and a non-empty version is listed exactly when an
    install with that [--version] finds a row, which then has that
    version. *)
Theorem versions_are_the_installable_versions {E} (name : string) (w : world E)
    (n : string) (lines : list (string * bool)) :
  versions name w = VersionsPanel n lines →
  (∃ c rest, select_module (cache w) name None = Some c
             ∧ lines.*1 = CachedModule.update_date c :: rest)
  ∧ (∀ v, v ≠ EmptyString →
          v ∈ lines.*1 ↔ ∃ c, select_module (cache w) name (Some v) = Some c)
  ∧ (∀ v c, v ≠ EmptyString → select_module (cache w) name (Some v) = Some c →
            CachedModule.update_date c = v ∧ ilike (CachedModule.name c) name = true).
Proof.
  intros (_ & Hdates & _ & Hne)%versions_panel.
  assert (∀ v, v ∈ lines.*1 ↔
               ∃ c, c ∈ cache w ∧ ilike (CachedModule.name c) name = true
                    ∧ CachedModule.update_date c = v) as Helem.
  { intros v. rewrite Hdates. apply versions_query_elem. }
  assert (descending lines.*1) as Hdesc.
  { rewrite Hdates. apply distinct_desc_descending. }
  split; [|split].
  - destruct (lines.*1) as [|v rest] eqn:Hl; [by destruct lines|].
    destruct (proj1 (Helem v)) as (c0 & Hc0 & Hlike0 & Hv0); [apply list_elem_of_here|].
    destruct (latest_cached_Some _ _ _ Hc0 Hlike0) as [c Hc].
    exists c, rest. split; [done|]. f_equal.
    destruct (latest_cached_is_latest _ _ _ Hc) as (Hin & Hlike & Hmax).
    apply String.leb_antisym.
    + rewrite <- Hv0. by apply Hmax.
    + apply (descending_head v rest); [done|]. apply Helem. eauto.
  - intros v Hv. unfold select_module. rewrite (truthy_str_Some v Hv). simpl.
    rewrite Helem. split.
    + intros (c & Hc & Hlike & Hdate).
      destruct (cached_version (cache w) name v) as [c'|] eqn:Hc'; [eauto|].
      by destruct (cached_version_None _ _ _ _ Hc' Hc Hlike).
    + intros (c & Hc%cached_version_Some). eauto.
  - intros v c Hv. unfold select_module. rewrite (truthy_str_Some v Hv). simpl.
    intros (_ & Hlike & Hdate)%cached_version_Some. done.
Qed.

Lemma versions_are_the_installable_versions_witness :
  let lines := [("2021-06-15", false); ("2020-01-01", true); ("2019-12-31", false)] in
  (∃ c rest, select_module (cache sample_world) "kjv" None = Some c
             ∧ lines.*1 = CachedModule.update_date c :: rest)
  ∧ (∀ v, v ≠ EmptyString →
          v ∈ lines.*1 ↔ ∃ c, select_module (cache sample_world) "kjv" (Some v) = Some c)
  ∧ (∀ v c, v ≠ EmptyString → select_module (cache sample_world) "kjv" (Some v) = Some c →
            CachedModule.update_date c = v ∧ ilike (CachedModule.name c) "kjv" = true).
Proof.
  intros lines.
  apply (versions_are_the_installable_versions "kjv" sample_world "kjv" lines).
  reflexivity.
Defined.

(** ** Info *)

Section InfoFacts.
Context {E : Type} `{Env E}.

Lemma outdated_named_one name (w : world E) :
  outdated_named [name] w
  = match get_or_none (inv w) name with
    | None => (Ok [], printed (NotInstalled name) w)
    | Some installed_mod =>
        match latest_cached (cache w) name with
        | None => (Ok [], printed (NotFoundInCache name) w)
        | Some latest =>
            (Ok (if String.ltb (InstalledModule.update_date installed_mod)
                               (CachedModule.update_date latest)
                 then [name] else []), w)
        end
    end.
Proof.
  cbn [outdated_named]. unfold mbind, cmd_bind at 1. cbn [get_world].
  destruct (get_or_none (inv w) name) as [installed_mod|]; [|done].
  destruct (latest_cached (cache w) name) as [latest|]; [|done].
  unfold mbind, cmd_bind. cbn [mret cmd_ret]. by destruct (String.ltb _ _).
Qed.

(** X5.  [info] and [upgrade] agree on a name that the command line
    cleaning of [upgrade] leaves as it is (no comma, no white space or quote
    around it); [info] takes its argument as given.  For such a name, when
    [info NAME] reports that an update is available, [upgrade NAME] finds one
    module to upgrade and starts the loop on the name, and the update that
    [info] names is the latest cached version, strictly later than the
    installed one.  When [info NAME] reports anything else, [upgrade NAME]
    only prints messages. *)
Theorem info_update_available_iff_upgrade_selects (name : string) (w : world E) :
  truthy_str (module_path w) = true →
  process_module_names [name] = [name] →
  (∀ latest v l installed_files,
     info name w = InfoPanel latest (InfoUpdateAvailable v l installed_files) →
     upgrade [name] false w = (_ ← print (FoundToUpgrade 1); upgrade_loop [name]) w
     ∧ is_latest (cache w) name latest
     ∧ l = CachedModule.update_date latest
     ∧ String.ltb v l = true
     ∧ ∃ installed, get_or_none (inv w) name = Some installed
                    ∧ InstalledModule.update_date installed = v)
  ∧ ((∀ latest v l installed_files,
        info name w ≠ InfoPanel latest (InfoUpdateAvailable v l installed_files)) →
     ∃ msgs, upgrade [name] false w = (Ok tt, printed_all msgs w)
             ∧ msgs ∈ [[CacheEmpty]; [NotInstalled name; AllUpToDate];
                       [NotFoundInCache name; AllUpToDate]; [AllUpToDate]]).
Proof.
  intros Hpath Hclean.
  assert (upgrade [name] false w
          = if is_cache_empty w then (Ok tt, printed CacheEmpty w)
            else (to_upgrade ← outdated_named [name]; upgrade_selected to_upgrade) w)
    as ->.
  { unfold upgrade, use_installed_db, mbind, cmd_bind at 1. cbn [get_world].
    rewrite Hpath. unfold upgrade_body, mbind, cmd_bind at 1. cbn [get_world andb].
    rewrite Hclean. by destruct (is_cache_empty w). }
  unfold info. rewrite Hpath. cbn [negb].
  destruct (is_cache_empty w).
  { split; [done|]. intros _. exists [CacheEmpty]. split; [done | set_solver]. }
  unfold mbind, cmd_bind at 1 3. rewrite outdated_named_one.
  destruct (latest_cached (cache w) name) as [latest|] eqn:Hlatest.
  2: { split; [done|]. intros _. destruct (get_or_none (inv w) name).
       - exists [NotFoundInCache name; AllUpToDate]. split; [done | set_solver].
       - exists [NotInstalled name; AllUpToDate]. split; [done | set_solver]. }
  destruct (get_or_none (inv w) name) as [installed|] eqn:Hinstalled.
  2: { split; [done|]. intros _.
       exists [NotInstalled name; AllUpToDate]. split; [done | set_solver]. }
  rewrite ltb_not_leb.
  destruct (String.leb (CachedModule.update_date latest)
                       (InstalledModule.update_date installed)) eqn:Hle; cbn [negb].
  - split; [done|]. intros _. exists [AllUpToDate]. split; [done | set_solver].
  - split.
    + intros latest' v l files [= <- <- <- <-]. split; [done|].
      split; [by apply latest_cached_is_latest|]. split; [done|].
      split; [by rewrite ltb_not_leb, Hle | eauto].
    + intros Hno. by destruct (Hno _ _ _ _ eq_refl).
Qed.

End InfoFacts.

Lemma info_update_available_iff_upgrade_selects_witness :
  (∀ latest v l installed_files,
     info "kjv" sample_world = InfoPanel latest (InfoUpdateAvailable v l installed_files) →
     upgrade ["kjv"] false sample_world
     = (_ ← print (FoundToUpgrade 1); upgrade_loop ["kjv"]) sample_world
     ∧ is_latest (cache sample_world) "kjv" latest
     ∧ l = CachedModule.update_date latest
     ∧ String.ltb v l = true
     ∧ ∃ installed, get_or_none (inv sample_world) "kjv" = Some installed
                    ∧ InstalledModule.update_date installed = v)
  ∧ ((∀ latest v l installed_files,
        info "kjv" sample_world
        ≠ InfoPanel latest (InfoUpdateAvailable v l installed_files)) →
     ∃ msgs, upgrade ["kjv"] false sample_world = (Ok tt, printed_all msgs sample_world)
             ∧ msgs ∈ [[CacheEmpty]; [NotInstalled "kjv"; AllUpToDate];
                       [NotFoundInCache "kjv"; AllUpToDate]; [AllUpToDate]]).
Proof.
  apply (info_update_available_iff_upgrade_selects "kjv" sample_world); reflexivity.
Defined.

Example info_of_sample_world :
  info "kjv" sample_world
  = InfoPanel (cached "KJV" "2021-06-15" "http://x/KJV-2021.zip" "bible")
      (InfoUpdateAvailable "2020-01-01" "2021-06-15"
         ["KJV.SQLite3"; "KJV.commentaries.SQLite3"]).
Proof. reflexivity. Qed.

(** Run: [info] looks for the name as it is given, [upgrade] cleans it
    first.  With a comma after the name, [info] finds nothing and [upgrade]
    does what it does for the name alone. *)
Example info_reads_the_name_as_given :
  info "kjv," sample_world = InfoNotFound "kjv,"
  ∧ upgrade ["kjv,"] false sample_world = upgrade ["kjv"] false sample_world
  ∧ process_module_names ["kjv,"] = ["kjv"].
Proof. split; [|split]; vm_compute; reflexivity. Qed.

(** ** Install: the module or version is not cached *)

Section InstallMoreFacts.
Context {E : Type} `{Env E}.

Lemma select_module_None cache name version :
  (∀ c, c ∈ cache → ilike (CachedModule.name c) name = true →
        truthy_str version = true ∧ Some (CachedModule.update_date c) ≠ version) →
  select_module cache name version = None.
Proof.
  intros Hnone. unfold select_module. destruct (truthy_str version) eqn:Hv.
  - destruct (cached_version cache name (default EmptyString version)) as [c|] eqn:Hc;
      [|done].
    apply cached_version_Some in Hc as (Hin & Hlike & Hdate).
    destruct (Hnone c Hin Hlike) as [_ Hne]. destruct version as [v|]; [|done].
    simpl in Hdate. congruence.
  - destruct (latest_cached cache name) as [c|] eqn:Hc; [|done].
    apply latest_cached_is_latest in Hc as (Hin & Hlike & _).
    by destruct (Hnone c Hin Hlike).
Qed.

(** X6.  When no cached row matches the name, or a version is asked for
    that no matching row has, [install_single_module] reports that the
    module is not in the cache and returns [False]: nothing is downloaded or
    unpacked and no store changes. *)
Theorem install_unknown_module_or_version (name : string) (version : option string)
    (w : world E) :
  (∀ c, c ∈ cache w → ilike (CachedModule.name c) name = true →
        truthy_str version = true ∧ Some (CachedModule.update_date c) ≠ version) →
  install_single_module name version w = (Ok false, printed (NotFoundInCache name) w).
Proof.
  intros Hnone. unfold install_single_module, mbind, cmd_bind at 1. cbn [get_world].
  by rewrite select_module_None.
Qed.

End InstallMoreFacts.

Lemma install_unknown_module_or_version_witness :
  install_single_module "kjv" (Some "2022-01-01") sample_world
  = (Ok false, printed (NotFoundInCache "kjv") sample_world).
Proof.
  apply (install_unknown_module_or_version "kjv" (Some "2022-01-01") sample_world).
  intros c Hc _. split; [done|].
  repeat (apply elem_of_cons in Hc as [->|Hc]; [done|]). by apply elem_of_nil in Hc.
Defined.

(** ** Install: modules that are installed already *)

Section InstallLoopFacts.
Context {E : Type} `{Env E}.

Lemma install_precheck_installed name (w : world E) installed :
  get_or_none (inv w) name = Some installed →
  install_precheck name false w = (Ok false, printed (AlreadyInstalled name) w).
Proof.
  intros Hinstalled. unfold install_precheck, atomic, mbind, cmd_bind. cbn [get_world].
  by rewrite Hinstalled.
Qed.

Lemma install_loop_all_installed module_names version : ∀ w : world E,
  (∀ n, n ∈ module_names → is_Some (get_or_none (inv w) n)) →
  ∃ w', install_loop module_names version false w = (Ok tt, w')
        ∧ env w' = env w ∧ same_stores w w'
        ∧ console w'
          = console w ++ flat_map (λ n, [Processing n; AlreadyInstalled n]) module_names.
Proof.
  induction module_names as [|name rest IH]; intros w Hall.
  { exists w. simpl. rewrite app_nil_r. repeat split; done. }
  destruct (Hall name) as [installed Hinstalled]; [apply list_elem_of_here|].
  destruct (IH (printed (AlreadyInstalled name) (printed (Processing name) w)))
    as (w' & Hrun & Henv & Hstores & Hconsole).
  { intros n Hn. apply Hall. by apply list_elem_of_further. }
  exists w'. split.
  - cbn [install_loop]. unfold mbind, cmd_bind at 1. cbn [print].
    unfold mbind, cmd_bind at 1.
    rewrite (install_precheck_installed name _ installed) by done.
    unfold mbind, cmd_bind at 1. cbn [mret cmd_ret]. exact Hrun.
  - split; [done|]. split; [done|]. rewrite Hconsole. simpl. by rewrite <- !app_assoc.
Qed.

(** X7.  Without [--reinstall], [install] leaves alone every module that is
    installed already: when each of the names matches an installed module,
    the command returns without touching the disk, the network, the cache or
    the inventory. *)
Theorem install_skips_installed_modules (names : list string) (version : option string)
    (w : world E) :
  (∀ n, n ∈ process_module_names names → is_Some (get_or_none (inv w) n)) →
  ∃ w', install names version false w = (Ok tt, w')
        ∧ env w' = env w ∧ cache w' = cache w ∧ inv w' = inv w.
Proof.
  intros Hall. unfold install, use_installed_db, mbind, cmd_bind. cbn [get_world].
  destruct (truthy_str (module_path w)); [|by eexists].
  unfold install_body, mbind, cmd_bind. cbn [get_world].
  destruct (_ && _); [by eexists|]. destruct (is_cache_empty w); [by eexists|].
  destruct (install_loop_all_installed _ version w Hall)
    as (w' & Hrun & Henv & (Hcache & Hinv & _) & _).
  by exists w'.
Qed.



End InstallLoopFacts.

Lemma install_skips_installed_modules_witness :
  ∃ w', install ["kjv"; "KJV"] None false sample_world = (Ok tt, w')
        ∧ env w' = env sample_world ∧ cache w' = cache sample_world
        ∧ inv w' = inv sample_world.
Proof.
  apply (install_skips_installed_modules ["kjv"; "KJV"] None sample_world).
  intros n Hn. vm_compute in Hn.
  repeat (apply elem_of_cons in Hn as [->|Hn]; [by eexists|]). by apply elem_of_nil in Hn.
Defined.


(** Run: the module with the locked file stays installed at its version. *)
Example reinstall_with_locked_file :
  let '(r, w') := install ["KJV"] None true locked_world in
  r = Ok tt
  ∧ inv w' = inv locked_world
  ∧ console w' = [Processing "KJV"; Reinstalling "KJV"; FailedToRemoveExisting "KJV"].
Proof. vm_compute. done. Qed.

(** ** Unpacking an archive *)

Lemma string_app_assoc (a b c : string) : (a +:+ b) +:+ c = a +:+ b +:+ c.
Proof.
  induction a as [|x a IH]; [done|].
  change (String x ((a +:+ b) +:+ c) = String x (a +:+ b +:+ c)). by f_equal.
Qed.

(** X9.  A member with the database suffix is always named after the
    module: the module name first, the suffix ".SQLite3" last, and between
    them, when the module name does not start with a dot, nothing or a dot
    and one of the known types. *)
Theorem database_files_are_named_after_the_module (original_filename module_name : string) :
  Py.endswith (Py.lower original_filename) ".sqlite3" = true →
  ∃ middle, target_name original_filename module_name
            = module_name +:+ middle +:+ ".SQLite3"
            ∧ (Py.startswith module_name "." = false →
               middle = EmptyString ∨ ∃ t, t ∈ module_types ∧ middle = "." +:+ t).
Proof.
  intros Hsuffix.
  assert (∃ middle, _reconstruct_sqlite_name original_filename module_name
                    = module_name +:+ middle +:+ ".SQLite3"
                    ∧ (middle = EmptyString ∨ ∃ t, t ∈ module_types ∧ middle = "." +:+ t))
    as (middle & Hname & Hmiddle).
  { unfold _reconstruct_sqlite_name. rewrite Hsuffix. cbn [negb].
    destruct (detected_type (Py.lower original_filename)) as [t|] eqn:Ht.
    - exists ("." +:+ t). split; [by rewrite string_app_assoc|]. right. exists t.
      split; [|done]. apply detected_type_first in Ht as (before & after & -> & _).
      apply elem_of_app. right. apply list_elem_of_here.
    - exists EmptyString. split; [done | by left]. }
  destruct (Py.startswith module_name ".") eqn:Hdot.
  - unfold target_name. rewrite Hname.
    destruct (_ && _) eqn:Hcase; [|by exists middle].
    apply andb_true_iff in Hcase as [<-%String.eqb_eq _].
    exists (module_name +:+ middle). split; [|done].
    by rewrite !string_app_assoc.
  - exists middle. split; [|done].
    destruct (target_name_spec original_filename module_name) as [_ Hspec].
    rewrite (Hspec Hsuffix Hdot). unfold _reconstruct_sqlite_name in Hname.
    rewrite Hsuffix in Hname. exact Hname.
Qed.

Lemma database_files_are_named_after_the_module_witness :
  ∃ middle, target_name "Module.de.dictionary.sqlite3" "ESV"
            = "ESV" +:+ middle +:+ ".SQLite3"
            ∧ (Py.startswith "ESV" "." = false →
               middle = EmptyString ∨ ∃ t, t ∈ module_types ∧ middle = "." +:+ t).
Proof.
  apply (database_files_are_named_after_the_module "Module.de.dictionary.sqlite3" "ESV").
  reflexivity.
Defined.

Lemma dict_set_keys_elem k v d k' : k' ∈ (dict_set k v d).*1 ↔ k' = k ∨ k' ∈ d.*1.
Proof.
  induction d as [|[k0 v0] d IH]; simpl.
  - rewrite list_elem_of_singleton, elem_of_nil. tauto.
  - destruct (String.eqb_spec k k0) as [->|Hne]; simpl.
    + rewrite !elem_of_cons. tauto.
    + rewrite !elem_of_cons, IH. tauto.
Qed.

Lemma dict_set_NoDup k v d : NoDup d.*1 → NoDup (dict_set k v d).*1.
Proof.
  induction d as [|[k0 v0] d IH]; simpl.
  - intros _. apply NoDup_singleton.
  - intros [Hk0 Hd]%NoDup_cons. destruct (String.eqb_spec k k0) as [->|Hne]; simpl.
    + by apply NoDup_cons.
    + apply NoDup_cons. split; [|by apply IH].
      rewrite dict_set_keys_elem. intros [?|?]; [congruence | done].
Qed.

Lemma dict_set_elem k v d k' v' :
  (k', v') ∈ dict_set k v d → (k' = k ∧ v' = v) ∨ (k', v') ∈ d.
Proof.
  induction d as [|[k0 v0] d IH]; simpl.
  - intros [= -> ->]%list_elem_of_singleton. by left.
  - destruct (String.eqb_spec k k0) as [->|Hne].
    + intros [[= -> ->]|Hin]%elem_of_cons; [by left|]. right. by apply list_elem_of_further.
    + intros [[= -> ->]|Hin]%elem_of_cons; [right; apply list_elem_of_here|].
      destruct (IH Hin) as [?|?]; [by left|]. right. by apply list_elem_of_further.
Qed.

Section ExtractFacts.
Context {E : Type} `{Env E}.

Lemma extract_members_spec zip_path module_path clean_module_name members :
  ∀ (acc final : list (string * string)) (w w' : world E),
    extract_members zip_path module_path clean_module_name members acc w = (Ok final, w') →
    (NoDup acc.*1 → NoDup final.*1)
    ∧ (∀ k, k ∈ final.*1 ↔
            k ∈ acc.*1
            ∨ ∃ member, member ∈ members ∧ is_dir member = false
                        ∧ k = target_name (filename member) clean_module_name)
    ∧ (∀ k p, (k, p) ∈ final →
              (k, p) ∈ acc
              ∨ ∃ module_path', module_path = Some module_path'
                                ∧ p = path_join module_path' k).
Proof.
  induction members as [|member rest IH]; intros acc final w w'; cbn [extract_members].
  { intros [= <- <-]. split; [done|]. split; [|by left].
    intros k. split; [by left|]. by intros [?|(m & ?%elem_of_nil & _)]. }
  assert (∀ acc' w1,
            extract_members zip_path module_path clean_module_name rest acc' w1
            = (Ok final, w') →
            (∀ k, k ∈ acc'.*1 ↔
                  k ∈ acc.*1 ∨ (is_dir member = false
                                ∧ k = target_name (filename member) clean_module_name)) →
            (NoDup acc.*1 → NoDup acc'.*1) →
            (∀ k p, (k, p) ∈ acc' →
                    (k, p) ∈ acc
                    ∨ ∃ module_path', module_path = Some module_path'
                                      ∧ p = path_join module_path' k) →
            (NoDup acc.*1 → NoDup final.*1)
            ∧ (∀ k, k ∈ final.*1 ↔
                    k ∈ acc.*1
                    ∨ ∃ member0, member0 ∈ member :: rest ∧ is_dir member0 = false
                                 ∧ k = target_name (filename member0) clean_module_name)
            ∧ (∀ k p, (k, p) ∈ final →
                      (k, p) ∈ acc
                      ∨ ∃ module_path', module_path = Some module_path'
                                        ∧ p = path_join module_path' k)) as Hstep.
  { intros acc' w1 Hrest Hkeys Hnodup Hpaths.
    apply IH in Hrest as (Hnodup' & Hkeys' & Hpaths').
    split; [by auto|]. split.
    - intros k. rewrite Hkeys', Hkeys. split.
      + intros [[?|[Hdir ->]]|(m & Hm & Hdir & ->)]; [by left| |].
        * right. exists member. split; [apply list_elem_of_here | done].
        * right. exists m. split; [by apply list_elem_of_further | done].
      + intros [?|(m & [->|Hm]%elem_of_cons & Hdir & ->)]; [by left; left| |].
        * left. by right.
        * right. eauto.
    - intros k p [Hin|?]%Hpaths'; [by apply Hpaths | by right]. }
  destruct (is_dir member) eqn:Hdir.
  { intros Hrest. apply (Hstep acc w Hrest); [|done|by left].
    intros k. split; [by left | by intros [?|[[=] _]]]. }
  intros [([] & w1 & _ & Hrest)|(e & _ & [=])]%cmd_bind_inv.
  destruct module_path as [module_path'|]; [|done].
  destruct (negb _) eqn:Hsame.
  - apply cmd_bind_inv in Hrest as [(ex & w2 & _ & Hrest)|(e & _ & [=])].
    apply cmd_bind_inv in Hrest as [([] & w3 & _ & Hrest)|(e & _ & [=])].
    apply (Hstep _ _ Hrest).
    + intros k. rewrite dict_set_keys_elem. split; [intros [->|?]|intros [?|[_ ->]]]; auto.
    + apply dict_set_NoDup.
    + intros k p [[-> ->]|?]%dict_set_elem; [right; eauto | by left].
  - apply (Hstep _ _ Hrest).
    + intros k. rewrite dict_set_keys_elem. split; [intros [->|?]|intros [?|[_ ->]]]; auto.
    + apply dict_set_NoDup.
    + intros k p [[-> ->]|?]%dict_set_elem; [|by left]. right. eexists. split; [done|].
      apply negb_false_iff, String.eqb_eq in Hsame. by rewrite Hsame.
Qed.

(** X10.  The table of files that an install records has one entry for each
    name that the files of the archive are given on disk: directories are
    left out, two members that are given the same name share one entry, and
    every entry points into the module directory. *)
Theorem extract_members_records_each_name_once (zip_path : string)
    (module_path : option string) (clean_module_name : string) (members : list ZipInfo)
    (final_files_to_db : list (string * string)) (w w' : world E) :
  extract_members zip_path module_path clean_module_name members [] w
  = (Ok final_files_to_db, w') →
  NoDup final_files_to_db.*1
  ∧ (∀ k, k ∈ final_files_to_db.*1 ↔
          ∃ member, member ∈ members ∧ is_dir member = false
                    ∧ k = target_name (filename member) clean_module_name)
  ∧ (∀ k p, (k, p) ∈ final_files_to_db →
            ∃ module_path', module_path = Some module_path'
                            ∧ p = path_join module_path' k).
Proof.
  intros (Hnodup & Hkeys & Hpaths)%extract_members_spec.
  split; [apply Hnodup, NoDup_nil_2|]. split.
  - intros k. rewrite Hkeys. split; [by intros [?%elem_of_nil|?] | by right].
  - intros k p [?%elem_of_nil|?]%Hpaths; done.
Qed.

End ExtractFacts.

Lemma extract_members_records_each_name_once_witness :
  let final := [("KJV.SQLite3", "/m/KJV.SQLite3"); ("notes.txt", "/m/notes.txt")] in
  let members := [member "a.sqlite3"; {| filename := "docs/"; is_dir := true |};
                  member "notes.txt"; member "b.SQLite3"] in
  NoDup final.*1
  ∧ (∀ k, k ∈ final.*1 ↔
          ∃ member, member ∈ members ∧ is_dir member = false
                    ∧ k = target_name (filename member) "KJV")
  ∧ (∀ k p, (k, p) ∈ final →
            ∃ module_path', Some "/m" = Some module_path' ∧ p = path_join module_path' k).
Proof.
  intros final members.
  apply (extract_members_records_each_name_once "/cfg/.cache/downloads/KJV.zip"
           (Some "/m") "KJV" members final sample_world
           (extract_members "/cfg/.cache/downloads/KJV.zip" (Some "/m") "KJV" members []
              sample_world).2).
  vm_compute. reflexivity.
Defined.

(** ** The constraints of the inventory are kept *)

Section InventoryFacts.
Context {E : Type} `{Env E}.

Lemma preserves_bind {A B} P (m : cmd E A) (f : A → cmd E B) :
  preserves P m → (∀ a, preserves P (f a)) → preserves P (m ≫= f).
Proof.
  intros Hm Hf w r w' [(a & w1 & Hmw & Hfw)|(e & Hmw & _)]%cmd_bind_inv HP.
  - eapply Hf; [done|]. by eapply Hm.
  - by eapply Hm.
Qed.

Lemma preserves_keeps {A} P (c : cmd E A) : keeps_stores c → preserves P c.
Proof. intros Hc w r w' (_ & Hinv & _)%Hc HP. by rewrite Hinv. Qed.

Lemma preserves_ret {A} P (a : A) : preserves P (mret a : cmd E A).
Proof. apply preserves_keeps, keeps_stores_ret. Qed.

Lemma preserves_print P msg : preserves P (print msg : cmd E unit).
Proof. apply preserves_keeps, keeps_stores_print. Qed.

Lemma preserves_atomic {A} P (body : cmd E A) : preserves P body → preserves P (atomic body).
Proof.
  intros Hbody w r w'. unfold atomic. destruct (body w) as [[a|e] w1] eqn:Hw.
  - intros [= <- <-] HP. by eapply Hbody.
  - by intros [= <- <-] HP.
Qed.

Lemma inventory_ok_delete_instance i m : inventory_ok i → inventory_ok (delete_instance i m).
Proof.
  intros (Hids & Hnames & Hfids & Horphans). unfold delete_instance.
  assert (∀ {A B} (f : A → B) (P : A → Prop) `{∀ x, Decision (P x)} (l : list A),
            NoDup (f <$> l) → NoDup (f <$> filter P l)) as Hfilter.
  { clear. intros A B f P ? l. induction l as [|x l IH]; [done|].
    rewrite fmap_cons, filter_cons. intros [Hx Hl]%NoDup_cons.
    destruct (decide (P x)); [|by apply IH].
    rewrite fmap_cons. apply NoDup_cons. split; [|by apply IH].
    intros (y & Hy & [_ Hin]%list_elem_of_filter)%list_elem_of_fmap.
    apply Hx. apply list_elem_of_fmap. eauto. }
  repeat split; simpl; [by apply Hfilter..|].
  intros f [Hf Hin]%list_elem_of_filter.
  destruct (Horphans f Hin) as (m' & Hm' & Hid). exists m'. split; [|done].
  apply list_elem_of_filter. split; [congruence | done].
Qed.

Lemma only_removes_refl i : only_removes i i.
Proof. by split. Qed.

Lemma only_removes_delete_instance i m : only_removes i (delete_instance i m).
Proof. split; intros x [_ Hx]%list_elem_of_filter; done. Qed.

Lemma remove_module_inv name quiet (w : world E) r w' :
  remove_module name quiet w = (r, w') →
  inv w' = inv w ∨ ∃ installed, get_or_none (inv w) name = Some installed
                                ∧ r = Ok true
                                ∧ inv w' = delete_instance (inv w) installed.
Proof.
  rewrite remove_module_run. destruct (get_or_none (inv w) name) as [installed|].
  - destruct (remove_files quiet (files_of (inv w) installed) w) as [[[|]|e] w1] eqn:Hfiles;
      intros [= <- <-];
      destruct (keeps_stores_remove_files _ _ _ _ _ Hfiles) as (_ & Hinv & _).
    + right. exists installed. split; [done|]. split; [done|].
      destruct quiet; simpl; by rewrite Hinv.
    + by left.
    + by left.
  - intros [= <- <-]. left. by destruct quiet.
Qed.

Lemma preserves_remove_module name quiet :
  preserves inventory_ok (remove_module name quiet).
Proof.
  intros w r w' [->|(installed & _ & _ & ->)]%remove_module_inv Hok; [done|].
  by apply inventory_ok_delete_instance.
Qed.

Lemma preserves_remove_loop module_names : preserves inventory_ok (remove_loop module_names).
Proof.
  induction module_names as [|name rest IH]; simpl; [apply preserves_ret|].
  apply preserves_bind; [apply preserves_remove_module | done].
Qed.

Lemma remove_module_frame name quiet (w : world E) r w' :
  remove_module name quiet w = (r, w') →
  cache w' = cache w ∧ module_path w' = module_path w.
Proof.
  rewrite remove_module_run. destruct (get_or_none (inv w) name) as [installed|].
  - destruct (remove_files quiet (files_of (inv w) installed) w) as [[[|]|e] w2] eqn:Hfiles;
      intros [= <- <-];
      destruct (keeps_stores_remove_files _ _ _ _ _ Hfiles) as (? & _ & ?);
      by destruct quiet.
  - intros [= <- <-]. by destruct quiet.
Qed.

Lemma remove_loop_only_removes module_names : ∀ (w : world E) r w',
  remove_loop module_names w = (r, w') →
  cache w' = cache w ∧ module_path w' = module_path w ∧ only_removes (inv w) (inv w').
Proof.
  induction module_names as [|name rest IH]; intros w r w'; simpl.
  { intros [= <- <-]. repeat split; done. }
  intros [(b & w1 & Hremove & Hrest)|(e & Hremove & _)]%cmd_bind_inv.
  - apply IH in Hrest as (Hcache & Hpath & Hm & Hf).
    destruct (remove_module_frame _ _ _ _ _ Hremove) as [Hc1 Hp1].
    split; [congruence|]. split; [congruence|].
    apply remove_module_inv in Hremove as [Hinv|(installed & _ & _ & Hinv)];
      rewrite Hinv in Hm, Hf; [done|].
    destruct (only_removes_delete_instance (inv w) installed) as [Hm' Hf'].
    split; auto.
  - destruct (remove_module_frame _ _ _ _ _ Hremove) as [Hc1 Hp1].
    apply remove_module_inv in Hremove as [Hinv|(installed & _ & [=] & _)].
    rewrite Hinv. split; [done|]. split; [done|]. apply only_removes_refl.
Qed.

(** X11.  [remove] and [uninstall] are the same command.  However it ends,
    with the exception of a failing [exists] too, it leaves the cache alone,
    only ever deletes rows of the inventory, and keeps the constraints of
    the inventory.  A name whose removal returns [False] does not stop the
    loop: the names after it are processed.  An exception stops it, and the
    module it was raised for keeps its rows. *)
Theorem remove_command_only_removes (names : list string) (w : world E) :
  uninstall_command names w = remove_command names w
  ∧ cache (remove_command names w).2 = cache w
  ∧ only_removes (inv w) (inv (remove_command names w).2)
  ∧ (inventory_ok (inv w) → inventory_ok (inv (remove_command names w).2))
  ∧ (∀ name rest b w1,
       remove_module name false w = (Ok b, w1) →
       remove_loop (name :: rest) w = remove_loop rest w1)
  ∧ (∀ name rest e w1,
       remove_module name false w = (Raise e, w1) →
       remove_loop (name :: rest) w = (Raise e, w1) ∧ inv w1 = inv w).
Proof.
  split; [done|].
  assert (cache (remove_command names w).2 = cache w
          ∧ only_removes (inv w) (inv (remove_command names w).2)
          ∧ (inventory_ok (inv w) → inventory_ok (inv (remove_command names w).2)))
    as (Hcache & Honly & Hok).
  { unfold remove_command, use_installed_db, mbind, cmd_bind. cbn [get_world].
    destruct (truthy_str (module_path w)).
    - destruct (remove_loop (process_module_names names) w) as [r w'] eqn:Hrun.
      destruct (remove_loop_only_removes _ _ _ _ Hrun) as (Hcache & _ & Honly).
      split; [done|]. split; [done|]. by eapply preserves_remove_loop.
    - split; [done|]. split; [apply only_removes_refl | done]. }
  split; [done|]. split; [done|]. split; [done|]. split.
  - intros name rest b w1 Hremove. cbn [remove_loop]. unfold mbind, cmd_bind at 1.
    by rewrite Hremove.
  - intros name rest e w1 Hremove. split.
    + cbn [remove_loop]. unfold mbind, cmd_bind at 1. by rewrite Hremove.
    + by apply remove_module_inv in Hremove as [Hinv|(installed & _ & [=] & _)].
Qed.

Lemma inventory_ok_InstalledModule_create name language description update_date install_date
    (w : world E) m w' :
  InstalledModule_create name language description update_date install_date w = (Ok m, w') →
  inventory_ok (inv w) →
  inventory_ok (inv w') ∧ m ∈ modules (inv w').
Proof.
  unfold InstalledModule_create. destruct (existsb _ _) eqn:Hname; [done|].
  intros [= <- <-] (Hids & Hnames & Hfids & Horphans). simpl.
  split; [|apply elem_of_app; right; apply list_elem_of_here].
  repeat split; simpl; [| |done|].
  - rewrite fmap_app. apply NoDup_app. split; [done|]. split; [|apply NoDup_singleton].
    intros x Hx ->%list_elem_of_singleton. apply next_id_fresh in Hx.
    exact (Nat.lt_irrefl _ Hx).
  - rewrite fmap_app. apply NoDup_app. split; [done|]. split; [|apply NoDup_singleton].
    intros x (m' & -> & Hm')%list_elem_of_fmap Hx%list_elem_of_singleton. simpl in Hx.
    assert (existsb (λ m0, String.eqb (InstalledModule.name m0) name)
                    (modules (inv w)) = true); [|congruence].
    apply existsb_exists. exists m'. split; [by apply list_elem_of_In|].
    by apply String.eqb_eq.
  - intros f Hf. destruct (Horphans f Hf) as (m' & Hm' & Hid). exists m'.
    split; [|done]. apply elem_of_app. by left.
Qed.

Lemma InstalledModule_create_raise name language description update_date install_date
    (w : world E) e w' :
  InstalledModule_create name language description update_date install_date w = (Raise e, w') →
  w' = w.
Proof. unfold InstalledModule_create. destruct (existsb _ _); by intros [= <- <-]. Qed.

Lemma create_files_inventory_ok module items : ∀ (w : world E) r w',
  create_files module items w = (r, w') →
  inventory_ok (inv w) →
  (∃ m, m ∈ modules (inv w) ∧ InstalledModule.id m = InstalledModule.id module) →
  inventory_ok (inv w').
Proof.
  induction items as [|[fname fpath] items IH]; intros w r w'; simpl.
  { by intros [= <- <-]. }
  intros Hrun Hok Hmodule.
  apply cmd_bind_inv in Hrun as [([] & w1 & Hcreate & Hrest)|(e & Hcreate & _)];
    unfold InstalledFile_create in Hcreate;
    destruct (insert_file_fails _ _); try done; [|by injection Hcreate as <- <-].
  injection Hcreate as <-.
  apply IH in Hrest; [done| |done].
  destruct Hok as (Hids & Hnames & Hfids & Horphans). repeat split; simpl; [done..| |].
  - rewrite fmap_app. apply NoDup_app. split; [done|]. split; [|apply NoDup_singleton].
    intros x Hx ->%list_elem_of_singleton. apply next_id_fresh in Hx.
    exact (Nat.lt_irrefl _ Hx).
  - intros f [Hf|Hf%list_elem_of_singleton]%elem_of_app; [by apply Horphans|].
    by subst f.
Qed.

Lemma preserves_record_install mod_ items : preserves inventory_ok (record_install mod_ items).
Proof.
  intros w r w'. unfold record_install, atomic.
  match goal with
  | |- context [match ?body w with _ => _ end] =>
      destruct (body w) as [[[]|e] w1] eqn:Hbody
  end; intros [= <- <-] Hok; [|done].
  revert Hbody. unfold mbind, cmd_bind at 1. cbn [env_read].
  intros [(m & w2 & Hcreate & Hfiles)|(e & _ & [=])]%cmd_bind_inv.
  destruct (inventory_ok_InstalledModule_create _ _ _ _ _ _ _ _ Hcreate Hok) as [Hok2 Hm].
  eapply create_files_inventory_ok; [done..|]. eauto.
Qed.

Lemma preserves_install_single_module name version :
  preserves inventory_ok (install_single_module name version).
Proof.
  unfold install_single_module.
  apply preserves_bind; [apply preserves_keeps, keeps_stores_get_world|]. intros w0.
  destruct (select_module (cache w0) name version) as [mod_|].
  2: { apply preserves_bind; [apply preserves_print | intros; apply preserves_ret]. }
  apply preserves_bind; [apply preserves_keeps, keeps_stores_ensure_downloaded|].
  intros [|]; [|apply preserves_ret].
  apply preserves_bind; [apply preserves_keeps, keeps_stores_env_try|]. intros members.
  apply preserves_bind; [apply preserves_keeps, keeps_stores_extract_members|]. intros items.
  apply preserves_bind; [apply preserves_record_install|]. intros _.
  apply preserves_bind; [apply preserves_print | intros; apply preserves_ret].
Qed.

Lemma preserves_install_precheck name reinstall :
  preserves inventory_ok (install_precheck name reinstall).
Proof.
  unfold install_precheck. apply preserves_atomic.
  apply preserves_bind; [apply preserves_keeps, keeps_stores_get_world|]. intros w0.
  destruct (get_or_none (inv w0) name); [|apply preserves_ret].
  destruct reinstall.
  - apply preserves_bind; [apply preserves_print|]. intros _.
    apply preserves_bind; [apply preserves_remove_module|].
    intros [|]; [apply preserves_ret|].
    apply preserves_bind; [apply preserves_print | intros; apply preserves_ret].
  - apply preserves_bind; [apply preserves_print | intros; apply preserves_ret].
Qed.

Lemma preserves_install_loop module_names version reinstall :
  preserves inventory_ok (install_loop module_names version reinstall).
Proof.
  induction module_names as [|name rest IH]; simpl; [apply preserves_ret|].
  apply preserves_bind; [apply preserves_print|]. intros _.
  apply preserves_bind; [apply preserves_install_precheck|]. intros proceed.
  apply preserves_bind; [|done].
  destruct proceed; [|apply preserves_ret].
  apply preserves_bind; [apply preserves_install_single_module | intros; apply preserves_ret].
Qed.

Lemma preserves_use_installed_db (f : cmd E unit) :
  preserves inventory_ok f → preserves inventory_ok (use_installed_db f).
Proof.
  intros Hf. unfold use_installed_db.
  apply preserves_bind; [apply preserves_keeps, keeps_stores_get_world|]. intros w0.
  destruct (truthy_str _); [done | apply preserves_print].
Qed.

(** X12.  [install] keeps the constraints of the inventory, however it
    ends: also when a download fails, when an archive cannot be read, when a
    file of a module to reinstall cannot be removed, or when the database
    refuses a row. *)
Theorem install_keeps_inventory_constraints (names : list string) (version : option string)
    (reinstall : bool) (w : world E) :
  inventory_ok (inv w) → inventory_ok (inv (install names version reinstall w).2).
Proof.
  intros Hok. destruct (install names version reinstall w) as [r w'] eqn:Hrun.
  revert Hok. apply (preserves_use_installed_db (install_body names version reinstall))
    with (r := r); [|done].
  unfold install_body.
  apply preserves_bind; [apply preserves_keeps, keeps_stores_get_world|]. intros w0.
  destruct (_ && _); [apply preserves_print|].
  destruct (is_cache_empty w0); [apply preserves_print|].
  apply preserves_install_loop.
Qed.

Lemma keeps_stores_outdated_named module_names :
  keeps_stores (outdated_named (E:=E) module_names).
Proof.
  induction module_names as [|name rest IH]; simpl; [apply keeps_stores_ret|].
  apply keeps_stores_bind; [apply keeps_stores_get_world|]. intros w0.
  destruct (get_or_none (inv w0) name).
  - destruct (latest_cached (cache w0) name).
    + apply keeps_stores_bind; [done|]. intros l. destruct (String.ltb _ _);
        apply keeps_stores_ret.
    + apply keeps_stores_bind; [apply keeps_stores_print | done].
  - apply keeps_stores_bind; [apply keeps_stores_print | done].
Qed.

Lemma preserves_upgrade_loop to_upgrade : preserves inventory_ok (upgrade_loop to_upgrade).
Proof.
  induction to_upgrade as [|name rest IH]; simpl; [apply preserves_ret|].
  apply preserves_bind; [apply preserves_print|]. intros _.
  apply preserves_bind; [apply preserves_remove_module|]. intros removed.
  apply preserves_bind; [|done].
  destruct removed; [|apply preserves_print].
  apply preserves_bind; [apply preserves_install_single_module | intros; apply preserves_ret].
Qed.

Lemma preserves_upgrade_selected to_upgrade :
  preserves inventory_ok (upgrade_selected to_upgrade).
Proof.
  destruct to_upgrade as [|n l]; [apply preserves_print|].
  unfold upgrade_selected.
  apply preserves_bind; [apply preserves_print | intros; apply preserves_upgrade_loop].
Qed.

(** X13.  [upgrade] keeps the constraints of the inventory, however it
    ends: also when the old version of a module cannot be removed, or was
    removed and the new one cannot be installed. *)
Theorem upgrade_keeps_inventory_constraints (names : list string) (all : bool)
    (w : world E) :
  inventory_ok (inv w) → inventory_ok (inv (upgrade names all w).2).
Proof.
  intros Hok. destruct (upgrade names all w) as [r w'] eqn:Hrun.
  revert Hok. apply (preserves_use_installed_db (upgrade_body names all))
    with (r := r); [|done].
  unfold upgrade_body.
  apply preserves_bind; [apply preserves_keeps, keeps_stores_get_world|]. intros w0.
  destruct (_ && _); [apply preserves_print|].
  destruct (is_cache_empty w0); [apply preserves_print|].
  destruct all.
  - destruct (modules (inv w0)); [apply preserves_print | apply preserves_upgrade_selected].
  - apply preserves_bind; [apply preserves_keeps, keeps_stores_outdated_named|].
    intros l. apply preserves_upgrade_selected.
Qed.

End InventoryFacts.

Lemma sample_inventory_ok : inventory_ok (inv sample_world).
Proof.
  repeat split; try compute_done.
  intros f Hf. exists (installed_row 1 "KJV" "2020-01-01"). split; [apply list_elem_of_here|].
  repeat (apply elem_of_cons in Hf as [->|Hf]; [done|]). by apply elem_of_nil in Hf.
Qed.

Lemma install_keeps_inventory_constraints_witness :
  inventory_ok (inv (install ["kjv"] None true sample_world).2).
Proof. apply (install_keeps_inventory_constraints ["kjv"] None true sample_world sample_inventory_ok). Defined.

Lemma upgrade_keeps_inventory_constraints_witness :
  inventory_ok (inv (upgrade [] true sample_world).2).
Proof. apply (upgrade_keeps_inventory_constraints [] true sample_world sample_inventory_ok). Defined.

(** Run: a reinstall replaces the rows of the module by new ones. *)
Example reinstall_replaces_rows :
  let w' := (install ["kjv"] None true sample_world).2 in
  (λ m, (InstalledModule.id m, InstalledModule.name m, InstalledModule.update_date m))
    <$> modules (inv w') = [(1, "KJV", "2021-06-15")]
  ∧ (λ f, (InstalledFile.id f, InstalledFile.module f, InstalledFile.file_name f))
      <$> files (inv w') = [(1, 1, "KJV.SQLite3"); (2, 1, "KJV.commentaries.SQLite3")].
Proof. vm_compute. done. Qed.

(** Run: the second file of the module is in a place that [stat] may not
    look at.  [remove] ends with the exception of [exists]: the first file
    is gone from the disk, the rows of the module are all there, nothing is
    printed, and the second name is not processed. *)
Example remove_stops_when_exists_raises :
  (remove_command ["kjv"; "KJV"] denied_world).1 = Raise OSError
  ∧ inv (remove_command ["kjv"; "KJV"] denied_world).2 = inv denied_world
  ∧ console (remove_command ["kjv"; "KJV"] denied_world).2 = []
  ∧ sim_files (env (remove_command ["kjv"; "KJV"] denied_world).2)
    = ["/m/KJV.commentaries.SQLite3"].
Proof. split; [|split; [|split]]; vm_compute; reflexivity. Qed.

(** ** Upgrade *)

Section UpgradeMoreFacts.
Context {E : Type} `{Env E}.

(** Unless it returns [True], [install_single_module] leaves the inventory
    as it was. *)
Lemma install_single_module_unchanged name version (w : world E) r w' :
  install_single_module name version w = (r, w') → r ≠ Ok true → inv w' = inv w.
Proof.
  unfold install_single_module. unfold mbind, cmd_bind at 1. cbn [get_world].
  destruct (select_module (cache w) name version) as [mod_|].
  2: { by intros [= <- <-]. }
  intros [(downloaded & w1 & Hdl & Hrest)|(e & Hdl & ->)]%cmd_bind_inv Hr.
  2: { by apply keeps_stores_ensure_downloaded in Hdl as (_ & ? & _). }
  apply keeps_stores_ensure_downloaded in Hdl as (_ & Hinv1 & _).
  destruct downloaded; [|by injection Hrest as <- <-].
  apply cmd_bind_inv in Hrest as [(members & w2 & Hzip & Hrest)|(e & Hzip & ->)].
  2: { apply keeps_stores_env_try in Hzip as (_ & ? & _). congruence. }
  apply keeps_stores_env_try in Hzip as (_ & Hinv2 & _).
  apply cmd_bind_inv in Hrest as [(items & w3 & Hextract & Hrest)|(e & Hextract & ->)].
  2: { apply keeps_stores_extract_members in Hextract as (_ & ? & _). congruence. }
  apply keeps_stores_extract_members in Hextract as (_ & Hinv3 & _).
  apply cmd_bind_inv in Hrest as [([] & w4 & Hrecord & Hrest)|(e & Hrecord & ->)].
  2: { apply record_install_spec in Hrecord. congruence. }
  by injection Hrest as <- <-.
Qed.

Lemma outdated_all_nil cache installed_modules :
  (∀ inst, inst ∈ installed_modules → ¬ upgradable cache inst) →
  outdated_all cache installed_modules = [].
Proof.
  intros Hnone. destruct (outdated_all cache installed_modules) as [|n l] eqn:Hl; [done|].
  assert (n ∈ outdated_all cache installed_modules) as Hn by (rewrite Hl; apply list_elem_of_here).
  apply outdated_all_spec in Hn as (inst & Hin & _ & Hup). by destruct (Hnone inst Hin).
Qed.

Lemma remove_module_true name quiet (w w' : world E) :
  remove_module name quiet w = (Ok true, w') →
  ∃ installed, get_or_none (inv w) name = Some installed
               ∧ inv w' = delete_instance (inv w) installed.
Proof.
  rewrite remove_module_run. destruct (get_or_none (inv w) name) as [installed|]; [|done].
  destruct (remove_files quiet (files_of (inv w) installed) w) as [[[|]|e] w1] eqn:Hfiles;
    intros [= <-].
  destruct (keeps_stores_remove_files _ _ _ _ _ Hfiles) as (_ & Hinv & _).
  exists installed. split; [done|]. destruct quiet; simpl; by rewrite Hinv.
Qed.

(** X14.  When no installed module has a later version in the cache,
    [upgrade --all] prints one message and returns: nothing is removed,
    downloaded or installed.  Names given along with [--all] are not looked
    at. *)
Theorem upgrade_all_up_to_date (names : list string) (w : world E) :
  (∀ inst, inst ∈ modules (inv w) → ¬ upgradable (cache w) inst) →
  upgrade names true w = upgrade [] true w
  ∧ ∃ msg, upgrade names true w = (Ok tt, printed msg w)
           ∧ msg ∈ [ModulePathNotSet; CacheEmpty; NoModulesInstalled; AllUpToDate].
Proof.
  intros Hnone.
  assert (upgrade names true w = upgrade [] true w) as Hnames.
  { unfold upgrade, use_installed_db, upgrade_body, mbind, cmd_bind. cbn [get_world].
    rewrite !andb_false_r. done. }
  split; [done|]. rewrite Hnames.
  unfold upgrade, use_installed_db, mbind, cmd_bind. cbn [get_world].
  destruct (truthy_str (module_path w)).
  2: { exists ModulePathNotSet. split; [done | set_solver]. }
  unfold upgrade_body, mbind, cmd_bind. cbn [get_world andb negb].
  destruct (is_cache_empty w).
  { exists CacheEmpty. split; [done | set_solver]. }
  destruct (modules (inv w)) as [|m ms] eqn:Hmodules.
  { exists NoModulesInstalled. split; [done | set_solver]. }
  rewrite outdated_all_nil by done.
  exists AllUpToDate. split; [done | set_solver].
Qed.

(** X15.  An upgrade is not one unit.  When the old version has been
    removed and the install that follows does not succeed (the download
    fails, the archive cannot be read, the database refuses a row), the
    module is left uninstalled: the inventory is the one before the upgrade
    without the module and its files.  After a failed download the loop goes
    on with the other names; an exception ends it. *)
Theorem upgrade_leaves_module_removed_when_install_fails (module_name : string)
    (rest : list string) (w w1 w2 : world E) (installed : InstalledModule.t)
    (r : result bool) :
  get_or_none (inv w) module_name = Some installed →
  remove_module module_name true (printed (Upgrading module_name) w) = (Ok true, w1) →
  install_single_module module_name None w1 = (r, w2) →
  r ≠ Ok true →
  inv w2 = delete_instance (inv w) installed
  ∧ absent installed (inv w2)
  ∧ upgrade_loop (module_name :: rest) w
    = match r with
      | Ok _ => upgrade_loop rest w2
      | Raise e => (Raise e, w2)
      end.
Proof.
  intros Hinstalled Hremove Hinstall Hr.
  assert (inv w2 = delete_instance (inv w) installed) as Hinv.
  { rewrite (install_single_module_unchanged _ _ _ _ _ Hinstall Hr).
    apply remove_module_true in Hremove as (installed' & Hinstalled' & ->).
    simpl in *. congruence. }
  split; [done|]. split.
  - rewrite Hinv. split.
    + intros m' [Hm' _]%list_elem_of_filter. done.
    + intros f' [Hf' _]%list_elem_of_filter. done.
  - cbn [upgrade_loop]. unfold mbind, cmd_bind at 1. cbn [print].
    unfold mbind, cmd_bind at 1. rewrite Hremove.
    unfold mbind, cmd_bind. rewrite Hinstall. by destruct r.
Qed.

(** X16.  [upgrade NAME...] selects, in their order, the names for which a
    matching module is installed and the latest cached version is later
    than the installed one; for every other name it says why, unless the
    module is up to date.  The selection changes nothing. *)
Theorem upgrade_selects_outdated_names (module_names : list string) (w : world E) :
  ∃ w', outdated_named module_names w
        = (Ok (filter (λ n, outdated (cache w) (inv w) n = true) module_names), w')
        ∧ env w' = env w ∧ same_stores w w'
        ∧ console w'
          = console w ++ flat_map (outdated_message (cache w) (inv w)) module_names.
Proof.
  revert w. induction module_names as [|name rest IH]; intros w.
  { exists w. simpl. rewrite app_nil_r. repeat split; done. }
  cbn [outdated_named flat_map]. rewrite filter_cons.
  unfold mbind, cmd_bind at 1. cbn [get_world].
  destruct (get_or_none (inv w) name) as [installed_mod|] eqn:Hinstalled.
  - destruct (latest_cached (cache w) name) as [latest|] eqn:Hlatest.
    + assert (outdated (cache w) (inv w) name
              = String.ltb (InstalledModule.update_date installed_mod)
                           (CachedModule.update_date latest)) as Ho
        by (unfold outdated; by rewrite Hinstalled, Hlatest).
      assert (outdated_message (cache w) (inv w) name = []) as ->
        by (unfold outdated_message; by rewrite Hinstalled, Hlatest).
      destruct (IH w) as (w' & Hrun & Henv & Hstores & Hconsole). exists w'.
      unfold mbind, cmd_bind. rewrite Hrun, Ho. cbn [mret cmd_ret].
      split; [|done].
      destruct (String.ltb _ _); [by rewrite decide_True | by rewrite decide_False].
    + assert (outdated (cache w) (inv w) name = false) as Ho
        by (unfold outdated; by rewrite Hinstalled, Hlatest).
      assert (outdated_message (cache w) (inv w) name = [NotFoundInCache name]) as ->
        by (unfold outdated_message; by rewrite Hinstalled, Hlatest).
      destruct (IH (printed (NotFoundInCache name) w))
        as (w' & Hrun & Henv & Hstores & Hconsole). exists w'.
      unfold mbind, cmd_bind at 1. cbn [print]. rewrite Hrun, Ho. simpl in *.
      split; [done|]. split; [done|]. split; [done|].
      by rewrite Hconsole, <- app_assoc.
  - assert (outdated (cache w) (inv w) name = false) as Ho
      by (unfold outdated; by rewrite Hinstalled).
    assert (outdated_message (cache w) (inv w) name = [NotInstalled name]) as ->
      by (unfold outdated_message; by rewrite Hinstalled).
    destruct (IH (printed (NotInstalled name) w))
      as (w' & Hrun & Henv & Hstores & Hconsole). exists w'.
    unfold mbind, cmd_bind at 1. cbn [print]. rewrite Hrun, Ho. simpl in *.
    split; [done|]. split; [done|]. split; [done|].
    by rewrite Hconsole, <- app_assoc.
Qed.

End UpgradeMoreFacts.

Lemma upgrade_all_up_to_date_witness :
  upgrade ["web"] true current_world = upgrade [] true current_world
  ∧ ∃ msg, upgrade ["web"] true current_world = (Ok tt, printed msg current_world)
           ∧ msg ∈ [ModulePathNotSet; CacheEmpty; NoModulesInstalled; AllUpToDate].
Proof.
  apply (upgrade_all_up_to_date ["web"] current_world).
  intros inst Hinst (c & Hc & Hlt)%upgradable_iff.
  apply elem_of_cons in Hinst as [->|Hinst]; [|by apply elem_of_nil in Hinst].
  vm_compute in Hc. injection Hc as <-. vm_compute in Hlt. discriminate.
Defined.

Lemma upgrade_leaves_module_removed_when_install_fails_witness :
  let w1 := (remove_module "KJV" true (printed (Upgrading "KJV") offline_world)).2 in
  let w2 := (install_single_module "KJV" None w1).2 in
  inv w2 = delete_instance (inv offline_world) (installed_row 1 "KJV" "2020-01-01")
  ∧ absent (installed_row 1 "KJV" "2020-01-01") (inv w2)
  ∧ upgrade_loop ["KJV"] offline_world = upgrade_loop [] w2.
Proof.
  intros w1 w2.
  apply (upgrade_leaves_module_removed_when_install_fails "KJV" [] offline_world w1 w2
           (installed_row 1 "KJV" "2020-01-01") (Ok false)); [reflexivity..|discriminate].
Defined.

(** Run: the download of the new version fails after the old one was
    removed; the files are gone from the disk and the rows from the
    inventory. *)
Example upgrade_offline :
  let '(r, w') := upgrade [] true offline_world in
  r = Ok tt
  ∧ inv w' = {| modules := []; files := [] |}
  ∧ sim_files (env w') = []
  ∧ console w' = [FoundToUpgrade 1; Upgrading "KJV"; DownloadFailed "KJV"].
Proof. vm_compute. done. Qed.

(** ** The cache store: a batch of rows *)

Lemma insert_many_cons r rows db :
  insert_many_on_conflict_ignore (r :: rows) db
  = insert_many_on_conflict_ignore rows (insert_or_ignore db r).
Proof. done. Qed.

Lemma insert_many_spec (rows db : list CachedModule.t) :
  ∃ new, insert_many_on_conflict_ignore rows db = db ++ new
         ∧ new `sublist_of` rows
         ∧ (∀ r, r ∈ new → key r ∉ key <$> db)
         ∧ NoDup (key <$> new)
         ∧ (∀ r, r ∈ rows → key r ∈ key <$> (db ++ new)).
Proof.
  revert db. induction rows as [|r rows IH]; intros db.
  { exists []. rewrite app_nil_r. repeat split; [done|by intros ? ?%elem_of_nil|
      apply NoDup_nil_2|by intros ? ?%elem_of_nil]. }
  rewrite insert_many_cons. unfold insert_or_ignore.
  destruct (existsb (same_key r) db) eqn:Hex.
  - destruct (IH db) as (new & -> & Hsub & Hfresh & Hnodup & Hall). exists new.
    split; [done|]. split; [by apply sublist_cons|]. split; [done|]. split; [done|].
    intros x [->|Hx]%elem_of_cons; [|by apply Hall].
    rewrite fmap_app, elem_of_app. left. by apply existsb_same_key.
  - destruct (IH (db ++ [r])) as (new & -> & Hsub & Hfresh & Hnodup & Hall).
    exists (r :: new). split; [by rewrite <- app_assoc|].
    split; [by apply sublist_skip|]. split; [|split].
    + intros x [->|Hx]%elem_of_cons.
      * intros Hin%existsb_same_key. congruence.
      * intros Hin. apply (Hfresh x Hx). rewrite fmap_app, elem_of_app. by left.
    + rewrite fmap_cons. apply NoDup_cons. split; [|done].
      intros (x & Hk & Hx)%list_elem_of_fmap. apply (Hfresh x Hx).
      rewrite fmap_app, elem_of_app. right. rewrite <- Hk. apply list_elem_of_here.
    + intros x Hx. apply elem_of_cons in Hx as [->|Hx].
      * rewrite fmap_app, elem_of_app. right. apply list_elem_of_here.
      * specialize (Hall x Hx). by rewrite <- app_assoc in Hall.
Qed.

(** X17.  Inserting a batch never touches the rows that are there: the new
    table is the old one followed by rows of the batch, in the order of the
    batch, none of which has a key of the old table or of another added row;
    and afterwards every key of the batch is in the table.  So of several
    rows with one key, whether in the table or in the batch, the first stays
    and the others are dropped. *)
Theorem insert_many_adds_only_new_keys (rows db : list CachedModule.t) :
  ∃ new, insert_many_on_conflict_ignore rows db = db ++ new
         ∧ new `sublist_of` rows
         ∧ (∀ r, r ∈ new → key r ∉ key <$> db)
         ∧ NoDup (key <$> new)
         ∧ (∀ r, r ∈ rows → key r ∈ key <$> (db ++ new)).
Proof. apply insert_many_spec. Qed.

(** ** The exceptions of the parsers *)

Lemma raises_only_bind {A B} S (m : result A) (f : A → result B) :
  raises_only S m → (∀ a, m = Ok a → raises_only S (f a)) → raises_only S (m ≫= f).
Proof.
  intros Hm Hf e. destruct m as [a|e']; simpl.
  - by apply Hf.
  - intros [= ->]. by apply Hm.
Qed.

Lemma raises_only_Ok {A} S (a : A) : raises_only S (Ok a).
Proof. by intros e. Qed.

Lemma raises_only_weaken {A} (S S' : exn → Prop) (m : result A) :
  (∀ e, S e → S' e) → raises_only S m → raises_only S' m.
Proof. intros HS Hm e He. by apply HS, Hm. Qed.

Lemma raises_only_py_get v k dflt : raises_only (λ e, e = AttributeError) (py_get v k dflt).
Proof. intros e. destruct v; simpl; congruence. Qed.

Lemma raises_only_py_getitem v k :
  raises_only (λ e, e = KeyError ∨ e = TypeError) (py_getitem v k).
Proof.
  intros e. destruct v as [| | | | |d]; simpl; try (intros [= <-]; by right).
  destruct (dict_lookup k d); [done|]. intros [= <-]. by left.
Qed.

Lemma raises_only_py_iter v : raises_only (λ e, e = TypeError) (py_iter v).
Proof. intros e. destruct v; simpl; congruence. Qed.

Lemma raises_only_py_in k v : raises_only (λ e, e = TypeError) (py_in k v).
Proof. intros e. destruct v; simpl; congruence. Qed.

Lemma raises_only_as_str v : raises_only (λ e, e = AttributeError) (as_str v).
Proof. intros e. destruct v; simpl; congruence. Qed.

Lemma raises_only_py_hash_check v : raises_only (λ e, e = TypeError) (py_hash_check v).
Proof. intros e. destruct v; simpl; congruence. Qed.

Lemma raises_only_all_in keys mod_ : raises_only (λ e, e = TypeError) (all_in keys mod_).
Proof.
  induction keys as [|k keys IH]; simpl; [apply raises_only_Ok|].
  apply raises_only_bind; [apply raises_only_py_in|].
  intros [|] _; [done | apply raises_only_Ok].
Qed.

(** After the test of line 186, no lookup of [extra_record] misses its
    key. *)
Lemma raises_only_extra_record mod_ registry_url :
  all_in extra_required mod_ = Ok true →
  raises_only (λ e, e = AttributeError ∨ e = TypeError) (extra_record mod_ registry_url).
Proof.
  intros Hall e. destruct mod_ as [| | | | |d]; try (intros [= <-]; by right).
  rewrite all_in_dict in Hall. injection Hall as Hall. simpl in Hall.
  apply andb_true_iff in Hall as [[du Hdu]%bool_decide_eq_true Hall].
  apply andb_true_iff in Hall as [[fn Hfn]%bool_decide_eq_true Hall].
  apply andb_true_iff in Hall as [[des Hdes]%bool_decide_eq_true Hall].
  apply andb_true_iff in Hall as [[upd Hupd]%bool_decide_eq_true _].
  unfold extra_record. simpl. rewrite Hfn, Hdu, Hdes, Hupd. simpl.
  destruct fn; simpl; try (intros [= <-]; by left).
  destruct du; simpl; intros [= <-]; by left.
Qed.

Lemma raises_only_extra_loop mods registry_url :
  raises_only (λ e, e = AttributeError ∨ e = TypeError) (extra_loop mods registry_url).
Proof.
  induction mods as [|mod_ rest IH]; cbn [extra_loop]; [apply raises_only_Ok|].
  apply raises_only_bind.
  { eapply raises_only_weaken; [|apply raises_only_all_in]. by right. }
  intros [|] Hall; [|done].
  apply raises_only_bind; [by apply raises_only_extra_record|]. intros r _.
  apply raises_only_bind; [done | intros; apply raises_only_Ok].
Qed.

Lemma raises_only_build_hosts hs : ∀ hosts,
  raises_only (λ e, e = AttributeError ∨ e = TypeError ∨ e = KeyError) (build_hosts hs hosts).
Proof.
  induction hs as [|h hs IH]; intros hosts; cbn [build_hosts]; [apply raises_only_Ok|].
  apply raises_only_bind.
  { eapply raises_only_weaken; [|apply raises_only_py_getitem]. intros e [He|He]; subst; auto. }
  intros a _. apply raises_only_bind.
  { eapply raises_only_weaken; [|apply raises_only_py_getitem]. intros e [He|He]; subst; auto. }
  intros p _. apply raises_only_bind.
  { eapply raises_only_weaken; [|apply raises_only_py_hash_check]. intros e He; subst; auto. }
  intros _ _. apply IH.
Qed.

Ltac raises_step :=
  first
    [ apply raises_only_Ok
    | apply raises_only_bind;
      [ first [ eapply raises_only_weaken; [|apply raises_only_py_get]; by intros ? Heq; subst; auto
              | eapply raises_only_weaken; [|apply raises_only_as_str]; by intros ? Heq; subst; auto
              | eapply raises_only_weaken; [|apply raises_only_py_iter]; by intros ? Heq; subst; auto ]
      | intros ? _ ] ].

Lemma raises_only_zipped_template hosts mod_ registry_url t :
  raises_only (λ e, e = AttributeError ∨ e = TypeError ∨ e = KeyError)
    (zipped_template hosts mod_ registry_url t).
Proof.
  unfold zipped_template. raises_step.
  destruct (_ || _); [apply raises_only_Ok|].
  destruct (hosts !! _) as [path|]; [|apply raises_only_Ok].
  do 5 raises_step. destruct (negb _); [apply raises_only_Ok|].
  do 4 raises_step.
Qed.

Lemma raises_only_zipped_templates hosts mod_ registry_url ts :
  raises_only (λ e, e = AttributeError ∨ e = TypeError ∨ e = KeyError)
    (zipped_templates hosts mod_ registry_url ts).
Proof.
  induction ts as [|t ts IH]; cbn [zipped_templates]; [apply raises_only_Ok|].
  apply raises_only_bind; [apply raises_only_zipped_template|]. intros rs _.
  apply raises_only_bind; [done | intros; apply raises_only_Ok].
Qed.

Lemma raises_only_zipped_loop hosts registry_url mods :
  raises_only (λ e, e = AttributeError ∨ e = TypeError ∨ e = KeyError)
    (zipped_loop hosts registry_url mods).
Proof.
  induction mods as [|mod_ rest IH]; cbn [zipped_loop]; [apply raises_only_Ok|].
  apply raises_only_bind.
  { unfold zipped_entry. do 2 raises_step. destruct (negb _); [apply raises_only_Ok|].
    do 2 raises_step. apply raises_only_zipped_templates. }
  intros rs _. apply raises_only_bind; [done | intros; apply raises_only_Ok].
Qed.

(** X18.  The exceptions that the parsers can end with.  Flat-JSON parsing
    raises nothing but [AttributeError] and [TypeError]: after the test on
    the required keys no lookup misses its key.  Archive-style parsing
    raises nothing but these two and [KeyError]. *)
Theorem parsers_raise_only (data : json) (registry_url : string) :
  raises_only (λ e, e = AttributeError ∨ e = TypeError)
    (parse_extra_registry data registry_url)
  ∧ raises_only (λ e, e = AttributeError ∨ e = TypeError ∨ e = KeyError)
      (parse_zipped_registry data registry_url).
Proof.
  split.
  - unfold parse_extra_registry.
    apply raises_only_bind.
    { eapply raises_only_weaken; [|apply raises_only_py_get]. intros e He; subst; auto. }
    intros modules _. apply raises_only_bind.
    { eapply raises_only_weaken; [|apply raises_only_py_iter]. intros e He; subst; auto. }
    intros mods _. apply raises_only_extra_loop.
  - unfold parse_zipped_registry. do 2 raises_step.
    apply raises_only_bind; [apply raises_only_build_hosts|]. intros hosts _.
    do 2 raises_step. apply raises_only_zipped_loop.
Qed.

(** Each of them does occur. *)
Example parsers_raise_examples :
  parse_extra_registry (JList []) "u" = Raise AttributeError
  ∧ parse_extra_registry (JDict [("modules", JList [JNum 5])]) "u" = Raise TypeError
  ∧ parse_zipped_registry (JDict [("hosts", JList [JDict [("alias", JStr "h")]])]) "u"
    = Raise KeyError.
Proof. repeat split; reflexivity. Qed.

(** ** Search *)

Lemma lower_cons a s : Py.lower (String a s) = String (Py.ascii_lower a) (Py.lower s).
Proof. done. Qed.

Lemma startswith_cons a s b p :
  Py.startswith (String a s) (String b p) = Ascii.eqb b a && Py.startswith s p.
Proof. done. Qed.

Lemma startswith_nil s : Py.startswith s EmptyString = true.
Proof. by destruct s. Qed.

Lemma sql_like_percent_cons p s :
  sql_like (String "%" p) s
  = sql_like p s || match s with
                    | EmptyString => false
                    | String _ s' => sql_like (String "%" p) s'
                    end.
Proof. by destruct s. Qed.

Lemma sql_like_percent s : sql_like "%" s = true.
Proof.
  induction s as [|a s IH]; [done|]. rewrite sql_like_percent_cons.
  rewrite IH. apply orb_true_r.
Qed.

(** A pattern without wildcard followed by a percent sign matches the texts
    that begin with it, letter case apart. *)
Lemma sql_like_prefix p : ∀ s,
  plain p = true → sql_like (p +:+ "%") s = Py.startswith (Py.lower s) (Py.lower p).
Proof.
  induction p as [|c p IH]; intros s Hplain.
  - change (EmptyString +:+ "%") with "%"%string.
    by rewrite sql_like_percent, startswith_nil.
  - simpl in Hplain.
    apply andb_true_iff in Hplain as [[Hpercent Hunderscore]%andb_true_iff Hplain].
    apply negb_true_iff in Hpercent, Hunderscore.
    change (String c p +:+ "%") with (String c (p +:+ "%")).
    cbn [sql_like]. rewrite Hpercent, Hunderscore.
    destruct s as [|d s]; [done|].
    rewrite !lower_cons, startswith_cons, IH by done. done.
Qed.

Lemma contains_cons sub a s :
  Py.contains sub (String a s) = Py.startswith (String a s) sub || Py.contains sub s.
Proof.
  unfold Py.contains. cbn [Py.find].
  destruct (Py.startswith (String a s) sub); [done|]. cbv zeta. cbn [orb].
  pose proof (find_lower_bound s sub).
  destruct (Py.find s sub =? -1)%Z eqn:Heq; [done|].
  apply Z.eqb_neq in Heq. cbn [negb]. apply negb_true_iff, Z.eqb_neq. lia.
Qed.

Lemma contains_nil sub : Py.contains sub EmptyString = Py.startswith EmptyString sub.
Proof. unfold Py.contains. cbn [Py.find]. by destruct (Py.startswith EmptyString sub). Qed.

(** On a term without wildcard, the pattern that [search] builds matches the
    texts in which the term occurs, letter case apart. *)
Lemma ilike_percent term field :
  plain term = true →
  ilike field (percent (Some term)) = occurs_in (Some term) field.
Proof.
  intros Hplain. unfold ilike, percent, occurs_in. simpl default.
  change ("%" +:+ term +:+ "%") with (String "%" (term +:+ "%")).
  induction field as [|a field IH].
  - rewrite sql_like_percent_cons, orb_false_r, sql_like_prefix by done.
    by rewrite contains_nil.
  - rewrite sql_like_percent_cons, IH, sql_like_prefix by done.
    by rewrite !lower_cons, contains_cons.
Qed.

Lemma search_selects_by_term (term : string) (c : CachedModule.t) :
  plain term = true → term ≠ EmptyString →
  search_selects (by_term term) c = term_in_row term c.
Proof.
  intros Hplain Hterm.
  unfold search_selects, search_where, search_conditions, by_term, term_in_row.
  cbn [search_term search_name search_desc search_lang search_type truthy_str app].
  rewrite (proj2 (String.eqb_neq _ _) Hterm). cbn [negb ilike3 fmap option_fmap option_map].
  rewrite !ilike_percent by done.
  destruct (CachedModule.language c) as [language|];
    cbn [ilike3 fmap option_fmap option_map].
  - rewrite ilike_percent by done. by repeat destruct (occurs_in _ _).
  - by repeat destruct (occurs_in _ _).
Qed.

Lemma search_selects_by_fields (o : search_options) (c : CachedModule.t) :
  by_fields o = true → search_selects o c = options_match o c.
Proof.
  unfold by_fields, options_match, search_selects, search_where, search_conditions,
    field_matches, ilike3.
  destruct (truthy_str (search_name o)), (truthy_str (search_desc o)),
    (truthy_str (search_lang o)), (truthy_str (search_type o)); try done; intros _;
    destruct (truthy_str (search_term o)), (CachedModule.language c) as [language|];
    cbn [app fold_left fmap option_fmap option_map negb orb andb and3 or3];
    repeat match goal with |- context [ilike ?f ?p] => destruct (ilike f p) end; done.
Qed.

(** *** Grouping *)

Lemma insert_asc_elem k ks x : x ∈ insert_asc k ks ↔ x = k ∨ x ∈ ks.
Proof.
  induction ks as [|y ks IH]; simpl.
  - rewrite list_elem_of_singleton, elem_of_nil. tauto.
  - destruct (String.ltb k y); [by rewrite elem_of_cons|].
    destruct (String.eqb_spec y k) as [->|Hne].
    + rewrite elem_of_cons. tauto.
    + rewrite !elem_of_cons, IH. tauto.
Qed.

Lemma distinct_asc_elem ks x : x ∈ distinct_asc ks ↔ x ∈ ks.
Proof.
  induction ks as [|k ks IH]; simpl; [done|].
  by rewrite insert_asc_elem, elem_of_cons, IH.
Qed.

Lemma insert_asc_ascending k ks : ascending ks → ascending (insert_asc k ks).
Proof.
  induction ks as [|y ks IH]; simpl.
  - intros _. split; [by intros x ?%elem_of_nil | done].
  - intros [Hy Hks]. destruct (String.ltb k y) eqn:Hky.
    + split; [|done]. intros x [->|Hx]%elem_of_cons; [done|].
      eapply ltb_trans; [done | by apply Hy].
    + destruct (String.eqb y k) eqn:Heq; [done|].
      split; [|by apply IH].
      intros x [->|Hx]%insert_asc_elem; [|by apply Hy].
      apply ltb_total; [done|]. apply String.eqb_neq. apply String.eqb_neq in Heq. congruence.
Qed.

Lemma distinct_asc_ascending ks : ascending (distinct_asc ks).
Proof. induction ks as [|k ks IH]; simpl; [done | by apply insert_asc_ascending]. Qed.

Lemma keyed_keys {A} (g : string → A) (ks : list string) :
  ((λ k, (k, g k)) <$> ks).*1 = ks.
Proof. induction ks as [|k ks IH]; [done|]. rewrite !fmap_cons. simpl. by rewrite IH. Qed.

(** The grouped query lists by name the rows that [WHERE] keeps. *)
Lemma group_by_lower_name_spec (p : CachedModule.t → bool) (cache : list CachedModule.t) :
  lists_by_name p cache (group_by_lower_name (filter (λ c, p c = true) cache)).
Proof.
  unfold lists_by_name, group_by_lower_name.
  rewrite keyed_keys.
  split; [apply distinct_asc_ascending|]. split.
  - intros k. rewrite distinct_asc_elem, list_elem_of_fmap. split.
    + intros (c & -> & [Hp Hc]%list_elem_of_filter). eauto.
    + intros (c & Hc & Hp & <-). exists c. split; [done|]. by apply list_elem_of_filter.
  - intros k rows (k' & [= -> ->] & _)%list_elem_of_fmap.
    by rewrite list_filter_filter.
Qed.

Lemma search_query_spec (o : search_options) (p : CachedModule.t → bool)
    (cache : list CachedModule.t) :
  (∀ c, search_selects o c = p c) →
  lists_by_name p cache (search_query o cache).
Proof.
  intros Hp. unfold search_query.
  rewrite (list_filter_iff _ (λ c, p c = true)) by (intros c; by rewrite Hp).
  apply group_by_lower_name_spec.
Qed.

Section SearchFacts.
Context {E : Type} `{Env E}.

(** X19.  [search --query TERM] alone, for a term without percent sign and
    underscore, lists the modules by name: one entry for each lower-cased
    name that has a row in which the term occurs, letter case apart, in the
    name, the description, the language or the module type, the names in
    ascending order.  The row shown for a name is one of these rows of the
    name; a row without language counts by its other fields only.  The
    title names the term, and when no row has the term the command says
    so. *)
Theorem search_by_term_alone (term : string) (w : world E) :
  plain term = true → term ≠ EmptyString → is_cache_empty w = false →
  ∃ groups,
    lists_by_name (term_in_row term) (cache w) groups
    ∧ search (by_term term) w
      = match groups with
        | [] => SearchNoModules
        | _ => SearchResults (Some term) groups
        end.
Proof.
  intros Hplain Hterm Hcache. exists (search_query (by_term term) (cache w)).
  split; [apply search_query_spec; intros c; by apply search_selects_by_term|].
  unfold search. rewrite Hcache.
  change (by_fields (by_term term)) with false.
  change (search_term (by_term term)) with (Some term).
  cbn [truthy_str orb]. rewrite (proj2 (String.eqb_neq _ _) Hterm). cbn [negb].
  by destruct (search_query _ _).
Qed.

(** X20.  When at least one field option is given, [search] lists by name
    the rows that match every field option given and, if a general term is
    given too, have the term in their name or description: the language and
    the module type are then not searched for the general term.  There is
    one entry for each lower-cased name that has such a row, the names in
    ascending order, and a row without language matches no [--lang]
    option. *)
Theorem search_with_field_options (o : search_options) (w : world E) :
  by_fields o = true → is_cache_empty w = false →
  ∃ groups,
    lists_by_name (options_match o) (cache w) groups
    ∧ search o w
      = match groups with
        | [] => SearchNoModules
        | _ => SearchResults None groups
        end.
Proof.
  intros Hfields Hcache. exists (search_query o (cache w)).
  split; [apply search_query_spec; intros c; by apply search_selects_by_fields|].
  unfold search. rewrite Hcache, Hfields. cbn [orb].
  by destruct (search_query _ _).
Qed.

End SearchFacts.

Lemma search_by_term_alone_witness :
  ∃ groups,
    lists_by_name (term_in_row "james") two_modules groups
    ∧ search (by_term "james") search_world
      = match groups with
        | [] => SearchNoModules
        | _ => SearchResults (Some "james") groups
        end.
Proof.
  apply (search_by_term_alone "james" search_world);
    [reflexivity | discriminate | reflexivity].
Defined.

Lemma search_with_field_options_witness :
  let o := {| search_term := Some "king"; search_name := None; search_desc := None;
              search_lang := Some "EN"; search_type := None |} in
  ∃ groups,
    lists_by_name (options_match o) two_modules groups
    ∧ search o search_world
      = match groups with
        | [] => SearchNoModules
        | _ => SearchResults None groups
        end.
Proof.
  intros o. apply (search_with_field_options o search_world);
    reflexivity.
Defined.

(** Run: two versions of one module give one entry, under the lower-cased
    name, and the entries are in the order of these names. *)
Example search_groups_versions :
  search (by_term "king") search_world
  = SearchResults (Some "king")
      [("asv", [cached "ASV" "2015-03-01" "http://x/ASV.zip" "bible"]);
       ("kjv", [cached "KJV" "2020-01-01" "http://x/KJV-2020.zip" "bible";
                cached "kjv" "2021-06-15" "http://x/KJV-2021.zip" "bible"])].
Proof. vm_compute. reflexivity. Qed.

(** Run: a general term is looked for in the language when it stands alone,
    and no longer once a field option is given; without any term the command
    asks for one. *)
Example search_term_and_field :
  let c := cached "KJV" "2020-01-01" "http://x/KJV-2020.zip" "bible" in
  search_selects (by_term "en") c = true
  ∧ search_selects {| search_term := Some "en"; search_name := Some "kjv";
                      search_desc := None; search_lang := None; search_type := None |} c
    = false
  ∧ search {| search_term := Some EmptyString; search_name := None;
              search_desc := None; search_lang := None; search_type := None |}
           sample_world
    = SearchNoTerm.
Proof. repeat split; reflexivity. Qed.

(** ** Updating the cache *)

(** *** The records of a parse name their registry *)







(** *** Steps of the update *)

Section UpdateFacts.
Context {N : Type} `{Web N}.

Lemma ucmd_bind_inv {A B} (m : ucmd N A) (f : A → ucmd N B) s r s' :
  (m ≫= f) s = (r, s') →
  (∃ a s1, m s = (Done a, s1) ∧ f a s1 = (r, s'))
  ∨ (∃ e, m s = (Failed e, s') ∧ r = Failed e).
Proof.
  unfold mbind, ucmd_bind. destruct (m s) as [[a|e] s1].
  - intros Hf. left. eauto.
  - intros [= <- <-]. right. eauto.
Qed.

Lemma upreserves_bind {A B} P (m : ucmd N A) (f : A → ucmd N B) :
  upreserves P m → (∀ a, upreserves P (f a)) → upreserves P (m ≫= f).
Proof.
  intros Hm Hf s r s' [(a & s1 & Hms & Hfs)|(e & Hms & _)]%ucmd_bind_inv HP.
  - eapply Hf; [done|]. by eapply Hm.
  - by eapply Hm.
Qed.

Lemma upreserves_ret {A} P (a : A) : upreserves P (mret a : ucmd N A).
Proof. by intros s r s' [= <- <-]. Qed.

Lemma upreserves_pure {A} P (r : outcome A) : upreserves P (pure r : ucmd N A).
Proof. by intros s r' s' [= <- <-]. Qed.


Lemma upreserves_modify (P : update_state N → Prop) f :
  (∀ s, P s → P (f s)) → upreserves P (modify f).
Proof. intros Hf s r s' [= <- <-]. apply Hf. Qed.

Lemma upreserves_try_except P (body : ucmd N unit) handler :
  upreserves P body → (∀ e, upreserves P (handler e)) → upreserves P (try_except body handler).
Proof.
  intros Hbody Hhandler s r s'. unfold try_except.
  destruct (body s) as [[[]|e] s1] eqn:Hs.
  - intros [= <- <-] HP. by eapply Hbody.
  - destruct (caught e).
    + intros Hh HP. eapply Hhandler; [done|]. by eapply Hbody.
    + intros [= <- <-] HP. by eapply Hbody.
Qed.

Lemma quiet_step_upreserves {A} (P : update_state N → Prop) (c : ucmd N A) :
  quiet_step c →
  (∀ s s', cached_modules s' = cached_modules s → etag_file s' = etag_file s →
           update_log s' = update_log s → P s → P s') →
  upreserves P c.
Proof. intros Hc HP s r s' (? & ? & ?)%Hc. by apply HP. Qed.

Lemma if_none_match_state url name (s : update_state N) r s' :
  if_none_match url name s = (r, s') → s' = s.
Proof.
  unfold if_none_match, mbind, ucmd_bind, get_state, pure. 
  destruct (lift (py_in url (etag_cache s))) as [known|e]; [|by intros [= <- <-]].
  destruct (_ && _); [|by intros [= <- <-]].
  destruct (lift (py_getitem (etag_cache s) url)); by intros [= <- <-].
Qed.

Lemma quiet_step_fetch_content url name header : quiet_step (fetch_content url name header).
Proof.
  intros s r s'. unfold fetch_content. unfold mbind, ucmd_bind at 1.
  destruct (session_get url header (web s)) as [[response|e] n]; [|by intros [= <- <-]].
  destruct (status_code response =? 304)%Z.
  { unfold mbind, ucmd_bind, get_state, pure. cbn [registry_cache set_web].
    destruct (registry_cache s !! name); by intros [= <- <-]. }
  unfold mbind, ucmd_bind at 1. unfold pure at 1.
  destruct (raise_for_status response); [|by intros [= <- <-]].
  unfold mbind, ucmd_bind at 1. unfold modify at 1.
  destruct (etag_header response) as [etag|].
  - unfold mbind, ucmd_bind, get_state, pure, modify.
    cbn [etag_cache set_registry_cache set_web].
    destruct (lift (py_setitem (etag_cache s) url (JStr etag))); by intros [= <- <-].
  - unfold mbind, ucmd_bind. by intros [= <- <-].
Qed.









Lemma add_modules_Done modules_to_add (s : update_state N) :
  ∃ s', add_modules modules_to_add s = (Done tt, s').
Proof. unfold add_modules. destruct modules_to_add; by eexists. Qed.

(** A source whose processing fails has added nothing to the cache. *)
Lemma source_body_Failed url name header (s : update_state N) e s' :
  source_body url name header s = (Failed e, s') →
  cached_modules s' = cached_modules s.
Proof.
  unfold source_body.
  intros [(content & s1 & Hfetch & Hrest)|(e' & Hfetch & _)]%ucmd_bind_inv.
  2: { by apply quiet_step_fetch_content in Hfetch as (? & _). }
  apply quiet_step_fetch_content in Hfetch as (Hdb & _).
  apply ucmd_bind_inv in Hrest as [(data & s2 & [= _ <-] & Hrest)|(e' & [= _ <-] & _)];
    [|done].
  apply ucmd_bind_inv in Hrest as [(rs & s3 & [= _ <-] & Hrest)|(e' & [= _ <-] & _)];
    [|done].
  destruct (add_modules_Done rs s1) as [s4 Hadd]. congruence.
Qed.

(** X22.  A source that cannot be processed does not stop the update.
    When the request, the decoding or the parse of one source raises an
    exception of one of the six classes of the [except] clause, the failure
    is logged, the cache holds what it held before that source, and the loop
    goes on with the next source. *)
Theorem update_goes_on_after_a_failing_source (source_file : string * string)
    (rest : list (string * string)) (header : option json) (s s1 : update_state N)
    (e : uexn) :
  let url := Py.strip source_file.2 in
  if_none_match url source_file.1 s = (Done header, s) →
  source_body url source_file.1 header s = (Failed e, s1) →
  caught e = true →
  update_loop (source_file :: rest) s
  = update_loop rest (logged (FailedToProcess url e) s1)
  ∧ cached_modules (logged (FailedToProcess url e) s1) = cached_modules s.
Proof.
  intros url Hheader Hbody Hcaught. split.
  - cbn [update_loop]. unfold mbind, ucmd_bind at 1. unfold process_source.
    unfold mbind, ucmd_bind at 1. fold url. rewrite Hheader.
    unfold try_except. rewrite Hbody, Hcaught. done.
  - by apply source_body_Failed in Hbody.
Qed.

Lemma py_in_getitem v k :
  py_in k v = Ok true → (∃ x, py_getitem v k = Ok x) ∨ py_getitem v k = Raise TypeError.
Proof.
  destruct v as [| | | | |d]; simpl; try (by right).
  intros [= [x Hx]%bool_decide_eq_true]. left. rewrite Hx. eauto.
Qed.

Lemma if_none_match_Failed url name (s : update_state N) e s' :
  if_none_match url name s = (Failed e, s') → e = Exn TypeError.
Proof.
  unfold if_none_match, mbind, ucmd_bind, get_state, pure.
  destruct (py_in url (etag_cache s)) as [known|e'] eqn:Hin; simpl.
  2: { intros [= <- <-]. by rewrite (raises_only_py_in _ _ _ Hin). }
  destruct known; simpl; [|done].
  destruct (bool_decide _); [|done].
  destruct (py_in_getitem _ _ Hin) as [[x ->]| ->]; simpl; [done|]. by intros [= <- <-].
Qed.

Lemma process_source_Failed source_file (s : update_state N) e s' :
  process_source source_file s = (Failed e, s') → caught e = false.
Proof.
  unfold process_source.
  intros [(header & s1 & _ & Hbody)|(e' & ->%if_none_match_Failed & [= ->])]%ucmd_bind_inv;
    [|done].
  revert Hbody. unfold try_except.
  destruct (source_body _ _ _ _) as [[[]|e'] s2]; [done|].
  destruct (caught e') eqn:Hcaught; [done|]. by intros [= <- <-].
Qed.

Lemma update_loop_Failed files : ∀ (s : update_state N) e s',
  update_loop files s = (Failed e, s') → caught e = false.
Proof.
  induction files as [|f rest IH]; intros s e s'; simpl; [done|].
  intros [([] & s1 & _ & Hrest)|(e' & Hf & [= ->])]%ucmd_bind_inv.
  - by eapply IH.
  - by eapply process_source_Failed.
Qed.

Lemma update_loop_etag_file files f :
  upreserves (λ s : update_state N, etag_file s = f) (update_loop files).
Proof.
  induction files as [|g rest IH]; simpl; [apply upreserves_ret|].
  apply upreserves_bind; [|done]. unfold process_source.
  apply upreserves_bind.
  { intros s r s' Hs. by rewrite (if_none_match_state _ _ _ _ _ Hs). }
  intros header. apply upreserves_try_except; [|intros e; by apply upreserves_modify].
  unfold source_body. apply upreserves_bind.
  { apply quiet_step_upreserves; [apply quiet_step_fetch_content|].
    intros s s' _ -> _. done. }
  intros content. apply upreserves_bind; [apply upreserves_pure|]. intros data.
  apply upreserves_bind; [apply upreserves_pure|]. intros rs.
  unfold add_modules. destruct rs; [apply upreserves_ret | by apply upreserves_modify].
Qed.

(** X23.  How an update ends.  No exception of the six classes of the
    [except] clause escapes it.  When it returns, the ETags it holds have
    been written to [etags.json] and the last thing printed is that the
    update is complete.  When another exception ends it, [etags.json] is as
    it was before. *)
Theorem update_cache_outcomes (sources_dir : list (string * string))
    (s : update_state N) :
  match update_cache sources_dir s with
  | (Done _, s') =>
      etag_file s' = Some (etag_cache s')
      ∧ last (update_log s') = Some CacheUpdateComplete
  | (Failed e, s') => caught e = false ∧ etag_file s' = etag_file s
  end.
Proof.
  unfold update_cache. unfold mbind, ucmd_bind at 1. cbn [get_state].
  unfold mbind, ucmd_bind at 1. cbn [modify].
  unfold mbind, ucmd_bind at 1. cbn [modify].
  unfold mbind, ucmd_bind at 1.
  destruct (update_loop _ _) as [[[]|e] s1] eqn:Hloop.
  - unfold mbind, ucmd_bind, get_state, save_etag_cache, modify. simpl.
    split; [done|]. by rewrite last_snoc.
  - split; [by eapply update_loop_Failed|].
    by apply (update_loop_etag_file _ (etag_file s) _ _ _ Hloop).
Qed.

(** X24.  A conditional request is only sent when the registry is in the
    registry cache.  So when the header [If-None-Match] is sent and the
    server answers 304, the bytes of the registry are those of the cached
    file, and neither the registry cache nor the ETags change. *)
Theorem not_modified_is_served_from_the_registry_cache (url name : string) (etag : json)
    (s : update_state N) (r : response) (n : N) :
  if_none_match url name s = (Done (Some etag), s) →
  session_get url (Some etag) (web s) = (Done r, n) →
  status_code r = 304%Z →
  py_getitem (etag_cache s) url = Ok etag
  ∧ ∃ bytes, registry_cache s !! name = Some bytes
             ∧ fetch_content url name (Some etag) s = (Done bytes, set_web n s).
Proof.
  intros Hheader Hget Hstatus.
  assert (py_getitem (etag_cache s) url = Ok etag
          ∧ is_Some (registry_cache s !! name)) as [Hetag [bytes Hbytes]].
  { revert Hheader. unfold if_none_match, mbind, ucmd_bind, get_state, pure.
    destruct (py_in url (etag_cache s)) as [[|]|e]; simpl; try done.
    destruct (bool_decide _) eqn:Hexists; [|done].
    apply bool_decide_eq_true in Hexists.
    destruct (py_getitem (etag_cache s) url); simpl; [|done]. by intros [= ->]. }
  split; [done|]. exists bytes. split; [done|].
  unfold fetch_content. unfold mbind, ucmd_bind at 1. rewrite Hget, Hstatus. simpl.
  unfold mbind, ucmd_bind, get_state. simpl. by rewrite Hbytes.
Qed.

End UpdateFacts.

Lemma update_goes_on_after_a_failing_source_witness :
  let source_file := ("down.registry", "http://down/registry.zip ") in
  let url := Py.strip source_file.2 in
  update_loop [source_file; ("flat.extra", "http://x/flat.json")] first_update_started
  = update_loop [("flat.extra", "http://x/flat.json")]
      (logged (FailedToProcess url (Exn RequestException)) first_update_started)
  ∧ cached_modules (logged (FailedToProcess url (Exn RequestException)) first_update_started)
    = cached_modules first_update_started.
Proof.
  intros source_file url.
  apply (update_goes_on_after_a_failing_source source_file
           [("flat.extra", "http://x/flat.json")] None first_update_started
           first_update_started (Exn RequestException)); reflexivity.
Defined.

Lemma not_modified_is_served_from_the_registry_cache_witness :
  py_getitem (etag_cache second_update) "http://x/registry.zip" = Ok (JStr "v1")
  ∧ ∃ bytes, registry_cache second_update !! "x.registry" = Some bytes
             ∧ fetch_content "http://x/registry.zip" "x.registry" (Some (JStr "v1"))
                 second_update
               = (Done bytes, set_web sample_servers second_update).
Proof.
  apply (not_modified_is_served_from_the_registry_cache "http://x/registry.zip" "x.registry"
           (JStr "v1") second_update (answer 304 "" None) sample_servers);
    reflexivity.
Defined.

(** Run, on three sources of which one is down: the old row is gone, the
    two other sources give a row each, the registries and the ETag that was
    sent are kept, the failure is logged. *)
Example first_update_run :
  let '(r, s') := update_cache sample_sources first_update in
  r = Done tt
  ∧ (λ c, (CachedModule.name c, CachedModule.source_registry c)) <$> cached_modules s'
    = [("kjv", "http://x/registry.zip"); ("a", "http://x/flat.json")]
  ∧ registry_cache s' !! "x.registry" = Some "<zip>"
  ∧ registry_cache s' !! "flat.extra" = Some "<flat>"
  ∧ registry_cache s' !! "down.registry" = None
  ∧ etag_file s' = Some (JDict [("http://x/registry.zip", JStr "v1")])
  ∧ update_log s'
    = [FailedToProcess "http://down/registry.zip" (Exn RequestException);
       CacheUpdateComplete].
Proof. vm_compute. done. Qed.

(** Run a second time: the registry that answers 304 is read from the
    registry cache and gives the same rows. *)
Example second_update_run :
  cached_modules (update_cache sample_sources second_update).2
  = cached_modules second_update.
Proof. vm_compute. done. Qed.

(** Run with a flat catalog that lists a number among its modules: the
    [TypeError] of the parser is not caught, the update ends with it, and the
    table, emptied at the start, holds the rows of the sources before it. *)
Example update_with_a_number_entry :
  let '(r, s') := update_cache [("a.extra", "http://x/flat.json");
                                ("b.extra", "http://x/numbers.json");
                                ("x.registry", "http://x/registry.zip")] first_update in
  r = Failed (Exn TypeError)
  ∧ CachedModule.name <$> cached_modules s' = ["kjv"; "a"]
  ∧ etag_file s' = None
  ∧ update_log s' = [].
Proof. vm_compute. done. Qed.

(** ** Install: the name constraint, and what [info] says afterwards *)

Section InstallFreshFacts.
Context {E : Type} `{Env E}.

Lemma select_module_Some cache name version mod_ :
  select_module cache name version = Some mod_ →
  mod_ ∈ cache ∧ ilike (CachedModule.name mod_) name = true.
Proof.
  unfold select_module. destruct (truthy_str version).
  - by intros (? & ? & _)%cached_version_Some.
  - by intros (? & ? & _)%latest_cached_is_latest.
Qed.

Lemma get_or_none_None i name m :
  get_or_none i name = None → m ∈ modules i → ilike (InstalledModule.name m) name = false.
Proof.
  unfold get_or_none. intros Hnone Hm%list_elem_of_In.
  by apply (find_none _ _ Hnone) in Hm.
Qed.

Lemma create_files_raise module items : ∀ (w : world E) e w',
  create_files module items w = (Raise e, w') → e = OperationalError.
Proof.
  induction items as [|[fname fpath] items IH]; intros w e w'; simpl; [done|].
  intros [([] & w1 & _ & Hrest)|(e' & Hcreate & Heq)]%cmd_bind_inv; [by eapply IH|].
  unfold InstalledFile_create in Hcreate.
  destruct (insert_file_fails _ _); by simplify_eq.
Qed.

(** The test of line 610 before the atomic block of line 586: when no
    installed module matches the name asked for, none has the name of the
    cached row that is selected for it, so the module row is created, and
    the only exception that the block can end with is the refusal of a file
    row. *)
Lemma record_install_after_precheck (name : string) (version : option string)
    (w w1 : world E) (mod_ : CachedModule.t) (items : list (string * string)) :
  get_or_none (inv w) name = None →
  select_module (cache w) name version = Some mod_ →
  inv w1 = inv w →
  (∃ m w2, InstalledModule_create (CachedModule.name mod_) (CachedModule.language mod_)
             (CachedModule.description mod_) (CachedModule.update_date mod_)
             (now (env w1)) w1 = (Ok m, w2))
  ∧ ((record_install mod_ items w1).1 = Ok tt
     ∨ (record_install mod_ items w1).1 = Raise OperationalError).
Proof.
  intros Hnone [_ Hlike]%select_module_Some Hinv.
  assert (existsb (λ m, String.eqb (InstalledModule.name m) (CachedModule.name mod_))
                  (modules (inv w1)) = false) as Hfree.
  { rewrite Hinv. apply not_true_is_false.
    intros (m & Hm%list_elem_of_In & Heq%String.eqb_eq)%existsb_exists.
    apply (get_or_none_None _ _ _ Hnone) in Hm. congruence. }
  split.
  - unfold InstalledModule_create. rewrite Hfree. eauto.
  - destruct (record_install mod_ items w1) as [r w3] eqn:Hrecord. simpl.
    destruct r as [[]|e]; [by left|right].
    revert Hrecord. unfold record_install, atomic. unfold mbind, cmd_bind at 1.
    cbn [env_read]. unfold mbind, cmd_bind at 1. unfold InstalledModule_create at 1.
    rewrite Hfree.
    match goal with |- context [create_files ?m items ?w0] =>
      destruct (create_files m items w0) as [[[]|e'] w4] eqn:Hfiles end; [done|].
    intros [= <- <-]. by apply create_files_raise in Hfiles as ->.
Qed.

Lemma ensure_downloaded_raise bad name mod_ zip_path (w : world E) e w' :
  env_never_raises bad →
  ensure_downloaded name mod_ zip_path w = (Raise e, w') → e ≠ bad.
Proof.
  intros (Hexists & _ & Hfetch & _). unfold ensure_downloaded, env_try.
  pose proof (Hexists zip_path (env w)) as Hex.
  destruct (path_exists zip_path (env w)) as [[|]|e0]; [done| |intros [= <- <-]; congruence].
  pose proof (Hfetch (CachedModule.download_url mod_) zip_path (env w)) as Hf.
  destruct (fetch_to _ _ _) as [[[]|e1] e']; [done|]. simpl in Hf.
  destruct e1; intros [= <- <-]; congruence.
Qed.

Lemma extract_members_raise bad zip_path module_path clean_module_name members :
  env_never_raises bad → bad ≠ TypeError →
  ∀ final_files_to_db (w : world E) e w',
    extract_members zip_path module_path clean_module_name members final_files_to_db w
    = (Raise e, w') →
    e ≠ bad.
Proof.
  intros (Hexists & Hrename & _ & _ & Hextract) Htype.
  induction members as [|member rest IH]; intros final w e w'; simpl; [done|].
  destruct (is_dir member); [apply IH|].
  intros [([] & w1 & _ & Hrest)|(e1 & Hzip & [= ->])]%cmd_bind_inv.
  2: { unfold env_try in Hzip.
       pose proof (Hextract zip_path member module_path (env w)) as Hz.
       destruct (zip_extract _ _ _ _) as [r ez]. simpl in Hz.
       injection Hzip as -> _. congruence. }
  destruct module_path as [module_path'|]; [|injection Hrest as <- _; congruence].
  destruct (negb _); [|by eapply IH].
  apply cmd_bind_inv in Hrest as [(ex & w2 & _ & Hrest)|(e1 & Hask & [= ->])].
  2: { unfold env_ask in Hask. injection Hask as Hask _.
       intros ->. by eapply Hexists. }
  apply cmd_bind_inv in Hrest as [([] & w3 & _ & Hrest)|(e1 & Hmove & [= ->])];
    [by eapply IH|].
  destruct ex; [|done]. unfold env_try in Hmove.
  match type of Hmove with context [path_rename ?a ?b ?e0] =>
    pose proof (Hrename a b e0) as Hr; destruct (path_rename a b e0) as [r er] end.
  simpl in Hr. injection Hmove as -> _. congruence.
Qed.

(** After the test of line 610 has found no installed module for the name,
    [install_single_module] does not end with [IntegrityError]. *)
Lemma install_single_module_raise name version (w : world E) e w' :
  env_never_raises IntegrityError →
  get_or_none (inv w) name = None →
  install_single_module name version w = (Raise e, w') →
  e ≠ IntegrityError.
Proof.
  intros Henv Hnone. unfold install_single_module. unfold mbind, cmd_bind at 1.
  cbn [get_world].
  destruct (select_module (cache w) name version) as [mod_|] eqn:Hselect; [|done].
  intros [(downloaded & w1 & Hdl & Hrest)|(e1 & Hdl & [= ->])]%cmd_bind_inv;
    [|by eapply ensure_downloaded_raise].
  apply keeps_stores_ensure_downloaded in Hdl as (_ & Hinv1 & _).
  destruct downloaded; [|done].
  apply cmd_bind_inv in Hrest as [(members & w2 & Hzip & Hrest)|(e1 & Hzip & [= ->])].
  2: { destruct Henv as (_ & _ & _ & Hlist & _). unfold env_try in Hzip.
       injection Hzip as Hzip _. intros ->. by eapply Hlist. }
  apply keeps_stores_env_try in Hzip as (_ & Hinv2 & _).
  apply cmd_bind_inv in Hrest as [(items & w3 & Hextract & Hrest)|(e1 & Hextract & [= ->])];
    [|by eapply extract_members_raise].
  apply keeps_stores_extract_members in Hextract as (_ & Hinv3 & _).
  apply cmd_bind_inv in Hrest as [([] & w4 & _ & Hrest)|(e1 & Hrecord & [= ->])]; [done|].
  assert (inv w3 = inv w) as Hinv by congruence.
  destruct (record_install_after_precheck name version w w3 mod_ items Hnone Hselect Hinv)
    as [_ [Hok|Hfails]]; rewrite Hrecord in *; simpl in *; congruence.
Qed.

Lemma install_precheck_plain name (w : world E) :
  install_precheck name false w
  = match get_or_none (inv w) name with
    | Some _ => (Ok false, printed (AlreadyInstalled name) w)
    | None => (Ok true, w)
    end.
Proof.
  unfold install_precheck, atomic, mbind, cmd_bind, get_world.
  by destruct (get_or_none (inv w) name).
Qed.

Lemma install_loop_raise version : ∀ module_names (w : world E) r w',
  env_never_raises IntegrityError →
  install_loop module_names version false w = (r, w') →
  r ≠ Raise IntegrityError.
Proof.
  induction module_names as [|name rest IH]; intros w r w' Henv; cbn [install_loop].
  { by intros [= <- <-]. }
  intros [([] & w1 & Hprint & Hrest)|(e & [=] & _)]%cmd_bind_inv.
  injection Hprint as <-.
  apply cmd_bind_inv in Hrest as [(proceed & w2 & Hpre & Hrest)|(e & Hpre & _)];
    rewrite install_precheck_plain in Hpre;
    destruct (get_or_none (inv (printed (Processing name) w)) name) eqn:Hinstalled;
    try done; injection Hpre as <- <-.
  - apply cmd_bind_inv in Hrest as [([] & w3 & _ & Hrest)|(e & [=] & _)]. by eapply IH.
  - apply cmd_bind_inv in Hrest as [([] & w3 & _ & Hrest)|(e & Hstep & ->)];
      [by eapply IH|].
    apply cmd_bind_inv in Hstep as [(b & w4 & _ & [=])|(e' & Hinstall & [= ->])].
    intros [= ->].
    by eapply (install_single_module_raise name version _ _ _ Henv Hinstalled Hinstall).
Qed.

(** X25.  [install] without [--reinstall] never ends with the
    [IntegrityError] of the unique constraint on the names of installed
    modules: the test of line 610 lets a name through only when no installed
    module matches it, and then none has the name of the cached row that is
    selected for it.  The outside world is taken not to raise that exception
    itself. *)
Theorem install_never_hits_the_name_constraint (names : list string)
    (version : option string) (w : world E) :
  env_never_raises IntegrityError →
  (install names version false w).1 ≠ Raise IntegrityError.
Proof.
  intros Henv. unfold install, use_installed_db. unfold mbind, cmd_bind at 1.
  cbn [get_world]. destruct (truthy_str (module_path w)); [|done].
  unfold install_body. unfold mbind, cmd_bind at 1. cbn [get_world].
  destruct (_ && _); [done|]. destruct (is_cache_empty w); [done|].
  destruct (install_loop _ _ _ _) as [r w'] eqn:Hloop.
  by eapply install_loop_raise.
Qed.

Lemma create_files_frame module items : ∀ (w : world E) r w',
  create_files module items w = (r, w') →
  cache w' = cache w ∧ module_path w' = module_path w.
Proof.
  induction items as [|[fname fpath] items IH]; intros w r w'; simpl.
  { by intros [= <- <-]. }
  intros [([] & w1 & Hcreate & Hrest)|(e & Hcreate & _)]%cmd_bind_inv;
    unfold InstalledFile_create in Hcreate; destruct (insert_file_fails _ _); try done.
  - injection Hcreate as <-. by apply IH in Hrest.
  - by injection Hcreate as <- <-.
Qed.

Lemma record_install_frame mod_ items (w : world E) r w' :
  record_install mod_ items w = (r, w') →
  cache w' = cache w ∧ module_path w' = module_path w.
Proof.
  unfold record_install, atomic. unfold mbind, cmd_bind at 1. cbn [env_read].
  unfold mbind, cmd_bind at 1. unfold InstalledModule_create at 1.
  destruct (existsb _ _); [by intros [= <- <-]|].
  match goal with |- context [create_files ?m items ?w0] =>
    destruct (create_files m items w0) as [[[]|e] w3] eqn:Hfiles end;
    apply create_files_frame in Hfiles; by intros [= <- <-].
Qed.

(** What a successful install leaves. *)
Lemma install_single_module_installed name version (w : world E) w' :
  install_single_module name version w = (Ok true, w') →
  cache w' = cache w ∧ module_path w' = module_path w
  ∧ ∃ mod_ m items,
      select_module (cache w) name version = Some mod_
      ∧ row_of mod_ m ∧ installed_together (inv w) (inv w') m items.
Proof.
  unfold install_single_module. unfold mbind, cmd_bind at 1. cbn [get_world].
  destruct (select_module (cache w) name version) as [mod_|] eqn:Hselect; [|done].
  intros [(downloaded & w1 & Hdl & Hrest)|(e & _ & [=])]%cmd_bind_inv.
  apply keeps_stores_ensure_downloaded in Hdl as (Hc1 & Hinv1 & Hp1).
  destruct downloaded; [|done].
  apply cmd_bind_inv in Hrest as [(members & w2 & Hzip & Hrest)|(e & _ & [=])].
  apply keeps_stores_env_try in Hzip as (Hc2 & Hinv2 & Hp2).
  apply cmd_bind_inv in Hrest as [(items & w3 & Hextract & Hrest)|(e & _ & [=])].
  apply keeps_stores_extract_members in Hextract as (Hc3 & Hinv3 & Hp3).
  apply cmd_bind_inv in Hrest as [([] & w4 & Hrecord & Hrest)|(e & _ & [=])].
  destruct (record_install_frame _ _ _ _ _ Hrecord) as [Hc4 Hp4].
  apply record_install_spec in Hrecord as (m & Hrow & Htogether).
  injection Hrest as <-. simpl.
  split; [congruence|]. split; [congruence|]. exists mod_, m, items.
  assert (inv w3 = inv w) as Hinv by congruence. rewrite Hinv in Htogether. done.
Qed.

Lemma find_app_None {A} (p : A → bool) (l : list A) x :
  List.find p l = None → p x = true → List.find p (l ++ [x]) = Some x.
Proof.
  induction l as [|a l IH]; simpl; [by intros _ ->|].
  destruct (p a); [done | apply IH].
Qed.

(** X26.  After a module that was not installed has been installed without
    [--version], [info] shows it as up to date at the latest cached version,
    and [upgrade] does not select it. *)
Theorem fresh_install_is_up_to_date (name : string) (w w' : world E) :
  truthy_str (module_path w) = true →
  get_or_none (inv w) name = None →
  install_single_module name None w = (Ok true, w') →
  ∃ latest installed_files,
    info name w'
    = InfoPanel latest (InfoUpToDate (CachedModule.update_date latest) installed_files)
    ∧ is_latest (cache w') name latest
    ∧ outdated (cache w') (inv w') name = false.
Proof.
  intros Hpath Hnone (Hcache & Hpath' & mod_ & m & items & Hselect & Hrow & Htogether)
    %install_single_module_installed.
  assert (latest_cached (cache w') name = Some mod_) as Hlatest by by rewrite Hcache.
  destruct Hrow as (Hname & _ & _ & Hdate). destruct Htogether as (Hmodules & _).
  assert (get_or_none (inv w') name = Some m) as Hinstalled.
  { unfold get_or_none. rewrite Hmodules. apply find_app_None; [done|].
    rewrite Hname. by apply latest_cached_is_latest in Hlatest as (_ & ? & _). }
  exists mod_, (InstalledFile.file_name <$> files_of (inv w') m).
  split; [|split; [by apply latest_cached_is_latest|]].
  - assert (is_cache_empty w' = false) as Hempty.
    { unfold is_cache_empty. by destruct (cache w'). }
    unfold info. rewrite Hpath', Hpath, Hempty. cbn [negb].
    by rewrite Hlatest, Hinstalled, Hdate, leb_refl.
  - unfold outdated. by rewrite Hinstalled, Hlatest, Hdate, ltb_irrefl.
Qed.

End InstallFreshFacts.

Lemma sim_never_raises_IntegrityError : env_never_raises (E:=sim) IntegrityError.
Proof.
  unfold env_never_raises. split; [|split; [|split; [|split]]].
  - intros p e. simpl. by destruct (mem p (sim_denied e)).
  - by intros a b e.
  - intros url p e. simpl. by destruct (assoc url (sim_remote e)).
  - intros p e. simpl. by destruct (assoc p (sim_archives e)).
  - by intros p m module_path e.
Qed.

Lemma install_never_hits_the_name_constraint_witness :
  (install ["kjv"; "KJV"] None false fresh_world).1 ≠ Raise IntegrityError.
Proof.
  apply (install_never_hits_the_name_constraint ["kjv"; "KJV"] None fresh_world).
  exact sim_never_raises_IntegrityError.
Defined.

(** Run: with [--reinstall] the constraint can fail.  The name "A_B"
    matches, as a pattern, the installed module "AxB" first: that module is
    removed, and the row for "A_B" cannot be created while the old row of
    "A_B" is there. *)
Example reinstall_hits_the_name_constraint :
  (install ["A_B"] None true wildcard_world).1 = Raise IntegrityError
  ∧ modules (inv (install ["A_B"] None true wildcard_world).2)
    = [installed_row 2 "A_B" "2020-01-01"].
Proof. split; vm_compute; reflexivity. Qed.

Lemma fresh_install_is_up_to_date_witness :
  ∃ latest installed_files,
    info "kjv" (install_single_module "kjv" None fresh_world).2
    = InfoPanel latest (InfoUpToDate (CachedModule.update_date latest) installed_files)
    ∧ is_latest (cache (install_single_module "kjv" None fresh_world).2) "kjv" latest
    ∧ outdated (cache (install_single_module "kjv" None fresh_world).2)
               (inv (install_single_module "kjv" None fresh_world).2) "kjv" = false.
Proof.
  apply (fresh_install_is_up_to_date "kjv" fresh_world
           (install_single_module "kjv" None fresh_world).2);
    vm_compute; reflexivity.
Defined.

(** ** The default sources *)

Lemma init_sources_step_other (force : bool) (l : list (string * string)) :
  ∀ (d : gmap string string) name,
    name ∉ l.*1 →
    foldl (λ d source,
             if negb (bool_decide (is_Some (d !! source.1))) || force
             then <[source.1 := source.2]> d else d) d l !! name
    = d !! name.
Proof.
  induction l as [|[filename url] l IH]; intros d name Hname; simpl; [done|].
  rewrite fmap_cons, not_elem_of_cons in Hname. destruct Hname as [Hne Hname].
  rewrite IH by done. destruct (_ || _); [|done]. by rewrite lookup_insert_ne.
Qed.

Lemma init_sources_step_default (force : bool) (l : list (string * string)) :
  ∀ (d : gmap string string) filename url,
    NoDup l.*1 → (filename, url) ∈ l →
    foldl (λ d source,
             if negb (bool_decide (is_Some (d !! source.1))) || force
             then <[source.1 := source.2]> d else d) d l !! filename
    = if force then Some url else Some (default url (d !! filename)).
Proof.
  induction l as [|[filename0 url0] l IH]; intros d filename url Hnodup Hin; simpl.
  { by apply elem_of_nil in Hin. }
  rewrite fmap_cons in Hnodup. apply NoDup_cons in Hnodup as [Hfresh Hnodup].
  apply elem_of_cons in Hin as [[= -> ->]|Hin].
  - rewrite init_sources_step_other by done. cbn [fst snd].
    destruct (d !! filename0) as [text|] eqn:Hd; destruct force; simpl;
      by rewrite ?lookup_insert_eq.
  - rewrite (IH _ filename url) by done. destruct force; [done|].
    assert (filename ≠ filename0) as Hne.
    { intros ->. apply Hfresh. apply list_elem_of_fmap. by exists (filename0, url). }
    simpl. destruct (_ || _); [|done]. by rewrite lookup_insert_ne.
Qed.

Lemma default_sources_NoDup : NoDup DEFAULT_SOURCES.*1.
Proof. compute_done. Qed.

Lemma default_sources_are_registries name :
  name ∈ DEFAULT_SOURCES.*1 → Py.endswith name ".extra" = false.
Proof.
  intros Hname. vm_compute in Hname.
  repeat (apply elem_of_cons in Hname as [->|Hname]; [reflexivity|]).
  by apply elem_of_nil in Hname.
Qed.

(** X27.  [init_sources] writes default sources only.  With [force], as in
    [reinit], every default source holds its default URL afterwards; without
    it, a file that exists keeps its text and the default sources that are
    missing are added.  In both cases a file that is not a default source,
    and so every file with the suffix [.extra], is as it was. *)
Theorem init_sources_writes_default_sources_only (force : bool)
    (sources_dir : gmap string string) :
  (∀ filename url, (filename, url) ∈ DEFAULT_SOURCES →
     init_sources force sources_dir !! filename
     = if force then Some url else Some (default url (sources_dir !! filename)))
  ∧ (∀ name, name ∉ DEFAULT_SOURCES.*1 →
       init_sources force sources_dir !! name = sources_dir !! name)
  ∧ (∀ name, Py.endswith name ".extra" = true →
       init_sources force sources_dir !! name = sources_dir !! name)
  ∧ (∀ name text, sources_dir !! name = Some text →
       init_sources false sources_dir !! name = Some text).
Proof.
  assert (∀ name, name ∉ DEFAULT_SOURCES.*1 →
            init_sources force sources_dir !! name = sources_dir !! name) as Hother.
  { intros name Hname. by apply init_sources_step_other. }
  split; [|split; [done|split]].
  - intros filename url Hin. apply init_sources_step_default; [|done].
    apply default_sources_NoDup.
  - intros name Hextra. apply Hother. intros Hname%default_sources_are_registries.
    congruence.
  - intros name text Htext.
    destruct (decide (name ∈ DEFAULT_SOURCES.*1)) as [Hin|Hout].
    + apply list_elem_of_fmap in Hin as ([filename url] & -> & Hin).
      change ((filename, url).1) with filename in *. unfold init_sources.
      rewrite (init_sources_step_default false _ _ filename url
                 default_sources_NoDup Hin).
      by rewrite Htext.
    + unfold init_sources. by rewrite init_sources_step_other.
Qed.

(** A directory without source files is given the eight default sources; a
    directory with a file is left alone, also when a default source is
    missing. *)
Example ensure_sources_examples :
  ensure_sources ∅ = list_to_map DEFAULT_SOURCES
  ∧ ensure_sources {["my.extra" := "http://x/flat.json"]}
    = {["my.extra" := "http://x/flat.json"]}
  ∧ reinit true {["my.extra" := "http://x/flat.json"]} !! "my.extra"
    = Some "http://x/flat.json".
Proof. repeat split; try reflexivity. Qed.
